(** * Hux-Hue: the vibe-aware colour engines

    A shallow embedding of [src/utils/vibeHarmony.js] (mood classifier and
    companion generator) and [src/utils/gradientEngine.js] (hue path
    resolver, OKLCH interpolator, gradient stop optimizer and vibe gradient
    generator), with the properties the specification states about them.

    Numbers.  A JavaScript number is modelled by [num]: an exact rational,
    one of the two infinities, or NaN.  Arithmetic on finite values is
    exact (no rounding, no overflow) and zero carries no sign; everything
    else follows the language: NaN is absorbing, comparisons with NaN are
    false, [0/0] is NaN, [x/0] is an infinity, [Math.min]/[Math.max] return
    NaN when an argument is NaN.  [Math.sin] and [Math.random] are not
    computable on rationals: the first is a parameter of the development
    (a function on rationals bounded by 1 in absolute value, as every
    implementation is), the second an oracle read through a state monad.

    Rounding.  The program computes in binary64.  The properties are
    stated so that the last bit of a result does not decide them: bounds
    are closed, a threshold on a hue distance is approached to a margin
    only, and an equation between two ways of computing a hue is stated
    where both are exact (non-negative hues for the double normalization,
    whole degrees for sums of hues).  Where a sentence of the
    specification holds in exact arithmetic and fails in the program,
    module [Binary64] runs the code in double precision at the input that
    shows it.

    Objects.  A colour object is a record whose fields may be absent
    ([None] stands for [undefined]); [x ?? d] and the coercion of
    [undefined] to NaN in arithmetic are written out.  String-valued
    enumerations (energy, depth, mood, role, path, style, ...) are inductive
    types; [steps], [stops] and [count] are natural numbers. *)

From Stdlib Require Import QArith Qround Qabs Lqa Lia ZArith List String Bool Sorted Permutation.
From Stdlib Require Floats.
Import ListNotations.

(* ===================================================================== *)
(** * 1. Numbers *)
(* ===================================================================== *)

Module JS.

Local Open Scope Q_scope.

Inductive num : Type :=
| Fin (q : Q)
| PInf
| NInf
| NaN.

Coercion Fin : Q >-> num.

(** Truncation toward zero, as in the definition of the [%] operator. *)
Definition Qtrunc (q : Q) : Z :=
  if Qlt_le_dec q 0 then Qceiling q else Qfloor q.

(** [a % b] on finite operands, [b] non-zero: the remainder has the sign of
    the dividend. *)
Definition Qfmod (a b : Q) : Q := a - b * inject_Z (Qtrunc (a / b)).

Definition Qsign_inf (q : Q) (pos : bool) : num :=
  if Qlt_le_dec q 0 then (if pos then NInf else PInf)
  else if Qlt_le_dec 0 q then (if pos then PInf else NInf)
  else NaN.

Definition neg (x : num) : num :=
  match x with
  | Fin a => Fin (- a)
  | PInf => NInf
  | NInf => PInf
  | NaN => NaN
  end.

Definition add (x y : num) : num :=
  match x, y with
  | NaN, _ | _, NaN => NaN
  | Fin a, Fin b => Fin (a + b)
  | PInf, NInf | NInf, PInf => NaN
  | PInf, _ | _, PInf => PInf
  | NInf, _ | _, NInf => NInf
  end.

Definition sub (x y : num) : num := add x (neg y).

Definition mul (x y : num) : num :=
  match x, y with
  | NaN, _ | _, NaN => NaN
  | Fin a, Fin b => Fin (a * b)
  | Fin a, PInf | PInf, Fin a => Qsign_inf a true
  | Fin a, NInf | NInf, Fin a => Qsign_inf a false
  | PInf, PInf | NInf, NInf => PInf
  | PInf, NInf | NInf, PInf => NInf
  end.

Definition div (x y : num) : num :=
  match x, y with
  | NaN, _ | _, NaN => NaN
  | Fin a, Fin b =>
      if Qeq_dec b 0 then Qsign_inf a true else Fin (a / b)
  | Fin _, (PInf | NInf) => Fin 0
  | PInf, Fin b => if Qlt_le_dec b 0 then NInf else PInf
  | NInf, Fin b => if Qlt_le_dec b 0 then PInf else NInf
  | (PInf | NInf), (PInf | NInf) => NaN
  end.

(** The [%] operator. *)
Definition rem (x y : num) : num :=
  match x, y with
  | NaN, _ | _, NaN => NaN
  | (PInf | NInf), _ => NaN
  | Fin a, Fin b => if Qeq_dec b 0 then NaN else Fin (Qfmod a b)
  | Fin a, (PInf | NInf) => Fin a
  end.

(** [x < y]; [gt], [le] and [ge] are the other three operators.  Each is
    [false] as soon as an operand is NaN. *)
Definition lt (x y : num) : bool :=
  match x, y with
  | NaN, _ | _, NaN => false
  | Fin a, Fin b => if Qlt_le_dec a b then true else false
  | NInf, (Fin _ | PInf) => true
  | Fin _, PInf => true
  | _, _ => false
  end.

Definition gt (x y : num) : bool := lt y x.

Definition le (x y : num) : bool :=
  match x, y with
  | NaN, _ | _, NaN => false
  | _, _ => negb (lt y x)
  end.

Definition ge (x y : num) : bool := le y x.

Definition Math_max (x y : num) : num :=
  match x, y with
  | NaN, _ | _, NaN => NaN
  | _, _ => if lt x y then y else x
  end.

Definition Math_min (x y : num) : num :=
  match x, y with
  | NaN, _ | _, NaN => NaN
  | _, _ => if lt y x then y else x
  end.

Definition Math_abs (x : num) : num :=
  match x with
  | Fin a => Fin (Qabs a)
  | PInf | NInf => PInf
  | NaN => NaN
  end.

(** [Math.round]: the nearest integer, halves rounded up. *)
Definition Math_round (x : num) : num :=
  match x with
  | Fin a => Fin (inject_Z (Qfloor (a + 0.5)))
  | _ => x
  end.

(** [Math.PI], the double nearest to pi. *)
Definition Math_PI : num := Fin (884279719003555 # 281474976710656).

(** A count (a loop index, [steps], [stops], [count]) used as a number. *)
Definition of_nat (n : nat) : num := Fin (inject_Z (Z.of_nat n)).

(** Number of iterations of [for (let i = 0; i < n; i++)] for a bound that
    is finite or NaN.  (With the bound [Infinity] the loop would not end;
    the bounds of the modelled loops are computed from natural numbers and
    are never infinite.) *)
Definition loop_count (n : num) : nat :=
  match n with
  | Fin a => Z.to_nat (Qceiling a)
  | _ => 0%nat
  end.

(** Reading a possibly absent field. *)
Definition nullish (o : option num) (d : num) : num :=
  match o with
  | Some x => x
  | None => d
  end.

(** An absent field used as a number is NaN. *)
Definition to_num (o : option num) : num := nullish o NaN.

Definition finite (x : num) : Prop :=
  match x with
  | Fin _ => True
  | _ => False
  end.

(** [between lo hi x]: [x] is finite and [lo <= x <= hi]. *)
Definition between (lo hi : Q) (x : num) : Prop :=
  match x with
  | Fin a => lo <= a <= hi
  | _ => False
  end.

(** [below lo hi x]: [x] is finite and [lo <= x < hi]. *)
Definition below (lo hi : Q) (x : num) : Prop :=
  match x with
  | Fin a => lo <= a < hi
  | _ => False
  end.

(** Equality of numbers up to the representation of the rational. *)
Definition same (x y : num) : Prop :=
  match x, y with
  | Fin a, Fin b => a == b
  | PInf, PInf | NInf, NInf | NaN, NaN => True
  | _, _ => False
  end.

End JS.

Export JS.

Declare Scope js_scope.
Delimit Scope js_scope with js.
Bind Scope Q_scope with num.

Infix "+!" := add (at level 50, left associativity) : js_scope.
Infix "-!" := sub (at level 50, left associativity) : js_scope.
Infix "*!" := mul (at level 40, left associativity) : js_scope.
Infix "/!" := div (at level 40, left associativity) : js_scope.
Infix "%!" := rem (at level 40, left associativity) : js_scope.
Infix "<!" := lt (at level 65, no associativity) : js_scope.
Infix ">!" := gt (at level 65, no associativity) : js_scope.
Infix "<=!" := le (at level 65, no associativity) : js_scope.
Infix ">=!" := ge (at level 65, no associativity) : js_scope.
Infix "??" := nullish (at level 45, no associativity) : js_scope.

Local Open Scope js_scope.

(* ===================================================================== *)
(** * 2. Helper functions shared by the two engines *)
(* ===================================================================== *)

(** [normalizeHue(hue)]: [((hue % 360) + 360) % 360]. *)
Definition normalizeHue (hue : num) : num :=
  ((hue %! 360) +! 360) %! 360.

(** [clamp(value, min, max)]. *)
Definition clamp (value min max : num) : num :=
  Math_max min (Math_min max value).

(** [lerp(a, b, t)]. *)
Definition lerp (a b t : num) : num := a +! (b -! a) *! t.

(* ===================================================================== *)
(** * 3. Data model *)
(* ===================================================================== *)

(** An OKLCH colour object [{ mode, l, c, h }]; every field may be absent. *)
Record Color : Type := mkColor {
  col_mode : option string;
  col_l : option num;
  col_c : option num;
  col_h : option num
}.

(** The object literal [{ mode: 'oklch', l, c, h }]. *)
Definition oklch (l c h : num) : Color :=
  mkColor (Some "oklch"%string) (Some l) (Some c) (Some h).

Module Energy.
Inductive t := whisper | muted | moderate | vibrant | electric.
End Energy.

Module Depth.
Inductive t := abyss | deep | grounded | airy | soft | ethereal.
End Depth.

Module Temperature.
Inductive t := neutral | warm | hot | cool | icy | fresh | complex.
End Temperature.

Module Mood.
Inductive t :=
  moody | dreamy | jewel | pop | earthy | serene | ethereal | noir
| botanical | balanced.
End Mood.

Module HueSpread.
Inductive t := minimal | gentle | moderate | wide | organic.
End HueSpread.

Module Bias.
Inductive t := preserve | soften | contrast | complement | warm | cool | fresh.
End Bias.

Record CompanionStrategy : Type := mkStrategy {
  chromaRange : num * num;
  lightnessRange : num * num;
  hueSpread : HueSpread.t;
  temperatureBias : Bias.t;
  neutralChance : num;
  description : string
}.

(** The [raw] field of a mood descriptor: the three coordinates after the
    defaults have been substituted. *)
Record Raw : Type := mkRaw { raw_l : num; raw_c : num; raw_h : num }.

Record MoodDescriptor : Type := mkMood {
  energy : Energy.t;
  depth : Depth.t;
  temperature : Temperature.t;
  mood : Mood.t;
  strategy : CompanionStrategy;
  raw : Raw
}.

(** The members every object literal inherits from [Object.prototype].  A
    lookup [table[name] || fallback] finds them before the fallback is
    tried: for these names the source does not take the fallback (it calls
    or spreads the inherited member instead), and they are kept out of the
    names the embedding calls unknown. *)
Definition Object_prototype : list string :=
  ["constructor"; "hasOwnProperty"; "isPrototypeOf"; "propertyIsEnumerable";
   "toLocaleString"; "toString"; "valueOf"; "__proto__";
   "__defineGetter__"; "__defineSetter__"; "__lookupGetter__";
   "__lookupSetter__"]%string.

(** [name] is none of the [keys] of a table and no inherited member: the
    lookup [table[name]] gives [undefined]. *)
Definition absent (keys : list string) (name : string) : bool :=
  negb (existsb (String.eqb name) (keys ++ Object_prototype)).

(* ===================================================================== *)
(** * 4. Mood classifier ([vibeHarmony.js], sections 1 and 2) *)
(* ===================================================================== *)

Module VibeHarmony.

Definition energy_eqb (a b : Energy.t) : bool :=
  match a, b with
  | Energy.whisper, Energy.whisper | Energy.muted, Energy.muted
  | Energy.moderate, Energy.moderate | Energy.vibrant, Energy.vibrant
  | Energy.electric, Energy.electric => true
  | _, _ => false
  end.

Definition depth_eqb (a b : Depth.t) : bool :=
  match a, b with
  | Depth.abyss, Depth.abyss | Depth.deep, Depth.deep
  | Depth.grounded, Depth.grounded | Depth.airy, Depth.airy
  | Depth.soft, Depth.soft | Depth.ethereal, Depth.ethereal => true
  | _, _ => false
  end.

Definition temperature_eqb (a b : Temperature.t) : bool :=
  match a, b with
  | Temperature.neutral, Temperature.neutral
  | Temperature.warm, Temperature.warm | Temperature.hot, Temperature.hot
  | Temperature.cool, Temperature.cool | Temperature.icy, Temperature.icy
  | Temperature.fresh, Temperature.fresh
  | Temperature.complex, Temperature.complex => true
  | _, _ => false
  end.

(** [classifyMood(energy, depth, temperature, hue)]: a first-match cascade;
    [hue] is not read. *)
Definition classifyMood (energy : Energy.t) (depth : Depth.t)
    (temperature : Temperature.t) (hue : num) : Mood.t :=
  if (energy_eqb energy Energy.muted || energy_eqb energy Energy.whisper)
     && (depth_eqb depth Depth.deep || depth_eqb depth Depth.grounded)
  then Mood.moody
  else if (energy_eqb energy Energy.muted || energy_eqb energy Energy.whisper)
     && (depth_eqb depth Depth.airy || depth_eqb depth Depth.soft)
  then Mood.dreamy
  else if (energy_eqb energy Energy.vibrant || energy_eqb energy Energy.electric)
     && (depth_eqb depth Depth.deep || depth_eqb depth Depth.abyss)
  then Mood.jewel
  else if (energy_eqb energy Energy.vibrant || energy_eqb energy Energy.electric)
     && (depth_eqb depth Depth.airy || depth_eqb depth Depth.soft
         || depth_eqb depth Depth.ethereal)
  then Mood.pop
  else if energy_eqb energy Energy.moderate
     && (temperature_eqb temperature Temperature.warm
         || temperature_eqb temperature Temperature.hot)
  then Mood.earthy
  else if energy_eqb energy Energy.moderate
     && (temperature_eqb temperature Temperature.cool
         || temperature_eqb temperature Temperature.icy)
  then Mood.serene
  else if depth_eqb depth Depth.ethereal
     || (depth_eqb depth Depth.soft && energy_eqb energy Energy.whisper)
  then Mood.ethereal
  else if (depth_eqb depth Depth.abyss || depth_eqb depth Depth.deep)
     && (energy_eqb energy Energy.whisper || energy_eqb energy Energy.muted)
  then Mood.noir
  else if temperature_eqb temperature Temperature.fresh
     && negb (energy_eqb energy Energy.whisper)
  then Mood.botanical
  else Mood.balanced.

(** [determineCompanionStrategy(mood, { l, c, h })]: one preset per mood. *)
Definition determineCompanionStrategy (mood : Mood.t) (r : Raw)
    : CompanionStrategy :=
  let l := raw_l r in
  let c := raw_c r in
  match mood with
  | Mood.moody =>
      mkStrategy (Math_max 0.02 (c *! 0.4), c *! 1.3)
                 (l -! 0.15, l +! 0.15)
                 HueSpread.wide Bias.preserve 0.3
                 "Dark, desaturated, atmospheric"
  | Mood.dreamy =>
      mkStrategy (c *! 0.3, c *! 1.2)
                 (l -! 0.10, Math_min 0.90 (l +! 0.15))
                 HueSpread.gentle Bias.soften 0.2
                 "Soft, nostalgic, whispery"
  | Mood.jewel =>
      mkStrategy (c *! 0.6, c *! 1.1)
                 (l -! 0.10, l +! 0.20)
                 HueSpread.wide Bias.contrast 0.15
                 "Rich, deep, luxurious"
  | Mood.pop =>
      mkStrategy (c *! 0.5, c *! 1.2)
                 (l -! 0.20, l +! 0.15)
                 HueSpread.wide Bias.complement 0.1
                 "Bright, energetic, playful"
  | Mood.earthy =>
      mkStrategy (c *! 0.4, c *! 1.15)
                 (l -! 0.20, l +! 0.20)
                 HueSpread.organic Bias.warm 0.35
                 "Natural, grounded, warm"
  | Mood.serene =>
      mkStrategy (c *! 0.5, c *! 1.1)
                 (l -! 0.10, l +! 0.20)
                 HueSpread.gentle Bias.cool 0.25
                 "Calm, balanced, peaceful"
  | Mood.ethereal =>
      mkStrategy (Fin 0.01, Math_max 0.06 (c *! 1.2))
                 (Fin 0.70, Fin 0.95)
                 HueSpread.gentle Bias.soften 0.4
                 "Barely-there, misty, translucent"
  | Mood.noir =>
      mkStrategy (Fin 0.01, Math_max 0.06 (c *! 1.5))
                 (Fin 0.10, Fin 0.40)
                 HueSpread.minimal Bias.preserve 0.5
                 "Dark, minimal, dramatic"
  | Mood.botanical =>
      mkStrategy (c *! 0.4, c *! 1.2)
                 (l -! 0.15, l +! 0.20)
                 HueSpread.organic Bias.fresh 0.25
                 "Natural, green-adjacent, organic"
  | Mood.balanced =>
      mkStrategy (c *! 0.5, c *! 1.2)
                 (l -! 0.15, l +! 0.15)
                 HueSpread.moderate Bias.preserve 0.2
                 "Versatile, harmonious"
  end.

(** [analyzeColorMood(color)]. *)
Definition analyzeColorMood (color : Color) : MoodDescriptor :=
  let l := col_l color ?? 0.5 in
  let c := col_c color ?? 0.1 in
  let h := col_h color ?? 0 in
  let energy :=
    if c <! 0.04 then Energy.whisper
    else if c <! 0.08 then Energy.muted
    else if c <! 0.13 then Energy.moderate
    else if c <! 0.20 then Energy.vibrant
    else Energy.electric in
  let depth :=
    if l <! 0.25 then Depth.abyss
    else if l <! 0.40 then Depth.deep
    else if l <! 0.55 then Depth.grounded
    else if l <! 0.70 then Depth.airy
    else if l <! 0.85 then Depth.soft
    else Depth.ethereal in
  let warmHues := ((h >=! 0) && (h <! 70)) || (h >=! 330) in
  let coolHues := (h >=! 170) && (h <! 280) in
  let temperature :=
    if c <! 0.04 then Temperature.neutral
    else if warmHues then
      (if c >! 0.15 then Temperature.hot else Temperature.warm)
    else if coolHues then
      (if c >! 0.15 then Temperature.icy else Temperature.cool)
    else if (h >=! 70) && (h <! 170) then Temperature.fresh
    else Temperature.complex in
  let mood := classifyMood energy depth temperature h in
  let strategy := determineCompanionStrategy mood (mkRaw l c h) in
  mkMood energy depth temperature mood strategy (mkRaw l c h).

(* ===================================================================== *)
(** * 5. Companion generator ([vibeHarmony.js], sections 3 and 6) *)
(* ===================================================================== *)

Module Role.
Inductive t :=
  source | neighbor | analogous | contrast | triadic | complement
| light_ground | dark_ground.
End Role.

(** An entry of the palette.  The [description] sentence of an entry and
    the [tips] of the result are prose that nothing reads back; they are
    not modelled. *)
Record Companion : Type := mkCompanion {
  color : Color;
  role : Role.t
}.

Record CompanionPalette : Type := mkPalette {
  palette : list Companion;
  pal_mood : Mood.t;
  moodDescription : string;
  pal_energy : Energy.t;
  pal_temperature : Temperature.t;
  pal_depth : Depth.t
}.

(** [describeCompanionRole(input, companion)]; [companion] is read through
    its hue only. *)
Definition describeCompanionRole (input : Color) (companion_h : num)
    : Role.t :=
  let hueDiff := Math_abs (normalizeHue (companion_h -! (col_h input ?? 0))) in
  if hueDiff <! 30 then Role.neighbor
  else if hueDiff <! 60 then Role.analogous
  else if hueDiff <! 120 then Role.contrast
  else if hueDiff <! 160 then Role.triadic
  else Role.complement.

(** [biasTowardRange(hue, [rangeMin, rangeMax], strength)] of
    [vibeHarmony.js]: the result is not normalized. *)
Definition biasTowardRange (hue : num) (range : num * num) (strength : num)
    : num :=
  let normalized := normalizeHue hue in
  let rangeMid := (fst range +! snd range) /! 2 in
  let diff := rangeMid -! normalized in
  let diff := if diff >! 180 then diff -! 360 else diff in
  let diff := if diff <! -180 then diff +! 360 else diff in
  normalized +! diff *! strength.

(** The body of the [while (attempts < 10)] loop of [avoidClumping];
    [fuel] is [10 - attempts]. *)
Fixpoint avoidClumping_loop (fuel attempts : nat) (adjusted : num)
    (usedHues : list num) (minSeparation : num) : num :=
  match fuel with
  | O => adjusted
  | S fuel' =>
      let tooClose :=
        existsb (fun used =>
                   let diff := Math_abs (normalizeHue (adjusted -! used)) in
                   Math_min diff (360 -! diff) <! minSeparation)
                usedHues in
      if negb tooClose then adjusted
      else
        avoidClumping_loop fuel' (S attempts)
          (normalizeHue
             (adjusted +! minSeparation *!
                (if Nat.even attempts then Fin 1 else Fin (-1))))
          usedHues minSeparation
  end.

(** [avoidClumping(hue, usedHues, minSeparation)]. *)
Definition avoidClumping (hue : num) (usedHues : list num)
    (minSeparation : num) : num :=
  match usedHues with
  | [] => hue
  | _ => avoidClumping_loop 10 0 hue usedHues minSeparation
  end.

(** The [spreadConfig] table of [pickVibeHue]: offsets and jitter. *)
Definition spreadConfig (s : HueSpread.t) : list num * num :=
  match s with
  | HueSpread.minimal => ([Fin 10; Fin (-15); Fin 20; Fin (-25); Fin 30], Fin 5)
  | HueSpread.gentle => ([Fin 25; Fin (-30); Fin 50; Fin (-55); Fin 75], Fin 10)
  | HueSpread.moderate =>
      ([Fin 40; Fin (-45); Fin 80; Fin 160; Fin (-90)], Fin 15)
  | HueSpread.wide =>
      ([Fin 60; Fin 150; Fin (-80); Fin 200; Fin (-120)], Fin 20)
  | HueSpread.organic => ([Fin 30; Fin (-25); Fin 55; Fin (-50); Fin 80], Fin 12)
  end.

Section Random.

(** The values [Math.random()] returns, in the order of the calls. *)
Variable random : nat -> Q.

(** A computation that calls [Math.random()]: the state is the number of
    calls made so far. *)
Definition Rand (A : Type) : Type := nat -> A * nat.

Definition ret {A : Type} (a : A) : Rand A := fun n => (a, n).

Definition bind {A B : Type} (m : Rand A) (k : A -> Rand B) : Rand B :=
  fun n => let (a, n') := m n in k a n'.

Definition Math_random : Rand num := fun n => (Fin (random n), S n).

Notation "x <- m ;; k" := (bind m (fun x => k))
  (at level 61, m at next level, right associativity).

(** [pickVibeHue(baseHue, mood, index, total, usedHues)]. *)
Definition pickVibeHue (baseHue : num) (mood : MoodDescriptor)
    (index : nat) (total : num) (usedHues : list num) : Rand num :=
  let strategy := strategy mood in
  let spread := spreadConfig (hueSpread strategy) in
  let baseOffset :=
    nth (index mod List.length (fst spread)) (fst spread) NaN in
  r <- Math_random ;;
  let jitter := (r -! 0.5) *! snd spread *! 2 in
  let targetHue := baseHue +! baseOffset +! jitter in
  let targetHue :=
    match temperatureBias strategy with
    | Bias.warm => biasTowardRange targetHue (Fin 0, Fin 60) 0.3
    | Bias.cool => biasTowardRange targetHue (Fin 190, Fin 260) 0.3
    | Bias.fresh => biasTowardRange targetHue (Fin 100, Fin 170) 0.25
    | Bias.contrast =>
        if Nat.even index
        then biasTowardRange targetHue (Fin 0, Fin 50) 0.2
        else biasTowardRange targetHue (Fin 200, Fin 260) 0.2
    | Bias.soften => baseHue +! (targetHue -! baseHue) *! 0.7
    | Bias.preserve | Bias.complement => targetHue
    end in
  let targetHue := avoidClumping (normalizeHue targetHue) usedHues 25 in
  ret (normalizeHue targetHue).

(** [generateSingleCompanion(input, mood, index, totalChromatic, usedHues)]. *)
Definition generateSingleCompanion (input : Color) (mood : MoodDescriptor)
    (index : nat) (totalChromatic : num) (usedHues : list num)
    : Rand Companion :=
  let h := raw_h (raw mood) in
  let strategy := strategy mood in
  targetHue <- pickVibeHue h mood index totalChromatic usedHues ;;
  let minC := fst (chromaRange strategy) in
  let maxC := snd (chromaRange strategy) in
  r1 <- Math_random ;;
  let chromaVariation := r1 *! 0.6 +! 0.4 in
  let targetChroma :=
    clamp (minC +! (maxC -! minC) *! chromaVariation) 0.01 0.30 in
  let minL := fst (lightnessRange strategy) in
  let maxL := snd (lightnessRange strategy) in
  let lightnessStep := (of_nat index +! 1) /! (totalChromatic +! 1) in
  r2 <- Math_random ;;
  let targetLightness :=
    clamp (minL +! (maxL -! minL) *! lightnessStep +! (r2 -! 0.5) *! 0.06)
          0.08 0.95 in
  let role := describeCompanionRole input targetHue in
  ret (mkCompanion
         (oklch targetLightness targetChroma (normalizeHue targetHue))
         role).

(** [generateGroundingNeutral(input, mood, index)]. *)
Definition generateGroundingNeutral (input : Color) (mood : MoodDescriptor)
    (index : nat) : Rand Companion :=
  let l := raw_l (raw mood) in
  let h := raw_h (raw mood) in
  r0 <- Math_random ;;
  let neutralChroma := 0.01 +! r0 *! 0.025 in
  r1 <- Math_random ;;
  let neutralLightness :=
    if l >! 0.6 then 0.15 +! r1 *! 0.20
    else if l <! 0.4 then 0.75 +! r1 *! 0.15
    else if Nat.even index then 0.85 +! r1 *! 0.08
    else 0.18 +! r1 *! 0.12 in
  r2 <- Math_random ;;
  let neutralHue := normalizeHue (h +! (r2 -! 0.5) *! 20) in
  ret (mkCompanion
         (oklch neutralLightness neutralChroma neutralHue)
         (if neutralLightness >! 0.6 then Role.light_ground
          else Role.dark_ground)).

(** The first loop of [generateVibeCompanions]: [n] iterations remain,
    [i] is the loop index. *)
Fixpoint chromaticLoop (input : Color) (mood : MoodDescriptor)
    (chromaSlots : num) (n i : nat) (companions : list Companion)
    (usedHues : list num) : Rand (list Companion) :=
  match n with
  | O => ret companions
  | S n' =>
      companion <- generateSingleCompanion input mood i chromaSlots usedHues ;;
      chromaticLoop input mood chromaSlots n' (S i)
        (companions ++ [companion])
        (usedHues ++ [to_num (col_h (color companion))])
  end.

(** The second loop of [generateVibeCompanions]. *)
Fixpoint neutralLoop (input : Color) (mood : MoodDescriptor)
    (n i : nat) (companions : list Companion) : Rand (list Companion) :=
  match n with
  | O => ret companions
  | S n' =>
      companion <- generateGroundingNeutral input mood i ;;
      neutralLoop input mood n' (S i) (companions ++ [companion])
  end.

End Random.

(** [Array.prototype.sort(compare)]: a stable sort, written as an insertion
    sort; an element moves behind another one only when [compare] of the
    two is positive. *)
Fixpoint Array_insert {A : Type} (compare : A -> A -> num) (x : A)
    (xs : list A) : list A :=
  match xs with
  | [] => [x]
  | y :: ys =>
      if compare x y >! 0 then y :: Array_insert compare x ys
      else x :: y :: ys
  end.

Definition Array_sort {A : Type} (compare : A -> A -> num) (xs : list A)
    : list A :=
  fold_right (Array_insert compare) [] xs.

(** The options of [generateVibeCompanions]; [purpose] is not read. *)
Record CompanionOptions : Type := mkCompanionOptions {
  count : nat;
  includeInput : bool
}.

Definition defaultCompanionOptions : CompanionOptions :=
  mkCompanionOptions 5 true.

(** [generateVibeCompanions(inputColor, options)]; [descriptor] is the
    source's local [mood]. *)
Definition generateVibeCompanions (random : nat -> Q) (inputColor : Color)
    (options : CompanionOptions) : Rand CompanionPalette :=
  let descriptor := analyzeColorMood inputColor in
  let usedHues := [col_h inputColor ?? 0] in
  let targetCount :=
    if includeInput options then of_nat (count options) -! 1
    else of_nat (count options) in
  let neutralSlots :=
    Math_round (targetCount *! neutralChance (strategy descriptor)) in
  let chromaSlots := targetCount -! neutralSlots in
  bind (chromaticLoop random inputColor descriptor chromaSlots
          (loop_count chromaSlots) 0 [] usedHues) (fun companions =>
  bind (neutralLoop random inputColor descriptor (loop_count neutralSlots) 0
          companions) (fun companions =>
  let companions :=
    Array_sort (fun a b => (col_l (color b) ?? 0) -! (col_l (color a) ?? 0))
               companions in
  let palette :=
    if includeInput options
    then mkCompanion
           (mkColor (Some "oklch"%string) (col_l inputColor)
                    (col_c inputColor) (col_h inputColor))
           Role.source :: companions
    else companions in
  ret (mkPalette palette (mood descriptor)
         (description (strategy descriptor)) (energy descriptor) (temperature descriptor)
         (depth descriptor)))).

(* --------------------------------------------------------------------- *)
(** ** Accent finder, background finder, presets and the explanation
       engine ([vibeHarmony.js], sections 4, 5 and 7) *)
(* --------------------------------------------------------------------- *)

Module Intensity.
Inductive t := subtle | balanced | bold.
End Intensity.

(** The result of [findVibeAccent]; the [explanation] sentence is prose and
    is not modelled. *)
Record AccentResult : Type := mkAccentResult {
  accent : Color;
  accent_mood : Mood.t;
  alternatives : list Color
}.

(** An entry of the result of [findVibeBackgrounds]; its [description]
    sentence is not modelled. *)
Record Background : Type := mkBackground {
  bg_color : Color;
  label : string
}.

Record BackgroundsResult : Type := mkBackgroundsResult {
  backgrounds : list Background;
  bg_mood : Mood.t;
  recommendation : string
}.

Section Finders.

Variable random : nat -> Q.

Notation "x <- m ;; k" := (bind m (fun x => k))
  (at level 61, m at next level, right associativity).

(** [findVibeAccent(inputColor, { intensity })].  The [hueOffsets] object
    literal draws its three random numbers before one of them is chosen. *)
Definition findVibeAccent (inputColor : Color) (intensity : Intensity.t)
    : Rand AccentResult :=
  let descriptor := analyzeColorMood inputColor in
  let l := raw_l (raw descriptor) in
  let c := raw_c (raw descriptor) in
  let h := raw_h (raw descriptor) in
  r_subtle <- Math_random random ;;
  r_balanced <- Math_random random ;;
  r_bold <- Math_random random ;;
  let hueOffset :=
    match intensity with
    | Intensity.subtle => 30 +! r_subtle *! 20
    | Intensity.balanced => 120 +! r_balanced *! 40
    | Intensity.bold => 150 +! r_bold *! 60
    end in
  let accentHue := normalizeHue (h +! hueOffset) in
  let chromaMultiplier :=
    match intensity with
    | Intensity.subtle => Fin 1.0
    | Intensity.balanced => Fin 1.2
    | Intensity.bold => Fin 1.5
    end in
  let accentChroma := clamp (c *! chromaMultiplier) 0.06 0.25 in
  r_light <- Math_random random ;;
  let accentLightness :=
    if l >! 0.55 then l -! 0.15 -! r_light *! 0.10
    else l +! 0.15 +! r_light *! 0.10 in
  let accentLightness := clamp accentLightness 0.25 0.80 in
  ret (mkAccentResult
         (oklch accentLightness accentChroma accentHue)
         (mood descriptor)
         [oklch (accentLightness +! 0.05) (accentChroma *! 0.85)
                (normalizeHue (h +! hueOffset -! 20));
          oklch (accentLightness -! 0.05) (accentChroma *! 1.1)
                (normalizeHue (h +! hueOffset +! 25))]).

(** [findVibeBackgrounds(inputColor)]. *)
Definition findVibeBackgrounds (inputColor : Color)
    : Rand BackgroundsResult :=
  let descriptor := analyzeColorMood inputColor in
  let l := raw_l (raw descriptor) in
  let h := raw_h (raw descriptor) in
  r0 <- Math_random random ;;
  r1 <- Math_random random ;;
  let light :=
    mkBackground (oklch (0.96 +! r0 *! 0.03) (0.005 +! r1 *! 0.01) h)
                 "Light & Clean" in
  r2 <- Math_random random ;;
  r3 <- Math_random random ;;
  let dark :=
    mkBackground (oklch (0.10 +! r2 *! 0.05) (0.005 +! r3 *! 0.015) h)
                 "Deep & Moody" in
  let warm :=
    mkBackground
      (oklch (if depth_eqb (depth descriptor) Depth.deep
                 || depth_eqb (depth descriptor) Depth.abyss
              then Fin 0.92 else Fin 0.15)
             0.015 (normalizeHue (h +! 30)))
      (if depth_eqb (depth descriptor) Depth.deep then "Warm Paper"
       else "Warm Dark")%string in
  let wash :=
    mkBackground
      (oklch (if l >! 0.5 then Fin 0.12 else Fin 0.93) 0.02
             (normalizeHue (h +! 180)))
      "Complement Wash" in
  ret (mkBackgroundsResult [light; dark; warm; wash] (mood descriptor)
         (if l >! 0.6
          then "Your color is light — darker backgrounds will make it pop"
          else "Your color is rich/dark — lighter or very dark backgrounds both work well")%string).

End Finders.

Module Preset.
(** The keys of the [presets] and [adjustedColors] tables. *)
Definition names : list string :=
  ["dusty-romance"; "midnight-jewel"; "morning-fog"; "desert-sun";
   "deep-forest"; "neon-noir"]%string.

(** The six preset names, and any other string a caller may pass for which
    both lookups of [getVibePreset] fall back: a name that is neither a key
    of the tables nor an inherited member. *)
Inductive t :=
  dusty_romance | midnight_jewel | morning_fog | desert_sun | deep_forest
| neon_noir | other (name : string) (unknown : absent names name = true).
End Preset.

(** The [adjustedColors] table of [getVibePreset], with its fallback to the
    base colour. *)
Definition adjustedColor (presetName : Preset.t) (baseColor : Color)
    : Color :=
  match presetName with
  | Preset.dusty_romance =>
      mkColor (col_mode baseColor) (Some (Fin 0.55))
              (Some (Math_min (col_c baseColor ?? 0.1) 0.08))
              (col_h baseColor)
  | Preset.midnight_jewel =>
      mkColor (col_mode baseColor) (Some (Fin 0.30))
              (Some (Math_max (col_c baseColor ?? 0.1) 0.18))
              (col_h baseColor)
  | Preset.morning_fog =>
      mkColor (col_mode baseColor) (Some (Fin 0.80))
              (Some (Math_min (col_c baseColor ?? 0.1) 0.04))
              (col_h baseColor)
  | Preset.desert_sun =>
      mkColor (col_mode baseColor) (Some (Fin 0.55)) (Some (Fin 0.12))
              (Some (biasTowardRange (col_h baseColor ?? 0)
                       (Fin 20, Fin 50) 0.5))
  | Preset.deep_forest =>
      mkColor (col_mode baseColor) (Some (Fin 0.35)) (Some (Fin 0.10))
              (Some (biasTowardRange (col_h baseColor ?? 0)
                       (Fin 120, Fin 160) 0.6))
  | Preset.neon_noir =>
      mkColor (col_mode baseColor) (Some (Fin 0.25))
              (Some (Math_max (col_c baseColor ?? 0.1) 0.22))
              (col_h baseColor)
  | Preset.other _ _ => baseColor
  end.

(** [getVibePreset(presetName, baseColor)]: every preset configuration is
    [{ count: 5, purpose: 'palette' }]. *)
Definition getVibePreset (random : nat -> Q) (presetName : Preset.t)
    (baseColor : Color) : Rand CompanionPalette :=
  let adjusted := adjustedColor presetName baseColor in
  generateVibeCompanions random
    (mkColor (Some "oklch"%string) (col_l adjusted) (col_c adjusted)
       (col_h adjusted))
    (mkCompanionOptions 5 true).

(** [describeRelationship(input, companion, mood)]; [mood] is not read.
    The hue of [companion] is read without a default, its lightness and
    chroma with the defaults 0.5 and 0.1. *)
Definition describeRelationship (input companion : Color) : string :=
  let hueDiff :=
    Math_abs (normalizeHue (to_num (col_h companion) -! (col_h input ?? 0))) in
  let lightDiff := (col_l companion ?? 0.5) -! (col_l input ?? 0.5) in
  let chromaDiff := (col_c companion ?? 0.1) -! (col_c input ?? 0.1) in
  let relationship :=
    (if hueDiff <! 30 then "A close neighbor — "
     else if hueDiff <! 60 then "An analogous friend — "
     else if hueDiff <! 120 then "A warm contrast — "
     else if hueDiff <! 160 then "A triadic partner — "
     else "A soft opposite — ")%string in
  let relationship :=
    (relationship ++
     (if Math_abs chromaDiff <! 0.03 then "matched energy"
      else if chromaDiff >! 0 then "slightly bolder"
      else "slightly softer"))%string in
  (relationship ++
   (if Math_abs lightDiff <! 0.08 then ", same weight"
    else if lightDiff >! 0 then ", lighter"
    else ", deeper"))%string.

End VibeHarmony.

(* ===================================================================== *)
(** * 6. Gradient engine ([gradientEngine.js]) *)
(* ===================================================================== *)

Module Path.
Inductive t := short | long | warm | cool.
End Path.

Module Ease.
Inductive t := linear | ease | easeIn | easeOut.
End Ease.

Module Style.
(** The keys of the [generators] and [descriptions] tables, and 'auto',
    which [generateVibeGradient] resolves before any lookup. *)
Definition names : list string :=
  ["auto"; "atmospheric"; "jewel"; "earthy"; "dreamy"; "pop"; "noir";
   "botanical"; "chromatic-arc"]%string.

(** The eight styles, and any other string a caller may pass for which the
    lookups of the source fall back to the chromatic arc: a name that is
    neither a key of the tables nor an inherited member. *)
Inductive t :=
  atmospheric | jewel | earthy | dreamy | pop | noir | botanical
| chromatic_arc
| other (name : string) (unknown : absent names name = true).
End Style.

Record GradientResult : Type := mkGradient {
  stops : list Color;
  keyStops : list Color;
  style : Style.t;
  grad_mood : Mood.t;
  grad_energy : Energy.t;
  grad_temperature : Temperature.t;
  huePath : Path.t;
  grad_description : string
}.

Module GradientEngine.

(** The two statements every non-short branch of [interpolateHue] runs to
    force the long arc. *)
Definition longWay (diff : num) : num :=
  let diff := if (diff >! 0) && (diff <! 180) then diff -! 360 else diff in
  if (diff <! 0) && (diff >! -180) then diff +! 360 else diff.

(** The [shortDiff] of the warm and cool branches. *)
Definition shortDiff (diff : num) : num :=
  if diff >! 180 then diff -! 360
  else if diff <! -180 then diff +! 360
  else diff.

(** The value of [diff] when the [switch] of [interpolateHue] is left;
    [h1] and [h2] are the normalized hues. *)
Definition resolveDelta (h1 h2 : num) (path : Path.t) : num :=
  let diff := h2 -! h1 in
  match path with
  | Path.short =>
      let diff := if diff >! 180 then diff -! 360 else diff in
      if diff <! -180 then diff +! 360 else diff
  | Path.long => longWay diff
  | Path.warm =>
      let midpoint := normalizeHue (h1 +! shortDiff diff /! 2) in
      if (midpoint >! 170) && (midpoint <! 280) then longWay diff else diff
  | Path.cool =>
      let midpoint := normalizeHue (h1 +! shortDiff diff /! 2) in
      let inWarm := (midpoint >! 330) || (midpoint <! 60) in
      if inWarm then longWay diff else diff
  end.

(** [interpolateHue(h1, h2, t, path)]. *)
Definition interpolateHue (h1 h2 t : num) (path : Path.t) : num :=
  let h1 := (h1 %! 360 +! 360) %! 360 in
  let h2 := (h2 %! 360 +! 360) %! 360 in
  let diff := resolveDelta h1 h2 path in
  normalizeHue (h1 +! diff *! t).

(** [applyEasing(t, easing)]. *)
Definition applyEasing (t : num) (easing : Ease.t) : num :=
  match easing with
  | Ease.ease =>
      if t <! 0.5 then 2 *! t *! t
      else 1 -! ((-2) *! t +! 2) *! ((-2) *! t +! 2) /! 2
  | Ease.easeIn => t *! t
  | Ease.easeOut => 1 -! (1 -! t) *! (1 -! t)
  | Ease.linear => t
  end.

(** [getHueDistance(h1, h2, path)]. *)
Definition getHueDistance (h1 h2 : num) (path : Path.t) : num :=
  let h1 := normalizeHue h1 in
  let h2 := normalizeHue h2 in
  let diff := Math_abs (h2 -! h1) in
  let diff := if diff >! 180 then 360 -! diff else diff in
  match path with
  | Path.long => 360 -! diff
  | _ => diff
  end.

(** [biasTowardRange(hue, [rangeMin, rangeMax], strength)] of
    [gradientEngine.js]: the result is normalized. *)
Definition biasTowardRange (hue : num) (range : num * num) (strength : num)
    : num :=
  let normalized := normalizeHue hue in
  let rangeMid := (fst range +! snd range) /! 2 in
  let diff := rangeMid -! normalized in
  let diff := if diff >! 180 then diff -! 360 else diff in
  let diff := if diff <! -180 then diff +! 360 else diff in
  normalizeHue (normalized +! diff *! strength).

(** The options of [optimizeForGradient]. *)
Record OptimizeOptions : Type := mkOptimizeOptions {
  opt_huePath : Path.t;
  boostChroma : bool;
  insertMidpoints : bool
}.

Definition defaultOptimizeOptions : OptimizeOptions :=
  mkOptimizeOptions Path.short true true.

(** An element of [intermediateStops]. *)
Record Intermediate : Type := mkIntermediate {
  position : num;
  stop_color : Color
}.

(** The stops [optimizeForGradient] inserts between [a] and [b], in the
    order in which it pushes them to [expanded]. *)
Definition intermediateStops (options : OptimizeOptions) (a b : Color)
    : list Color :=
  let huePath := opt_huePath options in
  let hueDist := getHueDistance (col_h a ?? 0) (col_h b ?? 0) huePath in
  let chromaA := col_c a ?? 0 in
  let chromaB := col_c b ?? 0 in
  let boost := if boostChroma options then Fin 1.1 else Fin 1 in
  let midpoint :=
    if boostChroma options && (chromaA >! 0.03) && (chromaB >! 0.03) then
      let midL := (to_num (col_l a) +! to_num (col_l b)) /! 2 in
      let midC := Math_max chromaA chromaB *! 1.15 in
      let midH := interpolateHue (col_h a ?? 0) (col_h b ?? 0) 0.5 huePath in
      [mkIntermediate 0.5 (oklch midL (clamp midC 0 0.35) midH)]
    else [] in
  let quarters :=
    if hueDist >! 90 then
      let quarterH :=
        interpolateHue (col_h a ?? 0) (col_h b ?? 0) 0.25 huePath in
      let threeQuarterH :=
        interpolateHue (col_h a ?? 0) (col_h b ?? 0) 0.75 huePath in
      [mkIntermediate 0.25
         (oklch (lerp (to_num (col_l a)) (to_num (col_l b)) 0.25)
                (lerp chromaA chromaB 0.25 *! boost)
                quarterH);
       mkIntermediate 0.75
         (oklch (lerp (to_num (col_l a)) (to_num (col_l b)) 0.75)
                (lerp chromaA chromaB 0.75 *! boost)
                threeQuarterH)]
    else [] in
  map stop_color
    (VibeHarmony.Array_sort (fun x y => position x -! position y)
       (midpoint ++ quarters)).

(** The [for] loop of [optimizeForGradient] over the adjacent pairs. *)
Fixpoint expandPairs (options : OptimizeOptions) (colors : list Color)
    : list Color :=
  match colors with
  | a :: (b :: _) as rest =>
      a :: (if insertMidpoints options then intermediateStops options a b
            else [])
        ++ expandPairs options rest
  | _ => []
  end.

(** [optimizeForGradient(colors, options)]. *)
Definition optimizeForGradient (colors : list Color)
    (options : OptimizeOptions) : list Color :=
  match colors with
  | [] | [_] => colors
  | first :: _ => expandPairs options colors ++ [last colors first]
  end.

(** [mapMoodToGradientStyle(mood)]. *)
Definition mapMoodToGradientStyle (m : MoodDescriptor) : Style.t :=
  match mood m with
  | Mood.moody => Style.atmospheric
  | Mood.dreamy => Style.dreamy
  | Mood.jewel => Style.jewel
  | Mood.pop => Style.pop
  | Mood.earthy => Style.earthy
  | Mood.serene => Style.atmospheric
  | Mood.ethereal => Style.dreamy
  | Mood.noir => Style.noir
  | Mood.botanical => Style.botanical
  | Mood.balanced => Style.chromatic_arc
  end.

(** [determineHuePath(baseColor, style)]. *)
Definition determineHuePath (baseColor : Color) (style : Style.t) : Path.t :=
  let h := col_h baseColor ?? 0 in
  match style with
  | Style.earthy | Style.botanical => Path.warm
  | Style.dreamy => Path.cool
  | Style.other name _ =>
      if String.eqb name "serene" then Path.cool else Path.short
  | Style.chromatic_arc => if h >! 180 then Path.warm else Path.cool
  | _ => Path.short
  end.

(** [getGradientDescription(style, mood)]. *)
Definition getGradientDescription (style : Style.t) : string :=
  match style with
  | Style.atmospheric =>
      "A moody gradient that fades from vivid to muted, like a sky at dusk"
  | Style.jewel =>
      "Rich, deep colors that maintain luxurious intensity throughout"
  | Style.earthy =>
      "Natural warm tones with organic pigment-like transitions"
  | Style.dreamy =>
      "Ethereal progression from color to light, like morning mist"
  | Style.pop =>
      "High-energy colors that maintain vibrancy across the spectrum"
  | Style.noir => "Dramatic dark tones with subtle hue undertones"
  | Style.botanical => "Organic greens and natural earth tones"
  | Style.chromatic_arc | Style.other _ _ =>
      "A signature gradient that travels through hue space while keeping depth and energy consistent — the kind of gradient you don't see elsewhere"
  end.

Section Sine.

(** [Math.sin] on finite arguments. *)
Variable sin : Q -> Q.

Definition Math_sin (x : num) : num :=
  match x with
  | Fin a => Fin (sin a)
  | _ => NaN
  end.

(** The options of [interpolateOKLCH]. *)
Record InterpolateOptions : Type := mkInterpolateOptions {
  int_huePath : Path.t;
  lightnessEase : Ease.t;
  chromaBoost : bool
}.

Definition defaultInterpolateOptions : InterpolateOptions :=
  mkInterpolateOptions Path.short Ease.linear false.

(** The body of the loop of [interpolateOKLCH] at index [i]. *)
Definition interpolateOKLCH_step (colorA colorB : Color) (steps : nat)
    (options : InterpolateOptions) (i : nat) : Color :=
  let t := of_nat i /! (of_nat steps +! 1) in
  let easedT := applyEasing t (lightnessEase options) in
  let l := lerp (col_l colorA ?? 0.5) (col_l colorB ?? 0.5) easedT in
  let h := interpolateHue (col_h colorA ?? 0) (col_h colorB ?? 0) t
             (int_huePath options) in
  let c :=
    if chromaBoost options && (t >! 0.2) && (t <! 0.8) then
      let boostFactor := 1 +! 0.2 *! Math_sin (t *! Math_PI) in
      lerp (col_c colorA ?? 0.1) (col_c colorB ?? 0.1) t *! boostFactor
    else lerp (col_c colorA ?? 0.1) (col_c colorB ?? 0.1) t in
  oklch (clamp l 0 1) (clamp c 0 0.4) h.

(** [interpolateOKLCH(colorA, colorB, steps, options)]: [i] runs from [0]
    to [steps + 1]. *)
Definition interpolateOKLCH (colorA colorB : Color) (steps : nat)
    (options : InterpolateOptions) : list Color :=
  map (interpolateOKLCH_step colorA colorB steps options)
      (seq 0 (steps + 2)).

(** The body of the loop of the chromatic-arc generator at index [i]. *)
Definition chromaticArc_step (l c h : num) (stopCount : nat) (i : nat)
    : Color :=
  let arcLength := if of_nat stopCount >=! 4 then Fin 120 else Fin 90 in
  let t := of_nat i /! (of_nat stopCount -! 1) in
  let hueOffset := arcLength *! t -! arcLength /! 2 in
  let targetHue := normalizeHue (h +! hueOffset) in
  let lightWave := Math_sin (t *! Math_PI) *! 0.04 in
  let targetL := clamp (l +! lightWave) 0.25 0.85 in
  let chromaWave := 1 +! Math_abs (t -! 0.5) *! 0.15 in
  let targetC := clamp (c *! chromaWave) 0.08 0.28 in
  oklch targetL targetC targetHue.

(** [generateKeyStops(baseColor, mood, style, stopCount)]; [mood] is not
    read by any generator. *)
Definition generateKeyStops (baseColor : Color) (style : Style.t)
    (stopCount : nat) : list Color :=
  let l := col_l baseColor ?? 0.5 in
  let c := col_c baseColor ?? 0.1 in
  let h := col_h baseColor ?? 0 in
  match style with
  | Style.atmospheric =>
      [baseColor;
       oklch (l *! 0.85) (c *! 0.4) (normalizeHue (h +! 20));
       oklch (Math_max 0.15 (l -! 0.25)) (c *! 0.6) (normalizeHue (h +! 160))]
  | Style.jewel =>
      [mkColor (col_mode baseColor) (Some (Math_min 0.45 l))
               (Some (Math_max 0.15 c)) (col_h baseColor);
       oklch (Math_min 0.4 (l -! 0.05)) (Math_min 0.28 (c *! 1.3))
             (normalizeHue (h +! 35));
       oklch (Math_min 0.42 l) (Math_max 0.14 (c *! 0.9))
             (normalizeHue (h +! 180))]
  | Style.earthy =>
      let warmBase :=
        normalizeHue (if (h >! 270) || (h <! 90) then h else h +! 30) in
      [oklch l (Math_min c 0.15) warmBase;
       oklch (l +! 0.05) (c *! 0.85) (normalizeHue (warmBase +! 15));
       oklch (l -! 0.1) (Math_max 0.02 (c *! 0.25))
             (normalizeHue (warmBase -! 10))]
  | Style.dreamy =>
      let dreamShift := if h <! 200 then Fin 60 else Fin (-40) in
      [oklch (Math_max 0.5 (l -! 0.1)) (c *! 0.7) h;
       oklch (Math_min 0.85 (l +! 0.15)) (c *! 0.5)
             (normalizeHue (h +! dreamShift));
       oklch 0.92 0.02 (normalizeHue (h +! dreamShift *! 1.2))]
  | Style.pop =>
      [mkColor (col_mode baseColor) (col_l baseColor)
               (Some (Math_max 0.18 c)) (col_h baseColor);
       oklch (l +! 0.05) (Math_max 0.16 (c *! 0.95))
             (normalizeHue (h +! 180));
       oklch (l -! 0.05) (Math_max 0.15 (c *! 0.9))
             (normalizeHue (h +! 220))]
  | Style.noir =>
      [oklch (Math_min 0.35 l) (Math_min 0.06 (c *! 0.4)) h;
       oklch 0.12 0.015 h;
       oklch 0.18 (Math_min 0.05 (c *! 0.3)) (normalizeHue (h +! 180))]
  | Style.botanical =>
      let greenBias := biasTowardRange h (Fin 80, Fin 160) 0.4 in
      [oklch l (Math_min c 0.18) greenBias;
       oklch (Math_min 0.7 (l +! 0.1)) (c *! 0.9)
             (normalizeHue (greenBias -! 30));
       oklch (Math_max 0.25 (l -! 0.2)) (c *! 0.5)
             (normalizeHue (greenBias +! 20))]
  | Style.chromatic_arc | Style.other _ _ =>
      map (chromaticArc_step l c h stopCount) (seq 0 stopCount)
  end.

(** The options of [generateVibeGradient]; [None] is ['auto']. *)
Record GradientOptions : Type := mkGradientOptions {
  go_style : option Style.t;
  go_stops : nat;
  go_huePath : option Path.t
}.

Definition defaultGradientOptions : GradientOptions :=
  mkGradientOptions None 3 None.

(** [===] on style names. *)
Definition style_eqb (s1 s2 : Style.t) : bool :=
  match s1, s2 with
  | Style.atmospheric, Style.atmospheric | Style.jewel, Style.jewel
  | Style.earthy, Style.earthy | Style.dreamy, Style.dreamy
  | Style.pop, Style.pop | Style.noir, Style.noir
  | Style.botanical, Style.botanical
  | Style.chromatic_arc, Style.chromatic_arc => true
  | Style.other n1 _, Style.other n2 _ => String.eqb n1 n2
  | _, _ => false
  end.

(** [generateVibeGradient(baseColor, options)]. *)
Definition generateVibeGradient (baseColor : Color)
    (options : GradientOptions) : GradientResult :=
  let m := VibeHarmony.analyzeColorMood baseColor in
  let resolvedStyle :=
    match go_style options with
    | None => mapMoodToGradientStyle m
    | Some style => style
    end in
  let resolvedHuePath :=
    match go_huePath options with
    | None => determineHuePath baseColor resolvedStyle
    | Some huePath => huePath
    end in
  let keyStops := generateKeyStops baseColor resolvedStyle (go_stops options) in
  let expandedStops :=
    optimizeForGradient keyStops
      (mkOptimizeOptions resolvedHuePath
         (negb (style_eqb resolvedStyle Style.atmospheric)
          && negb (style_eqb resolvedStyle Style.noir))
         true) in
  mkGradient expandedStops keyStops resolvedStyle (mood m) (energy m)
    (temperature m) resolvedHuePath (getGradientDescription resolvedStyle).

End Sine.

End GradientEngine.

(* ===================================================================== *)
(** * 7. The hue arithmetic and the optimizer in double precision *)
(* ===================================================================== *)

(** The numbers of the program are IEEE 754 binary64 values.  This module
    repeats the hue path resolver and the gradient stop optimizer over the
    kernel's binary64 numbers, operation for operation, so that the code can
    be run at the inputs where the rounding of an addition or a product
    decides the result. *)
Module Binary64.

Import Floats.
Local Open Scope float_scope.
#[local] Set Warnings "-inexact-float".

(** [x % y]: the remainder of the truncated division, with the sign of [x];
    it is exact. *)
Definition rem (x y : float) : float :=
  match Prim2SF x, Prim2SF y with
  | S754_nan, _ | _, S754_nan => nan
  | S754_infinity _, _ => nan
  | _, S754_zero _ => nan
  | S754_zero _, _ => x
  | S754_finite _ _ _, S754_infinity _ => x
  | S754_finite sx mx ex, S754_finite _ my ey =>
      let e := Z.min ex ey in
      let r :=
        ((Z.pos mx * 2 ^ (ex - e)) mod (Z.pos my * 2 ^ (ey - e)))%Z in
      let a := Z.ldexp (of_uint63 (Uint63.of_Z r)) e in
      if sx then - a else a
  end.

(** [Math.max] and [Math.min] of two numbers: NaN if one is NaN, and
    [-0] below [+0]. *)
Definition Math_max (a b : float) : float :=
  if is_nan a || is_nan b then nan
  else if a <? b then b
  else if b <? a then a
  else if a =? 0 then a + b
  else a.

Definition Math_min (a b : float) : float :=
  if is_nan a || is_nan b then nan
  else if a <? b then a
  else if b <? a then b
  else if a =? 0 then - (- a + - b)
  else a.

Definition normalizeHue (hue : float) : float :=
  rem (rem hue 360 + 360) 360.

Definition clamp (value min max : float) : float :=
  Math_max min (Math_min max value).

Definition lerp (a b t : float) : float := a + (b - a) * t.

Definition longWay (diff : float) : float :=
  let diff := if (0 <? diff) && (diff <? 180) then diff - 360 else diff in
  if (diff <? 0) && (-180 <? diff) then diff + 360 else diff.

Definition shortDiff (diff : float) : float :=
  if 180 <? diff then diff - 360
  else if diff <? -180 then diff + 360
  else diff.

Definition resolveDelta (h1 h2 : float) (path : Path.t) : float :=
  let diff := h2 - h1 in
  match path with
  | Path.short =>
      let diff := if 180 <? diff then diff - 360 else diff in
      if diff <? -180 then diff + 360 else diff
  | Path.long => longWay diff
  | Path.warm =>
      let midpoint := normalizeHue (h1 + shortDiff diff / 2) in
      if (170 <? midpoint) && (midpoint <? 280) then longWay diff else diff
  | Path.cool =>
      let midpoint := normalizeHue (h1 + shortDiff diff / 2) in
      let inWarm := (330 <? midpoint) || (midpoint <? 60) in
      if inWarm then longWay diff else diff
  end.

(** [interpolateHue(h1, h2, t, path)]. *)
Definition interpolateHue (h1 h2 t : float) (path : Path.t) : float :=
  let h1 := rem (rem h1 360 + 360) 360 in
  let h2 := rem (rem h2 360 + 360) 360 in
  let diff := resolveDelta h1 h2 path in
  normalizeHue (h1 + diff * t).

(** [getHueDistance(h1, h2, path)]. *)
Definition getHueDistance (h1 h2 : float) (path : Path.t) : float :=
  let h1 := normalizeHue h1 in
  let h2 := normalizeHue h2 in
  let diff := abs (h2 - h1) in
  let diff := if 180 <? diff then 360 - diff else diff in
  match path with
  | Path.long => 360 - diff
  | _ => diff
  end.

(** A colour object whose present fields are doubles. *)
Record Color : Type := mkColor {
  col_mode : option string;
  col_l : option float;
  col_c : option float;
  col_h : option float
}.

Definition oklch (l c h : float) : Color :=
  mkColor (Some "oklch"%string) (Some l) (Some c) (Some h).

Definition nullish (o : option float) (d : float) : float :=
  match o with Some x => x | None => d end.

(** [undefined] in arithmetic. *)
Definition to_num (o : option float) : float := nullish o nan.

Record Intermediate : Type := mkIntermediate {
  position : float;
  stop_color : Color
}.

(** [Array.prototype.sort(compare)], as [VibeHarmony.Array_sort]. *)
Fixpoint Array_insert {A : Type} (compare : A -> A -> float) (x : A)
    (xs : list A) : list A :=
  match xs with
  | [] => [x]
  | y :: ys =>
      if 0 <? compare x y then y :: Array_insert compare x ys
      else x :: y :: ys
  end.

Definition Array_sort {A : Type} (compare : A -> A -> float) (xs : list A)
    : list A :=
  fold_right (Array_insert compare) [] xs.

Definition intermediateStops (options : GradientEngine.OptimizeOptions)
    (a b : Color) : list Color :=
  let huePath := GradientEngine.opt_huePath options in
  let hueDist :=
    getHueDistance (nullish (col_h a) 0) (nullish (col_h b) 0) huePath in
  let chromaA := nullish (col_c a) 0 in
  let chromaB := nullish (col_c b) 0 in
  let boost := if GradientEngine.boostChroma options then 1.1 else 1 in
  let midpoint :=
    if GradientEngine.boostChroma options && (0.03 <? chromaA)
       && (0.03 <? chromaB) then
      let midL := (to_num (col_l a) + to_num (col_l b)) / 2 in
      let midC := Math_max chromaA chromaB * 1.15 in
      let midH :=
        interpolateHue (nullish (col_h a) 0) (nullish (col_h b) 0) 0.5
          huePath in
      [mkIntermediate 0.5 (oklch midL (clamp midC 0 0.35) midH)]
    else [] in
  let quarters :=
    if 90 <? hueDist then
      let quarterH :=
        interpolateHue (nullish (col_h a) 0) (nullish (col_h b) 0) 0.25
          huePath in
      let threeQuarterH :=
        interpolateHue (nullish (col_h a) 0) (nullish (col_h b) 0) 0.75
          huePath in
      [mkIntermediate 0.25
         (oklch (lerp (to_num (col_l a)) (to_num (col_l b)) 0.25)
                (lerp chromaA chromaB 0.25 * boost)
                quarterH);
       mkIntermediate 0.75
         (oklch (lerp (to_num (col_l a)) (to_num (col_l b)) 0.75)
                (lerp chromaA chromaB 0.75 * boost)
                threeQuarterH)]
    else [] in
  map stop_color
    (Array_sort (fun x y => position x - position y) (midpoint ++ quarters)).

Fixpoint expandPairs (options : GradientEngine.OptimizeOptions)
    (colors : list Color) : list Color :=
  match colors with
  | a :: (b :: _) as rest =>
      a :: (if GradientEngine.insertMidpoints options
            then intermediateStops options a b else [])
        ++ expandPairs options rest
  | _ => []
  end.

(** [optimizeForGradient(colors, options)]. *)
Definition optimizeForGradient (colors : list Color)
    (options : GradientEngine.OptimizeOptions) : list Color :=
  match colors with
  | [] | [_] => colors
  | first :: _ => expandPairs options colors ++ [last colors first]
  end.

(** The rational number a finite double stands for (0 for the others). *)
Definition toQ (x : float) : Q :=
  match Prim2SF x with
  | S754_finite s m e =>
      let n := if s then Z.neg m else Z.pos m in
      if (0 <=? e)%Z then inject_Z (n * 2 ^ e)
      else Qmake n (Z.to_pos (2 ^ (- e)))
  | _ => 0%Q
  end.

End Binary64.

(* ===================================================================== *)
(** * 8. Vocabulary of the specification *)
(* ===================================================================== *)

(** The colour of the specification's worked example,
    [{ l: 0.9, c: 0.25, h: 280 }]. *)
Definition example_color : Color :=
  mkColor None (Some (Fin 0.9)) (Some (Fin 0.25)) (Some (Fin 280)).

(** The input of mood analysis with its absent coordinates replaced by
    [l = 0.5], [c = 0.1], [h = 0]. *)
Definition withDefaults (color : Color) : Color :=
  mkColor (col_mode color)
          (Some (col_l color ?? 0.5))
          (Some (col_c color ?? 0.1))
          (Some (col_h color ?? 0)).

(** The chroma-boosted stop the optimizer places at position 0.5 between
    [a] and [b]. *)
Definition boostedMidpoint (a b : Color) (path : Path.t) : Color :=
  oklch ((to_num (col_l a) +! to_num (col_l b)) /! 2)
        (clamp (Math_max (col_c a ?? 0) (col_c b ?? 0) *! 1.15) 0 0.35)
        (GradientEngine.interpolateHue (col_h a ?? 0) (col_h b ?? 0) 0.5 path).

(** The bridging stop the optimizer places at position [t] (0.25 or 0.75)
    between [a] and [b] when chroma boosting is on. *)
Definition bridgingStop (a b : Color) (path : Path.t) (t : num) : Color :=
  oklch (lerp (to_num (col_l a)) (to_num (col_l b)) t)
        (lerp (col_c a ?? 0) (col_c b ?? 0) t *! 1.1)
        (GradientEngine.interpolateHue (col_h a ?? 0) (col_h b ?? 0) t path).

(** What the specification says of a chromatic-arc key stop [s] generated
    from base lightness [l]: its hue is [hue]; its lightness is the clamp to
    [[0.25, 0.85]] of a value within 0.04 of [l], hence in [[0.25, 0.85]];
    its chroma is in [[0.08, 0.28]]. *)
Definition arcStopOk (l : Q) (hue : Q) (s : Color) : Prop :=
  (exists hq : Q, col_h s = Some (Fin hq) /\ (hq == hue)%Q)
  /\ (exists pre : Q,
        (l - 0.04 <= pre <= l + 0.04)%Q
        /\ col_l s = Some (clamp (Fin pre) 0.25 0.85))
  /\ between 0.25 0.85 (to_num (col_l s))
  /\ between 0.08 0.28 (to_num (col_c s)).

(** The three coordinates of a colour are present and finite. *)
Definition finiteColor (s : Color) : Prop :=
  finite (to_num (col_l s)) /\ finite (to_num (col_c s))
  /\ finite (to_num (col_h s)).

(** A computable stand-in for [Math.sin], bounded by 1 in absolute value:
    the cubic Taylor polynomial, cut off at -1 and 1.  It is used to run the
    generators on concrete inputs. *)
Definition sinModel (x : Q) : Q :=
  let y := (x - x * x * x * (1 # 6))%Q in
  if Qlt_le_dec y (-1) then (-1)%Q
  else if Qlt_le_dec 1 y then 1%Q
  else y.

(** The interpolation parameter [i / (stopCount - 1)] and the arc length of
    the chromatic-arc loop, on rationals. *)
Definition arcT (stopCount i : nat) : Q :=
  (inject_Z (Z.of_nat i) / (inject_Z (Z.of_nat stopCount) + - (1)))%Q.

Definition arcLength (stopCount : nat) : Q :=
  if Qlt_le_dec (inject_Z (Z.of_nat stopCount)) 4 then 90%Q else 120%Q.

(** The sort key of the palette: [color.l ?? 0]. *)
Definition lightness (e : VibeHarmony.Companion) : num :=
  col_l (VibeHarmony.color e) ?? 0.

(** [a] may stand before [b] in a palette ordered from light to dark. *)
Definition notDarker (a b : VibeHarmony.Companion) : Prop :=
  lightness b <=! lightness a = true.

(** A colour whose three coordinates are present, with [l] in [[0, 1]],
    [c] in [[0, cmax]] and [h] in [[0, 360)]. *)
Definition inGamutUpTo (cmax : Q) (s : Color) : Prop :=
  between 0 1 (to_num (col_l s))
  /\ between 0 cmax (to_num (col_c s))
  /\ below 0 360 (to_num (col_h s)).

(** A colour in the canonical bounds of the data model: [l] in [[0, 1]],
    [c] in [[0, 0.4]], [h] in [[0, 360)].  It is both what "well-formed"
    means for an input and what the invariant asks of an output. *)
Definition inGamut (s : Color) : Prop := inGamutUpTo 0.4 s.

(** The chroma and the hue of a colour are in the canonical bounds. *)
Definition chromaHueInGamut (s : Color) : Prop :=
  between 0 0.4 (to_num (col_c s)) /\ below 0 360 (to_num (col_h s)).

(** The styles whose generator bounds the lightness of every key stop; the
    chromatic arc needs a stop count other than 1. *)
Definition clampedStyle (s : Style.t) (stopCount : nat) : Prop :=
  match s with
  | Style.atmospheric | Style.dreamy | Style.noir | Style.botanical => True
  | Style.chromatic_arc | Style.other _ _ => stopCount <> 1%nat
  | Style.jewel | Style.earthy | Style.pop => False
  end.

(** The chromatic-arc generator is asked for a stop count other than 1
    (the other generators do not read the stop count). *)
Definition arcDefined (s : Style.t) (stopCount : nat) : Prop :=
  match s with
  | Style.chromatic_arc | Style.other _ _ => stopCount <> 1%nat
  | _ => True
  end.

(** A bound on the chroma of the key stops of a clamped style, for a
    well-formed base colour. *)
Definition styleChroma (s : Style.t) : Q :=
  match s with
  | Style.dreamy | Style.chromatic_arc | Style.other _ _ => 0.28%Q
  | Style.botanical => 0.36%Q
  | _ => 0.4%Q
  end.

(** The circular distance between two hues, as the clash test of
    [avoidClumping] computes it: the smaller of the two arcs. *)
Definition circularHueDistance (h1 h2 : num) : num :=
  let diff := Math_abs (normalizeHue (h1 -! h2)) in
  Math_min diff (360 -! diff).

(** The role the specification assigns to a hue distance. *)
Definition roleOfDistance (d : num) : VibeHarmony.Role.t :=
  if d <! 30 then VibeHarmony.Role.neighbor
  else if d <! 60 then VibeHarmony.Role.analogous
  else if d <! 120 then VibeHarmony.Role.contrast
  else if d <! 160 then VibeHarmony.Role.triadic
  else VibeHarmony.Role.complement.

(** The hue of a palette entry. *)
Definition hueOf (e : VibeHarmony.Companion) : num :=
  to_num (col_h (VibeHarmony.color e)).

(** A grounding neutral: its role is read off its lightness. *)
Definition groundRoleOk (e : VibeHarmony.Companion) : Prop :=
  (VibeHarmony.role e = VibeHarmony.Role.light_ground
   /\ lightness e >! 0.6 = true)
  \/ (VibeHarmony.role e = VibeHarmony.Role.dark_ground
      /\ lightness e >! 0.6 = false).

(** A chromatic companion: whenever its hue is at most 180 degrees ahead of
    the input hue, its role is the one of the circular hue distance. *)
Definition chromaticRoleOk (input : Color) (e : VibeHarmony.Companion)
    : Prop :=
  Math_abs (normalizeHue (hueOf e -! (col_h input ?? 0))) <=! 180 = true ->
  VibeHarmony.role e
  = roleOfDistance (circularHueDistance (hueOf e) (col_h input ?? 0)).

(** The five roles that [describeCompanionRole] hands out. *)
Definition isDistanceRole (r : VibeHarmony.Role.t) : bool :=
  match r with
  | VibeHarmony.Role.neighbor | VibeHarmony.Role.analogous
  | VibeHarmony.Role.contrast | VibeHarmony.Role.triadic
  | VibeHarmony.Role.complement => true
  | _ => false
  end.

(** The palette entry of the input colour. *)
Definition sourceEntry (input : Color) : VibeHarmony.Companion :=
  VibeHarmony.mkCompanion
    (mkColor (Some "oklch"%string) (col_l input) (col_c input) (col_h input))
    VibeHarmony.Role.source.

(** The input of the role example: a near-black, nearly neutral green,
    [{ l: 0.2, c: 0.03, h: 100 }], whose mood is 'noir'. *)
Definition noir_color : Color :=
  mkColor None (Some (Fin 0.2)) (Some (Fin 0.03)) (Some (Fin 100)).

(** Two colours have the same three coordinates (as numbers, whatever
    the representation of a rational). *)
Definition sameCoords (s1 s2 : Color) : Prop :=
  same (to_num (col_l s1)) (to_num (col_l s2))
  /\ same (to_num (col_c s1)) (to_num (col_c s2))
  /\ same (to_num (col_h s1)) (to_num (col_h s2)).

(** The mood of a colour as a flat table over its three coordinates: the
    chroma picks the band (below 0.08, below 0.13, above), and inside a band
    the lightness and, in the two upper bands, the raw hue decide. *)
Definition moodTable (l c h : Q) : Mood.t :=
  let fresh := if Qlt_le_dec h 70 then false
               else if Qlt_le_dec h 170 then true else false in
  if Qlt_le_dec c 0.08 then
    if Qlt_le_dec l 0.25 then Mood.noir
    else if Qlt_le_dec l 0.55 then Mood.moody
    else if Qlt_le_dec l 0.85 then Mood.dreamy
    else Mood.ethereal
  else if Qlt_le_dec c 0.13 then
    if Qlt_le_dec h 0 then
      (if Qlt_le_dec l 0.85 then Mood.balanced else Mood.ethereal)
    else if Qlt_le_dec h 70 then Mood.earthy
    else if Qlt_le_dec h 170 then
      (if Qlt_le_dec l 0.85 then Mood.botanical else Mood.ethereal)
    else if Qlt_le_dec h 280 then Mood.serene
    else if Qlt_le_dec h 330 then
      (if Qlt_le_dec l 0.85 then Mood.balanced else Mood.ethereal)
    else Mood.earthy
  else
    if Qlt_le_dec l 0.40 then Mood.jewel
    else if Qlt_le_dec l 0.55 then
      (if fresh then Mood.botanical else Mood.balanced)
    else Mood.pop.

(** The clash test of [avoidClumping]: some used hue is closer to [hue],
    around the circle, than [minSeparation]. *)
Definition clashes (hue : num) (usedHues : list num) (minSeparation : num)
    : bool :=
  existsb (fun used => circularHueDistance hue used <! minSeparation)
          usedHues.

(** The opening words of [describeRelationship] that go with a role. *)
Definition rolePhrase (r : VibeHarmony.Role.t) : string :=
  match r with
  | VibeHarmony.Role.neighbor => "A close neighbor — "
  | VibeHarmony.Role.analogous => "An analogous friend — "
  | VibeHarmony.Role.contrast => "A warm contrast — "
  | VibeHarmony.Role.triadic => "A triadic partner — "
  | VibeHarmony.Role.complement => "A soft opposite — "
  | _ => ""
  end%string.

(** A margin around the thresholds on hue distances.  The hue arithmetic of
    the program rounds each of its additions; on a hue distance the
    roundings add up to less than 10^-12, so that a distance this far from
    a threshold falls on the same side of it in the program as in exact
    arithmetic. *)
Definition hueTolerance : Q := 1 # 1000000000.

(** The distance [d] between the hues [h1] and [h2] on the wheel, in the
    words of the specification: the absolute difference of the two hues up
    to whole turns, taken the short way round. *)
Definition hueArc (h1 h2 d : Q) : Prop :=
  0 <= d <= 180 /\ exists k : Z, Qabs (h1 - h2 + 360 * inject_Z k) == d.

(** The three-stop and the five-stop answer of the optimizer for the two
    colours [a] and [b]: the stops of positions 0, 0.5, 1 and of positions
    0, 0.25, 0.5, 0.75, 1. *)
Definition threeStops (a b : Color) (path : Path.t) : list Color :=
  [a; boostedMidpoint a b path; b].

Definition fiveStops (a b : Color) (path : Path.t) : list Color :=
  [a; bridgingStop a b path 0.25; boostedMidpoint a b path;
   bridgingStop a b path 0.75; b].

(** A palette entry comes out of one of the two companion generators, run
    for the input colour at some index and some point of the random
    sequence. *)
Definition generatedFor (random : nat -> Q) (input : Color)
    (e : VibeHarmony.Companion) : Prop :=
  (exists (i : nat) (total : num) (usedHues : list num) (st : nat),
      e = fst (VibeHarmony.generateSingleCompanion random input
                 (VibeHarmony.analyzeColorMood input) i total usedHues st))
  \/ (exists i st : nat,
         e = fst (VibeHarmony.generateGroundingNeutral random input
                    (VibeHarmony.analyzeColorMood input) i st)).

(** The colour [{ l: NaN, c: 0.25, h: 280 }]. *)
Definition unlit_color : Color :=
  mkColor None (Some NaN) (Some (Fin 0.25)) (Some (Fin 280)).

(** A hue given in whole degrees, at most 2^53 in absolute value: a whole
    number that a double holds exactly.  On such numbers the hue arithmetic
    of the program is exact. *)
Definition wholeDegrees (h : Q) : Prop :=
  exists z : Z, (Z.abs z <= 2 ^ 53)%Z /\ h == inject_Z z.

(** The largest factor [t] at which the product of a hue delta and [t]
    stays well inside the range of double-precision numbers. *)
Definition largestFactor : Q := inject_Z (10 ^ 300).

(** The companions [generateVibeCompanions] has collected when it sorts
    them: those of the first loop, then those of the second. *)
Definition companionsBeforeSort (random : nat -> Q) (input : Color)
    (options : VibeHarmony.CompanionOptions) (st : nat)
    : list VibeHarmony.Companion :=
  let descriptor := VibeHarmony.analyzeColorMood input in
  let targetCount :=
    if VibeHarmony.includeInput options
    then of_nat (VibeHarmony.count options) -! 1
    else of_nat (VibeHarmony.count options) in
  let neutralSlots :=
    Math_round (targetCount *! neutralChance (strategy descriptor)) in
  let chromaSlots := targetCount -! neutralSlots in
  let chromatic :=
    VibeHarmony.chromaticLoop random input descriptor chromaSlots
      (loop_count chromaSlots) 0 [] [col_h input ?? 0] st in
  fst (VibeHarmony.neutralLoop random input descriptor
         (loop_count neutralSlots) 0 (fst chromatic) (snd chromatic)).

(** [normalizeHue] on a rational. *)
Definition normQ (q : Q) : Q := Qfmod (Qfmod q 360 + 360) 360.

(* ===================================================================== *)
(** * Properties *)
(* ===================================================================== *)

Local Open Scope Q_scope.

(** ** The worked examples of the specification *)

Example normalizeHue_negative : same (normalizeHue (-15)) 345.
Proof. vm_compute. reflexivity. Qed.

Example normalizeHue_full_turn : same (normalizeHue 725) 5.
Proof. vm_compute. reflexivity. Qed.

Example analyze_muted_deep_moody :
  let m :=
    VibeHarmony.analyzeColorMood
      (mkColor None (Some (Fin 0.3)) (Some (Fin 0.05)) (Some (Fin 20))) in
  energy m = Energy.muted /\ depth m = Depth.deep /\ mood m = Mood.moody.
Proof. repeat split; vm_compute; reflexivity. Qed.

Example optimize_empty (options : GradientEngine.OptimizeOptions) :
  GradientEngine.optimizeForGradient [] options = [].
Proof. reflexivity. Qed.

Example optimize_single (c : Color)
    (options : GradientEngine.OptimizeOptions) :
  GradientEngine.optimizeForGradient [c] options = [c].
Proof. reflexivity. Qed.

Example long_path_goes_the_other_way :
  same (GradientEngine.interpolateHue 10 50 0.5 Path.long) 210.
Proof. vm_compute. reflexivity. Qed.

Example warm_path_avoids_the_cool_band :
  same (GradientEngine.interpolateHue 150 300 0.5 Path.warm) 45.
Proof. vm_compute. reflexivity. Qed.

(** ** Arithmetic of [%] and of hue normalization *)

Lemma Qtrunc_bounds (x : Q) :
  (0 <= x -> inject_Z (Qtrunc x) <= x < inject_Z (Qtrunc x) + 1) /\
  (x < 0 -> inject_Z (Qtrunc x) - 1 < x <= inject_Z (Qtrunc x)).
Proof.
  unfold Qtrunc. destruct (Qlt_le_dec x 0) as [Hneg | Hpos]; split; intro H.
  - lra.
  - pose proof (Qle_ceiling x) as H1. pose proof (Qceiling_lt x) as H2.
    unfold Z.sub in H2. rewrite inject_Z_plus, inject_Z_opp in H2.
    change (inject_Z 1) with 1 in H2. lra.
  - pose proof (Qfloor_le x) as H1. pose proof (Qlt_floor x) as H2.
    rewrite inject_Z_plus in H2. change (inject_Z 1) with 1 in H2. lra.
  - lra.
Qed.

Lemma Qfmod_360 (a : Q) :
  Qfmod a 360 == a - 360 * inject_Z (Qtrunc (a / 360))
  /\ (0 <= a -> 0 <= Qfmod a 360 < 360)
  /\ (a < 0 -> -360 < Qfmod a 360 <= 0).
Proof.
  unfold Qfmod. set (x := a / 360).
  assert (Ha : a == 360 * x) by (unfold x; field).
  destruct (Qtrunc_bounds x) as [Hp Hn].
  split; [reflexivity | split; intro H].
  - assert (Hx : 0 <= x) by lra. specialize (Hp Hx). lra.
  - assert (Hx : x < 0) by lra. specialize (Hn Hx). lra.
Qed.

Lemma Qfmod_360_range (a : Q) : -360 < Qfmod a 360 < 360.
Proof.
  destruct (Qfmod_360 a) as (_ & Hp & Hn).
  destruct (Qlt_le_dec a 0) as [H | H]; [specialize (Hn H) | specialize (Hp H)];
    lra.
Qed.

Lemma normQ_range (q : Q) : 0 <= normQ q < 360.
Proof.
  unfold normQ. pose proof (Qfmod_360_range q) as Hr.
  destruct (Qfmod_360 (Qfmod q 360 + 360)) as (_ & Hp & _).
  apply Hp. lra.
Qed.

Lemma normQ_shift (q : Q) : exists k : Z, normQ q == q + 360 * inject_Z k.
Proof.
  unfold normQ.
  destruct (Qfmod_360 (Qfmod q 360 + 360)) as (E1 & _).
  destruct (Qfmod_360 q) as (E2 & _).
  exists (1 - Qtrunc (q / 360) - Qtrunc ((Qfmod q 360 + 360) / 360))%Z.
  unfold Z.sub. rewrite !inject_Z_plus, !inject_Z_opp.
  change (inject_Z 1) with 1. lra.
Qed.

Lemma hue_unique (x y : Q) (k : Z) :
  0 <= x < 360 -> 0 <= y < 360 -> x == y + 360 * inject_Z k -> x == y.
Proof.
  intros Hx Hy E.
  assert (Hk : (-1 < k < 1)%Z).
  { split; rewrite Zlt_Qlt; change (inject_Z (-1)) with (-1);
      change (inject_Z 1) with 1; lra. }
  assert (k = 0%Z) by lia. subst k. change (inject_Z 0) with 0 in E. lra.
Qed.

Lemma normQ_eq_of_shift (q y : Q) (k : Z) :
  0 <= y < 360 -> q == y + 360 * inject_Z k -> normQ q == y.
Proof.
  intros Hy E. destruct (normQ_shift q) as [j Ej].
  apply hue_unique with (k := (j + k)%Z); [apply normQ_range | exact Hy |].
  rewrite Ej, E, inject_Z_plus. ring.
Qed.

Lemma normQ_id (q : Q) : 0 <= q < 360 -> normQ q == q.
Proof.
  intro H. apply normQ_eq_of_shift with (k := 0%Z); [exact H |].
  change (inject_Z 0) with 0. ring.
Qed.

Lemma normalizeHue_Fin (q : Q) : normalizeHue (Fin q) = Fin (normQ q).
Proof.
  unfold normalizeHue, rem, add, normQ.
  destruct (Qeq_dec 360 0) as [E | _]; [discriminate E | reflexivity].
Qed.

(** ** Case analysis on the comparisons of the source *)

Ltac dec_cases :=
  repeat match goal with
  | |- context [Qlt_le_dec ?a ?b] => destruct (Qlt_le_dec a b)
  | |- context [Qeq_dec ?a ?b] => destruct (Qeq_dec a b)
  end.

Ltac num_red :=
  cbn [add sub mul neg lt gt le ge Math_max Math_min Math_abs nullish to_num
       andb orb negb fst snd].

Lemma div_Fin (a b : Q) : ~ b == 0 -> Fin a /! Fin b = Fin (a / b).
Proof.
  intro Hb. unfold div. destruct (Qeq_dec b 0); [contradiction | reflexivity].
Qed.

Lemma div_Fin_2 (a : Q) : Fin a /! Fin 2 = Fin (a / 2).
Proof. apply div_Fin. discriminate. Qed.

(** The delta is the plain difference of the normalized hues, moved by a
    whole number of turns. *)
Lemma resolveDelta_shift (a b : Q) (path : Path.t) :
  exists (d : Q) (k : Z),
    GradientEngine.resolveDelta (Fin a) (Fin b) path = Fin d
    /\ d == b - a + 360 * inject_Z k.
Proof.
  unfold GradientEngine.resolveDelta, GradientEngine.longWay,
    GradientEngine.shortDiff.
  destruct path; num_red; dec_cases; num_red;
    repeat (rewrite ?div_Fin_2, ?normalizeHue_Fin; num_red; dec_cases; num_red);
    eexists;
    first [ exists 0%Z; split; [reflexivity | unfold inject_Z; lra]
          | exists 1%Z; split; [reflexivity | unfold inject_Z; lra]
          | exists (-1)%Z; split; [reflexivity | unfold inject_Z; lra] ].
Qed.

Lemma interpolateHue_Fin (h1 h2 t : Q) (path : Path.t) :
  exists (d : Q) (k : Z),
    GradientEngine.resolveDelta (normalizeHue h1) (normalizeHue h2) path = Fin d
    /\ d == normQ h2 - normQ h1 + 360 * inject_Z k
    /\ GradientEngine.interpolateHue h1 h2 t path
       = Fin (normQ (normQ h1 + d * t)).
Proof.
  destruct (resolveDelta_shift (normQ h1) (normQ h2) path) as (d & k & E & Hd).
  exists d, k. rewrite !normalizeHue_Fin. split; [exact E | split; [exact Hd |]].
  unfold GradientEngine.interpolateHue.
  change ((Fin h1 %! 360 +! 360) %! 360) with (normalizeHue h1).
  change ((Fin h2 %! 360 +! 360) %! 360) with (normalizeHue h2).
  rewrite !normalizeHue_Fin, E. num_red. apply normalizeHue_Fin.
Qed.

(** Every hue the path resolver returns is a finite number of [[0, 360)]. *)
Lemma interpolateHue_range (h1 h2 t : Q) (path : Path.t) :
  below 0 360 (GradientEngine.interpolateHue h1 h2 t path).
Proof.
  destruct (interpolateHue_Fin h1 h2 t path) as (d & k & _ & _ & E).
  rewrite E. apply normQ_range.
Qed.

(* ===================================================================== *)
(** * Mood classifier *)
(* ===================================================================== *)

(** C2, as stated, fails: the colour [{ l: 0.9, c: 0.25, h: 280 }] is not
    analysed as energy 'vibrant' (with depth 'ethereal' and mood 'pop'),
    because its chroma 0.25 is not below the 0.20 threshold. *)
Lemma C2_example_energy_is_not_vibrant :
  ~ (energy (VibeHarmony.analyzeColorMood example_color) = Energy.vibrant
     /\ depth (VibeHarmony.analyzeColorMood example_color) = Depth.ethereal
     /\ mood (VibeHarmony.analyzeColorMood example_color) = Mood.pop).
Proof. intros [H _]. vm_compute in H. discriminate H. Qed.

(** C2 (amended): analysing [{ l: 0.9, c: 0.25, h: 280 }] yields energy
    'electric', depth 'ethereal' and mood 'pop'. *)
Theorem C2_example_is_electric_ethereal_pop :
  energy (VibeHarmony.analyzeColorMood example_color) = Energy.electric
  /\ depth (VibeHarmony.analyzeColorMood example_color) = Depth.ethereal
  /\ mood (VibeHarmony.analyzeColorMood example_color) = Mood.pop.
Proof. repeat split; vm_compute; reflexivity. Qed.

(** C9: for every input colour, whichever of its coordinates are absent,
    mood analysis returns a descriptor (it is a total function), its [raw]
    field holds the coordinates with [l = 0.5], [c = 0.1], [h = 0] in place
    of the absent ones, and the whole descriptor is the one obtained from
    the colour with those defaults filled in. *)
Theorem C9_analysis_substitutes_defaults (color : Color) :
  VibeHarmony.analyzeColorMood color
  = VibeHarmony.analyzeColorMood (withDefaults color)
  /\ raw (VibeHarmony.analyzeColorMood color)
     = mkRaw (col_l color ?? 0.5) (col_c color ?? 0.1) (col_h color ?? 0).
Proof. destruct color as [md [l|] [c|] [h|]]; split; reflexivity. Qed.

(* ===================================================================== *)
(** * Hue path resolver *)
(* ===================================================================== *)

(** C4, as stated, fails: from hue 180 to hue 0 the short-path delta is
    -180, which is outside the half-open interval (-180, 180]. *)
Lemma C4_short_delta_can_be_minus_180 :
  exists d : Q,
    GradientEngine.resolveDelta (normalizeHue 180) (normalizeHue 0) Path.short
    = Fin d
    /\ d == -180 /\ ~ (-180 < d <= 180).
Proof.
  eexists. split; [vm_compute; reflexivity |].
  split; [reflexivity | intros [H _]; vm_compute in H; discriminate H].
Qed.

(** C4 (amended): for all hues [h1] and [h2] the signed delta of the
    'short' path lies in the closed interval [[-180, 180]]; a separation of
    exactly 180 degrees, in either direction, is left as it is by the strict
    comparisons; and the interpolated hue at [t] is the normalization of
    [h1' + delta * t], [h1'] being the normalized [h1]. *)
Theorem C4_short_delta_in_closed_interval (h1 h2 : Q) :
  exists d : Q,
    GradientEngine.resolveDelta (normalizeHue h1) (normalizeHue h2) Path.short
    = Fin d
    /\ -180 <= d <= 180
    /\ (normQ h2 - normQ h1 == 180 \/ normQ h2 - normQ h1 == -180 ->
        d == normQ h2 - normQ h1)
    /\ forall t : Q,
         GradientEngine.interpolateHue h1 h2 t Path.short
         = normalizeHue (Fin (normQ h1) +! Fin d *! Fin t).
Proof.
  pose proof (normQ_range h1) as R1. pose proof (normQ_range h2) as R2.
  assert (E : exists d : Q,
             GradientEngine.resolveDelta (Fin (normQ h1)) (Fin (normQ h2))
               Path.short = Fin d
             /\ -180 <= d <= 180
             /\ (normQ h2 - normQ h1 == 180 \/ normQ h2 - normQ h1 == -180 ->
                 d == normQ h2 - normQ h1)).
  { unfold GradientEngine.resolveDelta. num_red. dec_cases; num_red;
      dec_cases; eexists; (split; [reflexivity |]); split; try lra;
      intros [H | H]; lra. }
  destruct E as (d & E & Hd & H180). exists d.
  rewrite !normalizeHue_Fin. repeat split; try tauto; try lra.
  intro t. unfold GradientEngine.interpolateHue.
  change ((Fin h1 %! 360 +! 360) %! 360) with (normalizeHue h1).
  change ((Fin h2 %! 360 +! 360) %! 360) with (normalizeHue h2).
  rewrite !normalizeHue_Fin, E. reflexivity.
Qed.

(** C8 (amended): for all non-negative hues [h1] and [h2] and each of the
    four path policies, [interpolateHue(h1, h2, 0, path)] is
    [normalizeHue(h1)] and [interpolateHue(h1, h2, 1, path)] is
    [normalizeHue(h2)].  (In exact arithmetic the sign of the hues plays no
    part; in the program [interpolateHue] normalizes each hue once more than
    [normalizeHue] does, and only from a non-negative hue does the first
    normalization give a number the second one leaves alone.) *)
Theorem C8_interpolateHue_endpoints (h1 h2 : Q) (path : Path.t) :
  0 <= h1 -> 0 <= h2 ->
  same (GradientEngine.interpolateHue h1 h2 0 path) (normalizeHue h1)
  /\ same (GradientEngine.interpolateHue h1 h2 1 path) (normalizeHue h2).
Proof.
  intros _ _.
  pose proof (normQ_range h1) as R1. pose proof (normQ_range h2) as R2.
  split.
  - destruct (interpolateHue_Fin h1 h2 0 path) as (d & k & _ & Hd & E).
    rewrite E, normalizeHue_Fin. cbn [same].
    apply normQ_eq_of_shift with (k := 0%Z); [exact R1 | unfold inject_Z; lra].
  - destruct (interpolateHue_Fin h1 h2 1 path) as (d & k & _ & Hd & E).
    rewrite E, normalizeHue_Fin. cbn [same].
    apply normQ_eq_of_shift with (k := k); [exact R2 | lra].
Qed.

(** C8 (amended) for the hues 350 and 725 on the warm path. *)
Lemma C8_witness :
  same (GradientEngine.interpolateHue 350 725 0 Path.warm) (normalizeHue 350)
  /\ same (GradientEngine.interpolateHue 350 725 1 Path.warm)
          (normalizeHue 725).
Proof.
  apply (C8_interpolateHue_endpoints 350 725 Path.warm); discriminate.
Defined.

(* ===================================================================== *)
(** * Gradient stop optimizer *)
(* ===================================================================== *)

(** Two numbers of [[0, 180]] that are both an arc between the same two
    hues, up to whole turns and direction, are equal. *)
Lemma arc_unique (x s d : Q) (a b : Z) :
  0 <= s <= 180 -> 0 <= d <= 180 ->
  s == x + 360 * inject_Z a \/ s == - x + 360 * inject_Z a ->
  d == x + 360 * inject_Z b \/ d == - x + 360 * inject_Z b ->
  s == d.
Proof.
  intros Hs Hd Es Ed.
  assert (Same : forall n : Z, s - d == 360 * inject_Z n -> s == d).
  { intros n E.
    assert (Hn : (-1 < n < 1)%Z).
    { split; rewrite Zlt_Qlt; change (inject_Z (-1)) with (-1);
        change (inject_Z 1) with 1; lra. }
    assert (n = 0%Z) by lia. subst n. change (inject_Z 0) with 0 in E. lra. }
  assert (Opp : forall n : Z, s + d == 360 * inject_Z n -> s == d).
  { intros n E.
    assert (Hn : (-1 < n < 2)%Z).
    { split; rewrite Zlt_Qlt; change (inject_Z (-1)) with (-1);
        change (inject_Z 2) with 2; lra. }
    assert (Hc : n = 0%Z \/ n = 1%Z) by lia.
    destruct Hc as [-> | ->];
      [change (inject_Z 0) with 0 in E | change (inject_Z 1) with 1 in E];
      lra. }
  destruct Es as [Es | Es], Ed as [Ed | Ed].
  - apply (Same (a - b)%Z). unfold Z.sub.
    rewrite inject_Z_plus, inject_Z_opp. lra.
  - apply (Opp (a + b)%Z). rewrite inject_Z_plus. lra.
  - apply (Opp (a + b)%Z). rewrite inject_Z_plus. lra.
  - apply (Same (a - b)%Z). unfold Z.sub.
    rewrite inject_Z_plus, inject_Z_opp. lra.
Qed.

Ltac push_inject :=
  unfold Z.sub;
  repeat (rewrite inject_Z_plus || rewrite inject_Z_opp);
  change (inject_Z 1) with 1.

Lemma Qabs_cases (y : Q) : Qabs y == y \/ Qabs y == - y.
Proof.
  destruct (Qlt_le_dec y 0) as [H | H].
  - right. apply Qabs_neg. lra.
  - left. apply Qabs_pos. exact H.
Qed.

Lemma getHueDistance_Fin (h1 h2 : Q) (path : Path.t) :
  exists s : Q,
    0 <= s <= 180
    /\ (Qabs (normQ h2 - normQ h1) <= 180 ->
        s == Qabs (normQ h2 - normQ h1))
    /\ (180 < Qabs (normQ h2 - normQ h1) ->
        s == 360 - Qabs (normQ h2 - normQ h1))
    /\ GradientEngine.getHueDistance (Fin h1) (Fin h2) path
       = Fin (match path with Path.long => 360 + - s | _ => s end).
Proof.
  pose proof (normQ_range h1) as R1. pose proof (normQ_range h2) as R2.
  unfold GradientEngine.getHueDistance. rewrite !normalizeHue_Fin. num_red.
  unfold Qminus.
  assert (Hab : 0 <= Qabs (normQ h2 + - normQ h1) < 360).
  { split; [apply Qabs_nonneg |]. apply Qabs_Qlt_condition. lra. }
  destruct (Qlt_le_dec 180 (Qabs (normQ h2 + - normQ h1)));
    eexists; (split; [| split; [| split]]);
    [ | | | destruct path; reflexivity | | | | destruct path; reflexivity ];
    try intro; lra.
Qed.

(** [getHueDistance] against the distance on the wheel: the arc itself on
    the short, warm and cool paths, and what is left of the full turn on
    the long path. *)
Lemma getHueDistance_arc (h1 h2 d : Q) (path : Path.t) :
  hueArc h1 h2 d ->
  exists s : Q,
    s == d
    /\ GradientEngine.getHueDistance (Fin h1) (Fin h2) path
       = Fin (match path with Path.long => 360 + - s | _ => s end).
Proof.
  intros (Hd & k & Ek).
  destruct (getHueDistance_Fin h1 h2 path) as (s & Hs & Hle & Hgt & E).
  exists s. split; [| exact E].
  destruct (normQ_shift h1) as [j1 E1]. destruct (normQ_shift h2) as [j2 E2].
  assert (Ed : d == (h2 - h1) + 360 * inject_Z (- k)
               \/ d == - (h2 - h1) + 360 * inject_Z k).
  { rewrite inject_Z_opp.
    destruct (Qabs_cases (h1 - h2 + 360 * inject_Z k)) as [A | A];
      rewrite A in Ek; [right | left]; lra. }
  destruct (Qabs_cases (normQ h2 - normQ h1)) as [A | A];
    destruct (Qlt_le_dec 180 (Qabs (normQ h2 - normQ h1))) as [G | G].
  - specialize (Hgt G). rewrite A in Hgt.
    destruct Ed as [Ed | Ed].
    + apply (arc_unique (h2 - h1) s d (1 - (j2 - j1)) (- k) Hs Hd);
        [right | left; exact Ed].
      push_inject. lra.
    + apply (arc_unique (h2 - h1) s d (1 - (j2 - j1)) k Hs Hd);
        [right | right; exact Ed].
      push_inject. lra.
  - specialize (Hle G). rewrite A in Hle.
    destruct Ed as [Ed | Ed].
    + apply (arc_unique (h2 - h1) s d (j2 - j1) (- k) Hs Hd);
        [left | left; exact Ed].
      push_inject. lra.
    + apply (arc_unique (h2 - h1) s d (j2 - j1) k Hs Hd);
        [left | right; exact Ed].
      push_inject. lra.
  - specialize (Hgt G). rewrite A in Hgt.
    destruct Ed as [Ed | Ed].
    + apply (arc_unique (h2 - h1) s d (1 + (j2 - j1)) (- k) Hs Hd);
        [left | left; exact Ed].
      push_inject. lra.
    + apply (arc_unique (h2 - h1) s d (1 + (j2 - j1)) k Hs Hd);
        [left | right; exact Ed].
      push_inject. lra.
  - specialize (Hle G). rewrite A in Hle.
    destruct Ed as [Ed | Ed].
    + apply (arc_unique (h2 - h1) s d (- (j2 - j1)) (- k) Hs Hd);
        [right | left; exact Ed].
      push_inject. lra.
    + apply (arc_unique (h2 - h1) s d (- (j2 - j1)) k Hs Hd);
        [right | right; exact Ed].
      push_inject. lra.
Qed.

(** The optimizer sorts the stops it inserts by their positions. *)
Lemma sort_by_position (m q1 q3 : Color) :
  map GradientEngine.stop_color
    (VibeHarmony.Array_sort
       (fun x y => GradientEngine.position x -! GradientEngine.position y)
       [GradientEngine.mkIntermediate 0.5 m;
        GradientEngine.mkIntermediate 0.25 q1;
        GradientEngine.mkIntermediate 0.75 q3])
  = [q1; m; q3].
Proof. reflexivity. Qed.

(** The answer of the optimizer for two colours of chroma above 0.03, with
    chroma boosting and midpoint insertion on, from the hue distance that
    [getHueDistance] returns. *)
Lemma optimize_pair (a b : Color) (path : Path.t) (dist : Q) :
  (col_c a ?? 0) >! 0.03 = true ->
  (col_c b ?? 0) >! 0.03 = true ->
  GradientEngine.getHueDistance (col_h a ?? 0) (col_h b ?? 0) path
  = Fin dist ->
  GradientEngine.optimizeForGradient [a; b]
    (GradientEngine.mkOptimizeOptions path true true)
  = if Qlt_le_dec 90 dist then fiveStops a b path else threeStops a b path.
Proof.
  intros Ha Hb E.
  unfold GradientEngine.optimizeForGradient, GradientEngine.expandPairs,
    GradientEngine.intermediateStops.
  cbn [GradientEngine.insertMidpoints GradientEngine.boostChroma
       GradientEngine.opt_huePath last app].
  rewrite E, Ha, Hb. cbn [andb gt lt].
  destruct (Qlt_le_dec 90 dist).
  - cbn [app]. rewrite sort_by_position. reflexivity.
  - reflexivity.
Qed.

(** C5 (amended): for two colours [a] and [b] whose chromas both exceed
    0.03 and whose hues are [d] apart on the wheel, with chroma boosting and
    midpoint insertion on (the defaults), the optimizer returns
    - on the short, the warm and the cool path: exactly three stops, [a],
      the boosted midpoint and [b], when [d] is at most 90 less the margin
      of 10^-9, and exactly five stops, [a], the stops of positions 0.25,
      0.5 and 0.75 in that order, and [b], when [d] is at least 90 plus that
      margin, in particular when [d] is 150;
    - on the long path, where the distance is measured the other way round
      and is at least 180: the five stops, whatever the hues. *)
Theorem C5_two_colours_give_three_or_five_stops
    (a b : Color) (ha hb d : Q) (path : Path.t) :
  (col_c a ?? 0) >! 0.03 = true ->
  (col_c b ?? 0) >! 0.03 = true ->
  col_h a ?? 0 = Fin ha ->
  col_h b ?? 0 = Fin hb ->
  hueArc ha hb d ->
  let out :=
    GradientEngine.optimizeForGradient [a; b]
      (GradientEngine.mkOptimizeOptions path true true) in
  match path with
  | Path.long => out = fiveStops a b path
  | _ =>
      (d <= 90 - hueTolerance -> out = threeStops a b path)
      /\ (90 + hueTolerance <= d -> out = fiveStops a b path)
  end.
Proof.
  intros Ha Hb Eha Ehb Harc out. subst out.
  destruct (getHueDistance_arc ha hb d path Harc) as (s & Es & E).
  rewrite <- Eha, <- Ehb in E.
  rewrite (optimize_pair a b path _ Ha Hb E).
  destruct Harc as (Hd & _). unfold hueTolerance.
  destruct path;
    try (split; intro H); dec_cases; try reflexivity; exfalso; lra.
Qed.

(** C5 (amended) at concrete inputs: hues 0 and 60 (distance 60) on the
    short path, hues 350 and 140 (distance 150) on the cool path. *)
Lemma C5_witness :
  GradientEngine.optimizeForGradient
    [oklch 0.5 0.1 0; oklch 0.6 0.2 60] GradientEngine.defaultOptimizeOptions
  = threeStops (oklch 0.5 0.1 0) (oklch 0.6 0.2 60) Path.short
  /\ GradientEngine.optimizeForGradient
       [oklch 0.5 0.1 350; oklch 0.6 0.2 140]
       (GradientEngine.mkOptimizeOptions Path.cool true true)
     = fiveStops (oklch 0.5 0.1 350) (oklch 0.6 0.2 140) Path.cool.
Proof.
  split.
  - refine (proj1 (C5_two_colours_give_three_or_five_stops
                     (oklch 0.5 0.1 0) (oklch 0.6 0.2 60) 0 60 60 Path.short
                     eq_refl eq_refl eq_refl eq_refl _) _).
    + split; [split; discriminate |]. exists 0%Z. reflexivity.
    + discriminate.
  - refine (proj2 (C5_two_colours_give_three_or_five_stops
                     (oklch 0.5 0.1 350) (oklch 0.6 0.2 140) 350 140 150
                     Path.cool eq_refl eq_refl eq_refl eq_refl _) _).
    + split; [split; discriminate |]. exists (-1)%Z. reflexivity.
    + discriminate.
Defined.

(* ===================================================================== *)
(** * Replays in double precision *)
(* ===================================================================== *)

Section DoublePrecision.

Import Floats.
#[local] Set Warnings "-inexact-float".

(** C8, as stated, fails in the arithmetic of the program, for a negative
    hue.  [normalizeHue(-200.00000000000003)] is 159.99999999999997: the
    sum with 360 is rounded to the spacing of the doubles near 160.
    [interpolateHue] normalizes that number once more before it returns it,
    and the second sum with 360 is rounded to the coarser spacing of the
    doubles near 520: [interpolateHue(-200.00000000000003, 0, 0, 'short')]
    is 160, and so is [interpolateHue(0, -200.00000000000003, 1, 'short')]. *)
Lemma C8_negative_hue_is_normalized_twice :
  Binary64.normalizeHue (-200.00000000000003) = 159.99999999999997%float
  /\ Binary64.interpolateHue (-200.00000000000003) 0 0 Path.short
     = 160%float
  /\ Binary64.interpolateHue 0 (-200.00000000000003) 1 Path.short
     = 160%float
  /\ PrimFloat.ltb 159.99999999999997 160 = true.
Proof. repeat split; vm_compute; reflexivity. Qed.

(** C5, as stated, fails in the arithmetic of the program, next to the
    threshold.  The doubles written 91.2 and 181.2 are less than 90 apart
    (by 2^-46), both colours have a chroma above 0.03, and the optimizer
    returns five stops: it measures the distance between the two normalized
    hues, 90.00000000000006, each of which carries the rounding of its sum
    with 360. *)
Lemma C5_threshold_is_read_after_rounding :
  hueArc (Binary64.toQ 91.2) (Binary64.toQ 181.2) (90 - (1 # 70368744177664))
  /\ 90 - (1 # 70368744177664) < 90
  /\ Binary64.getHueDistance 91.2 181.2 Path.short
     = 90.00000000000006%float
  /\ List.length
       (Binary64.optimizeForGradient
          [Binary64.oklch 0.5 0.1 91.2; Binary64.oklch 0.6 0.2 181.2]
          GradientEngine.defaultOptimizeOptions) = 5%nat.
Proof.
  split; [split; [split; discriminate | exists 0%Z; vm_compute; reflexivity] |].
  split; [reflexivity |]. split; vm_compute; reflexivity.
Qed.

End DoublePrecision.

(* ===================================================================== *)
(** * Chromatic-arc key stops *)
(* ===================================================================== *)

Lemma sinModel_bound (x : Q) : -1 <= sinModel x <= 1.
Proof. unfold sinModel. cbv zeta. dec_cases; lra. Qed.

Lemma clamp_Fin (x lo hi : Q) :
  lo <= hi ->
  exists y : Q,
    clamp (Fin x) (Fin lo) (Fin hi) = Fin y
    /\ lo <= y <= hi /\ (lo <= x <= hi -> y == x).
Proof.
  intro H. unfold clamp. num_red. dec_cases; num_red; dec_cases;
    eexists; (split; [reflexivity |]); split; try lra; intro; lra.
Qed.

Lemma clamp_between (x lo hi : Q) :
  lo <= hi -> between lo hi (clamp (Fin x) (Fin lo) (Fin hi)).
Proof.
  intro H. destruct (clamp_Fin x lo hi H) as (y & E & Hy & _). rewrite E. exact Hy.
Qed.

Section ChromaticArc.

Variable sin : Q -> Q.

(** The interpolation parameter of the chromatic-arc loop is finite as soon
    as two stops are requested. *)
Lemma chromaticArc_t_Fin (n i : nat) :
  (2 <= n)%nat ->
  of_nat i /! (of_nat n -! 1)
  = Fin (inject_Z (Z.of_nat i) / (inject_Z (Z.of_nat n) + - (1))).
Proof.
  intro H. unfold of_nat. num_red. apply div_Fin.
  assert (Hn : inject_Z 2 <= inject_Z (Z.of_nat n))
    by (rewrite <- Zle_Qle; lia).
  change (inject_Z 2) with 2 in Hn. lra.
Qed.

Lemma chromaticArc_step_Fin (l c h : Q) (n i : nat) :
  (2 <= n)%nat ->
  GradientEngine.chromaticArc_step sin l c h n i
  = oklch (clamp (Fin (l + sin (arcT n i
                                * (884279719003555 # 281474976710656))
                          * 0.04)) 0.25 0.85)
          (clamp (Fin (c * (1 + Qabs (arcT n i + - 0.5) * 0.15))) 0.08 0.28)
          (Fin (normQ (h + (arcLength n * arcT n i + - (arcLength n / 2))))).
Proof.
  intro H. unfold GradientEngine.chromaticArc_step.
  rewrite (chromaticArc_t_Fin n i H). fold (arcT n i).
  unfold of_nat, Math_PI, arcLength. num_red.
  destruct (Qlt_le_dec (inject_Z (Z.of_nat n)) 4); cbn [negb];
    rewrite div_Fin_2; num_red; rewrite normalizeHue_Fin; reflexivity.
Qed.

Lemma chromaticArc_step_finite (l c h : Q) (n i : nat) :
  (2 <= n)%nat ->
  finiteColor (GradientEngine.chromaticArc_step sin l c h n i).
Proof.
  intro H. rewrite (chromaticArc_step_Fin l c h n i H).
  unfold finiteColor, oklch. cbn [col_l col_c col_h to_num nullish].
  repeat split.
  - destruct (@clamp_Fin (l + sin (arcT n i
                                  * (884279719003555 # 281474976710656))
                            * 0.04) 0.25 0.85) as (y & E & _);
      [discriminate | rewrite E; exact I].
  - destruct (@clamp_Fin (c * (1 + Qabs (arcT n i + - 0.5) * 0.15))
                         0.08 0.28) as (y & E & _);
      [discriminate | rewrite E; exact I].
Qed.

(** C10: with a single stop requested the interpolation parameter is [0/0],
    so the chromatic-arc generator returns one key stop all of whose
    coordinates are NaN, whatever the base colour; with two stops or more
    and finite base coordinates it returns as many key stops as requested,
    and every coordinate of every key stop is finite. *)
Theorem C10_chromatic_arc_needs_two_stops
    (base : Color) (hp : option Path.t) :
  keyStops (GradientEngine.generateVibeGradient sin base
              (GradientEngine.mkGradientOptions (Some Style.chromatic_arc)
                 1 hp))
  = [oklch NaN NaN NaN]
  /\ forall n : nat,
       (2 <= n)%nat ->
       finite (col_l base ?? 0.5) -> finite (col_c base ?? 0.1) ->
       finite (col_h base ?? 0) ->
       let ks :=
         keyStops (GradientEngine.generateVibeGradient sin base
                     (GradientEngine.mkGradientOptions
                        (Some Style.chromatic_arc) n hp)) in
       List.length ks = n /\ Forall finiteColor ks.
Proof.
  split.
  - cbn [keyStops GradientEngine.generateVibeGradient
         GradientEngine.go_style GradientEngine.go_stops].
    unfold GradientEngine.generateKeyStops. cbn [seq map].
    unfold GradientEngine.chromaticArc_step.
    assert (E : of_nat 0 /! (of_nat 1 -! 1) = NaN) by (vm_compute; reflexivity).
    rewrite E. cbn.
    destruct (col_l base ?? 0.5), (col_c base ?? 0.1), (col_h base ?? 0);
      reflexivity.
  - intros n Hn Hl Hc Hh ks. subst ks.
    cbn [keyStops GradientEngine.generateVibeGradient
         GradientEngine.go_style GradientEngine.go_stops].
    unfold GradientEngine.generateKeyStops.
    destruct (col_l base ?? 0.5) as [l| | |]; try contradiction.
    destruct (col_c base ?? 0.1) as [c| | |]; try contradiction.
    destruct (col_h base ?? 0) as [h| | |]; try contradiction.
    split; [now rewrite length_map, length_seq |].
    apply Forall_forall. intros s Hs. apply in_map_iff in Hs.
    destruct Hs as (i & <- & _). now apply chromaticArc_step_finite.
Qed.

Hypothesis sin_bound : forall x : Q, -1 <= sin x <= 1.

Lemma chromaticArc_step_ok (l c : Q) (i : nat) (hue : Q) :
  normQ (200 + (arcLength 4 * arcT 4 i + - (arcLength 4 / 2))) == hue ->
  arcStopOk l hue (GradientEngine.chromaticArc_step sin l c 200 4 i).
Proof.
  intro Hhue. rewrite chromaticArc_step_Fin by lia.
  unfold arcStopOk, oklch. cbn [col_l col_c col_h to_num nullish].
  split; [eexists; split; [reflexivity | exact Hhue] |].
  split; [| split; apply clamp_between; discriminate].
  eexists. split; [| reflexivity].
  pose proof (sin_bound (arcT 4 i * (884279719003555 # 281474976710656))).
  lra.
Qed.

(** C7: a chromatic-arc gradient with four stops from a base colour of hue
    200 has four key stops, of hues exactly 140, 180, 220 and 260; the
    lightness of each is the clamp to [[0.25, 0.85]] of a value within 0.04
    of the base lightness, and the chroma of each is in [[0.08, 0.28]]. *)
Theorem C7_chromatic_arc_four_stops
    (md : option string) (l c : Q) (hp : option Path.t) :
  exists s0 s1 s2 s3 : Color,
    keyStops (GradientEngine.generateVibeGradient sin
                (mkColor md (Some (Fin l)) (Some (Fin c)) (Some (Fin 200)))
                (GradientEngine.mkGradientOptions (Some Style.chromatic_arc)
                   4 hp))
    = [s0; s1; s2; s3]
    /\ arcStopOk l 140 s0 /\ arcStopOk l 180 s1
    /\ arcStopOk l 220 s2 /\ arcStopOk l 260 s3.
Proof.
  do 4 eexists. split; [reflexivity |].
  refine (conj _ (conj _ (conj _ _)));
    apply chromaticArc_step_ok; vm_compute; reflexivity.
Qed.

End ChromaticArc.

(** C7 with the stand-in sine and the base colour
    [{ l: 0.6, c: 0.1, h: 200 }]. *)
Lemma C7_witness :
  exists s0 s1 s2 s3 : Color,
    keyStops (GradientEngine.generateVibeGradient sinModel
                (mkColor None (Some (Fin 0.6)) (Some (Fin 0.1))
                   (Some (Fin 200)))
                (GradientEngine.mkGradientOptions (Some Style.chromatic_arc)
                   4 None))
    = [s0; s1; s2; s3]
    /\ arcStopOk 0.6 140 s0 /\ arcStopOk 0.6 180 s1
    /\ arcStopOk 0.6 220 s2 /\ arcStopOk 0.6 260 s3.
Proof.
  exact (@C7_chromatic_arc_four_stops sinModel sinModel_bound None
           0.6 0.1 None).
Defined.

(** C10 with the stand-in sine, the base colour [{ l: 0.6, c: 0.1, h: 200 }]
    and three stops. *)
Lemma C10_witness :
  Forall finiteColor
    (keyStops (GradientEngine.generateVibeGradient sinModel
                 (mkColor None (Some (Fin 0.6)) (Some (Fin 0.1))
                    (Some (Fin 200)))
                 (GradientEngine.mkGradientOptions (Some Style.chromatic_arc)
                    3 None))).
Proof.
  apply (C10_chromatic_arc_needs_two_stops sinModel
           (mkColor None (Some (Fin 0.6)) (Some (Fin 0.1)) (Some (Fin 200)))
           None);
    [lia | exact I | exact I | exact I].
Defined.

(* ===================================================================== *)
(** * Finite numbers *)
(* ===================================================================== *)

Lemma finite_Fin (q : Q) : finite (Fin q).
Proof. exact I. Qed.

Lemma finite_inv (x : num) : finite x -> exists q : Q, x = Fin q.
Proof. destruct x; try contradiction. intros _. now eexists. Qed.

Lemma finite_add (x y : num) : finite x -> finite y -> finite (x +! y).
Proof. destruct x, y; try contradiction; intros; exact I. Qed.

Lemma finite_neg (x : num) : finite x -> finite (neg x).
Proof. destruct x; try contradiction; intros; exact I. Qed.

Lemma finite_sub (x y : num) : finite x -> finite y -> finite (x -! y).
Proof. destruct x, y; try contradiction; intros; exact I. Qed.

Lemma finite_mul (x y : num) : finite x -> finite y -> finite (x *! y).
Proof. destruct x, y; try contradiction; intros; exact I. Qed.

Lemma finite_max (x y : num) : finite x -> finite y -> finite (Math_max x y).
Proof.
  destruct x, y; try contradiction; intros; cbn; dec_cases; exact I.
Qed.

Lemma finite_min (x y : num) : finite x -> finite y -> finite (Math_min x y).
Proof.
  destruct x, y; try contradiction; intros; cbn; dec_cases; exact I.
Qed.

Lemma finite_abs (x : num) : finite x -> finite (Math_abs x).
Proof. destruct x; try contradiction; intros; exact I. Qed.

Lemma finite_clamp (x lo hi : num) :
  finite x -> finite lo -> finite hi -> finite (clamp x lo hi).
Proof. intros. unfold clamp. now apply finite_max, finite_min. Qed.

Lemma finite_div_2 (x : num) : finite x -> finite (x /! 2).
Proof.
  destruct x; try contradiction. intros _. rewrite div_Fin_2. exact I.
Qed.

Lemma finite_if (b : bool) (x y : num) :
  finite x -> finite y -> finite (if b then x else y).
Proof. now destruct b. Qed.

Lemma normalizeHue_below (x : num) : finite x -> below 0 360 (normalizeHue x).
Proof.
  destruct x; try contradiction. intros _. rewrite normalizeHue_Fin.
  apply normQ_range.
Qed.

Lemma below_finite (lo hi : Q) (x : num) : below lo hi x -> finite x.
Proof. destruct x; try contradiction. intros _. exact I. Qed.

Lemma between_finite (lo hi : Q) (x : num) : between lo hi x -> finite x.
Proof. destruct x; try contradiction. intros _. exact I. Qed.

Lemma finite_normalizeHue (x : num) : finite x -> finite (normalizeHue x).
Proof. intro H. exact (below_finite 0 360 _ (normalizeHue_below x H)). Qed.

Lemma clamp_range (x : num) (lo hi : Q) :
  finite x -> lo <= hi -> between lo hi (clamp x (Fin lo) (Fin hi)).
Proof.
  destruct x; try contradiction. intros _ H. now apply clamp_between.
Qed.

Lemma between_weaken (lo hi lo' hi' : Q) (x : num) :
  between lo hi x -> lo' <= lo -> hi <= hi' -> between lo' hi' x.
Proof. destruct x; try contradiction. cbn. intros. lra. Qed.

Create HintDb fin.
#[local] Hint Resolve finite_Fin finite_add finite_sub finite_mul finite_neg
  finite_max finite_min finite_abs finite_clamp finite_div_2 finite_if
  finite_normalizeHue : fin.

(* ===================================================================== *)
(** * The stable sort *)
(* ===================================================================== *)

Section Sorting.

Variable A : Type.

Section AnyComparator.

Variable cmp : A -> A -> num.

Lemma Array_insert_In (x y : A) (xs : list A) :
  In y (VibeHarmony.Array_insert cmp x xs) <-> y = x \/ In y xs.
Proof.
  induction xs as [| z xs IH]; cbn [VibeHarmony.Array_insert].
  - cbn. split; intros [H | []]; now left.
  - destruct (cmp x z >! 0); cbn [In]; rewrite ?IH;
      (split; intros H; decompose [or] H; subst; auto).
Qed.

Lemma Array_insert_length (x : A) (xs : list A) :
  List.length (VibeHarmony.Array_insert cmp x xs) = S (List.length xs).
Proof.
  induction xs as [| z xs IH]; cbn [VibeHarmony.Array_insert];
    [reflexivity |].
  destruct (cmp x z >! 0); cbn [List.length];
    [now rewrite IH | reflexivity].
Qed.

Lemma Array_sort_length (xs : list A) :
  List.length (VibeHarmony.Array_sort cmp xs) = List.length xs.
Proof.
  induction xs as [| x xs IH]; [reflexivity |].
  cbn [VibeHarmony.Array_sort fold_right].
  fold (VibeHarmony.Array_sort cmp xs).
  now rewrite Array_insert_length, IH.
Qed.

Lemma Array_sort_In (y : A) (xs : list A) :
  In y (VibeHarmony.Array_sort cmp xs) <-> In y xs.
Proof.
  induction xs as [| x xs IH]; [reflexivity |].
  cbn [VibeHarmony.Array_sort fold_right].
  fold (VibeHarmony.Array_sort cmp xs).
  rewrite Array_insert_In, IH. cbn [In].
  split; intros [H | H]; subst; auto.
Qed.

End AnyComparator.

Variable key : A -> num.

(** The comparator of the palette sort: [(a, b) => key(b) - key(a)]. *)
Let compare (a b : A) : num := key b -! key a.
Let before (a b : A) : Prop := key b <=! key a = true.

Lemma compare_false (a b : A) :
  finite (key a) -> finite (key b) -> compare a b >! 0 = false -> before a b.
Proof.
  unfold compare, before. destruct (key a), (key b); try contradiction.
  intros _ _. cbn. dec_cases; cbn; intros; try congruence; lra.
Qed.

Lemma compare_true (a b : A) :
  finite (key a) -> finite (key b) -> compare a b >! 0 = true -> before b a.
Proof.
  unfold compare, before. destruct (key a), (key b); try contradiction.
  intros _ _. cbn. dec_cases; cbn; intros; try congruence; lra.
Qed.

Lemma Array_insert_sorted (x : A) (xs : list A) :
  finite (key x) -> Forall (fun y => finite (key y)) xs ->
  Sorted before xs -> Sorted before (VibeHarmony.Array_insert compare x xs).
Proof.
  intros Hx Hfin Hs.
  induction Hs as [| z xs Hs IH Hhd]; cbn [VibeHarmony.Array_insert].
  - repeat constructor.
  - inversion Hfin as [| ? ? Hz Hxs]; subst.
    destruct (compare x z >! 0) eqn:E.
    + constructor; [now apply IH |].
      destruct xs as [| w xs]; cbn [VibeHarmony.Array_insert].
      * constructor. now apply compare_true.
      * destruct (compare x w >! 0); constructor;
          [now inversion Hhd | now apply compare_true].
    + constructor; [now constructor |].
      constructor. now apply compare_false.
Qed.

Lemma Array_sort_sorted (xs : list A) :
  Forall (fun y => finite (key y)) xs ->
  Sorted before (VibeHarmony.Array_sort compare xs).
Proof.
  induction 1 as [| x xs Hx Hxs IH]; [constructor |].
  cbn [VibeHarmony.Array_sort fold_right]. fold (VibeHarmony.Array_sort compare xs).
  apply Array_insert_sorted; [exact Hx | | exact IH].
  apply Forall_forall. intros y Hy.
  apply (proj1 (Array_sort_In compare y xs)) in Hy.
  exact (proj1 (Forall_forall _ _) Hxs y Hy).
Qed.

End Sorting.

(* ===================================================================== *)
(** * Companion generator *)
(* ===================================================================== *)

Lemma strategy_analyze (color : Color) :
  strategy (VibeHarmony.analyzeColorMood color)
  = VibeHarmony.determineCompanionStrategy
      (mood (VibeHarmony.analyzeColorMood color))
      (mkRaw (col_l color ?? 0.5) (col_c color ?? 0.1) (col_h color ?? 0)).
Proof. reflexivity. Qed.

Lemma raw_analyze (color : Color) :
  raw (VibeHarmony.analyzeColorMood color)
  = mkRaw (col_l color ?? 0.5) (col_c color ?? 0.1) (col_h color ?? 0).
Proof. reflexivity. Qed.

Lemma lightnessRange_finite (m : Mood.t) (r : Raw) :
  finite (raw_l r) ->
  finite (fst (lightnessRange (VibeHarmony.determineCompanionStrategy m r)))
  /\ finite (snd (lightnessRange (VibeHarmony.determineCompanionStrategy m r))).
Proof.
  intro H. destruct m; cbn [VibeHarmony.determineCompanionStrategy
                            lightnessRange fst snd]; split; auto with fin.
Qed.

Lemma chromaRange_finite (m : Mood.t) (r : Raw) :
  finite (raw_c r) ->
  finite (fst (chromaRange (VibeHarmony.determineCompanionStrategy m r)))
  /\ finite (snd (chromaRange (VibeHarmony.determineCompanionStrategy m r))).
Proof.
  intro H. destruct m; cbn [VibeHarmony.determineCompanionStrategy
                            chromaRange fst snd]; split; auto with fin.
Qed.

Lemma neutralChance_finite (m : Mood.t) (r : Raw) :
  finite (neutralChance (VibeHarmony.determineCompanionStrategy m r)).
Proof. destruct m; exact I. Qed.

Lemma spread_offset_finite (s : HueSpread.t) (i : nat) :
  finite (nth (i mod List.length (fst (VibeHarmony.spreadConfig s)))
              (fst (VibeHarmony.spreadConfig s)) NaN)
  /\ finite (snd (VibeHarmony.spreadConfig s)).
Proof.
  assert (H : (i mod 5 < 5)%nat) by (apply Nat.mod_upper_bound; lia).
  destruct s; cbn [VibeHarmony.spreadConfig fst snd List.length];
    (split; [| exact I]);
    destruct (i mod 5)%nat as [| [| [| [| [| k]]]]]; try exact I; lia.
Qed.

Lemma biasTowardRange_finite (hue lo hi strength : num) :
  finite hue -> finite lo -> finite hi -> finite strength ->
  finite (VibeHarmony.biasTowardRange hue (lo, hi) strength).
Proof.
  intros. unfold VibeHarmony.biasTowardRange. cbn [fst snd].
  auto 10 with fin.
Qed.

Lemma avoidClumping_loop_finite (fuel attempts : nat) (adjusted : num)
    (usedHues : list num) (minSeparation : num) :
  finite adjusted -> finite minSeparation ->
  finite (VibeHarmony.avoidClumping_loop fuel attempts adjusted usedHues
            minSeparation).
Proof.
  revert attempts adjusted.
  induction fuel as [| fuel IH]; intros attempts adjusted Ha Hm;
    cbn [VibeHarmony.avoidClumping_loop]; [exact Ha |].
  destruct (negb _); [exact Ha |].
  apply IH; [| exact Hm]. destruct (Nat.even attempts); auto with fin.
Qed.

Lemma avoidClumping_finite (hue : num) (usedHues : list num)
    (minSeparation : num) :
  finite hue -> finite minSeparation ->
  finite (VibeHarmony.avoidClumping hue usedHues minSeparation).
Proof.
  intros. unfold VibeHarmony.avoidClumping.
  destruct usedHues; [assumption | now apply avoidClumping_loop_finite].
Qed.

Section CompanionFacts.

Variable random : nat -> Q.

Lemma pickVibeHue_spec (baseHue : num) (md : MoodDescriptor) (i : nat)
    (total : num) (usedHues : list num) (st : nat) :
  exists hue : num,
    VibeHarmony.pickVibeHue random baseHue md i total usedHues st
    = (hue, S st)
    /\ (finite baseHue -> below 0 360 hue).
Proof.
  unfold VibeHarmony.pickVibeHue, VibeHarmony.bind, VibeHarmony.ret,
    VibeHarmony.Math_random.
  eexists. split; [reflexivity |]. intro Hb.
  destruct (spread_offset_finite (hueSpread (strategy md)) i) as [Ho Hj].
  apply normalizeHue_below, avoidClumping_finite; [| exact I].
  apply finite_normalizeHue.
  assert (Ht : finite
                 (baseHue +!
                  nth (i mod List.length
                                 (fst (VibeHarmony.spreadConfig
                                         (hueSpread (strategy md)))))
                      (fst (VibeHarmony.spreadConfig
                              (hueSpread (strategy md)))) NaN +!
                  (Fin (random st) -! 0.5) *!
                  snd (VibeHarmony.spreadConfig (hueSpread (strategy md)))
                  *! 2))
    by auto 10 with fin.
  destruct (temperatureBias (strategy md)); try exact Ht;
    try (apply biasTowardRange_finite; auto with fin);
    try (destruct (Nat.even i); apply biasTowardRange_finite; auto with fin).
  auto 10 with fin.
Qed.

(** The shape of a chromatic companion: two clamped coordinates and a
    normalized hue, after three calls of [Math.random]. *)
Lemma generateSingleCompanion_spec (input : Color) (md : MoodDescriptor)
    (i : nat) (total : num) (usedHues : list num) (st : nat) :
  exists X Y hue : num,
    VibeHarmony.generateSingleCompanion random input md i total usedHues st
    = (VibeHarmony.mkCompanion
         (oklch (clamp X 0.08 0.95) (clamp Y 0.01 0.30) (normalizeHue hue))
         (VibeHarmony.describeCompanionRole input hue),
       S (S (S st)))
    /\ (finite (fst (lightnessRange (strategy md))) ->
        finite (snd (lightnessRange (strategy md))) ->
        (exists t : Q, total = Fin t /\ 0 < t) -> finite X)
    /\ (finite (fst (chromaRange (strategy md))) ->
        finite (snd (chromaRange (strategy md))) -> finite Y)
    /\ (finite (raw_h (raw md)) -> below 0 360 hue).
Proof.
  unfold VibeHarmony.generateSingleCompanion.
  unfold VibeHarmony.bind at 1.
  destruct (pickVibeHue_spec (raw_h (raw md)) md i total usedHues st)
    as (hue & E & Hhue).
  rewrite E.
  unfold VibeHarmony.bind, VibeHarmony.ret, VibeHarmony.Math_random.
  do 3 eexists. split; [reflexivity |].
  split; [| split; [| exact Hhue]].
  - intros H1 H2 (t & -> & Ht). unfold of_nat. num_red.
    rewrite div_Fin by lra. auto 10 with fin.
  - intros H1 H2. auto 10 with fin.
Qed.

(** The shape of a grounding neutral. *)
Lemma generateGroundingNeutral_spec (input : Color) (md : MoodDescriptor)
    (i : nat) (st : nat) :
  exists (lq cq : Q) (hue : num) (rl : VibeHarmony.Role.t),
    VibeHarmony.generateGroundingNeutral random input md i st
    = (VibeHarmony.mkCompanion (oklch (Fin lq) (Fin cq) (normalizeHue hue)) rl,
       S (S (S st)))
    /\ rl = (if Fin lq >! 0.6 then VibeHarmony.Role.light_ground
             else VibeHarmony.Role.dark_ground)
    /\ ((forall n : nat, 0 <= random n < 1) ->
        0.15 <= lq <= 0.93 /\ 0.01 <= cq <= 0.035)
    /\ (finite (raw_h (raw md)) -> finite hue).
Proof.
  unfold VibeHarmony.generateGroundingNeutral, VibeHarmony.bind,
    VibeHarmony.ret, VibeHarmony.Math_random.
  assert (Hh : finite (raw_h (raw md)) ->
               finite (raw_h (raw md) +! (Fin (random (S (S st))) -! 0.5) *! 20))
    by (intro; auto with fin).
  destruct (raw_l (raw md) >! 0.6); [| destruct (raw_l (raw md) <! 0.4);
                                        [| destruct (Nat.even i)]];
    num_red;
    (do 4 eexists; split; [reflexivity |];
     split; [reflexivity |];
     split; [| exact Hh];
     intro Hr; pose proof (Hr st); pose proof (Hr (S st)); lra).
Qed.

End CompanionFacts.

Lemma bind_run (A B : Type) (m : VibeHarmony.Rand A)
    (k : A -> VibeHarmony.Rand B) (st : nat) :
  VibeHarmony.bind m k st = k (fst (m st)) (snd (m st)).
Proof. unfold VibeHarmony.bind. now destruct (m st). Qed.

Section CompanionLoops.

Variable random : nat -> Q.
Variable input : Color.
Variable md : MoodDescriptor.
Variable P : VibeHarmony.Companion -> Prop.

Lemma chromaticLoop_length (cs : num) (n i : nat)
    (companions : list VibeHarmony.Companion) (usedHues : list num)
    (st : nat) :
  List.length
    (fst (VibeHarmony.chromaticLoop random input md cs n i companions
            usedHues st))
  = (List.length companions + n)%nat.
Proof.
  revert i companions usedHues st.
  induction n as [| n IH]; intros; cbn [VibeHarmony.chromaticLoop].
  - cbn. lia.
  - rewrite bind_run, IH, length_app. cbn [List.length]. lia.
Qed.

Lemma chromaticLoop_Forall (cs : num) :
  (forall (i : nat) (usedHues : list num) (st : nat),
      P (fst (VibeHarmony.generateSingleCompanion random input md i cs
                usedHues st))) ->
  forall (n i : nat) (companions : list VibeHarmony.Companion)
         (usedHues : list num) (st : nat),
    Forall P companions ->
    Forall P
      (fst (VibeHarmony.chromaticLoop random input md cs n i companions
              usedHues st)).
Proof.
  intros Hgen n. induction n as [| n IH]; intros i companions usedHues st Hc;
    cbn [VibeHarmony.chromaticLoop].
  - exact Hc.
  - rewrite bind_run. apply IH. apply Forall_app. split; [exact Hc |].
    constructor; [apply Hgen | constructor].
Qed.

Lemma neutralLoop_length (n i : nat)
    (companions : list VibeHarmony.Companion) (st : nat) :
  List.length
    (fst (VibeHarmony.neutralLoop random input md n i companions st))
  = (List.length companions + n)%nat.
Proof.
  revert i companions st.
  induction n as [| n IH]; intros; cbn [VibeHarmony.neutralLoop].
  - cbn. lia.
  - rewrite bind_run, IH, length_app. cbn [List.length]. lia.
Qed.

Lemma neutralLoop_Forall :
  (forall (i : nat) (st : nat),
      P (fst (VibeHarmony.generateGroundingNeutral random input md i st))) ->
  forall (n i : nat) (companions : list VibeHarmony.Companion) (st : nat),
    Forall P companions ->
    Forall P (fst (VibeHarmony.neutralLoop random input md n i companions st)).
Proof.
  intros Hgen n. induction n as [| n IH]; intros i companions st Hc;
    cbn [VibeHarmony.neutralLoop].
  - exact Hc.
  - rewrite bind_run. apply IH. apply Forall_app. split; [exact Hc |].
    constructor; [apply Hgen | constructor].
Qed.

End CompanionLoops.

(** A loop that runs at least once has a positive bound. *)
Lemma loop_count_pos (x : num) (n : nat) :
  loop_count x = S n -> exists t : Q, x = Fin t /\ 0 < t.
Proof.
  destruct x as [t| | |]; cbn; try discriminate. intro H.
  exists t. split; [reflexivity |].
  pose proof (Qceiling_lt t) as Hc.
  assert (Hz : (1 <= Qceiling t)%Z) by lia.
  assert (Hq : inject_Z 0 <= inject_Z (Qceiling t - 1))
    by (rewrite <- Zle_Qle; lia).
  change (inject_Z 0) with 0 in Hq. lra.
Qed.

(** The companions before sorting: the chromatic ones, then the neutrals. *)
Lemma generateVibeCompanions_palette (random : nat -> Q) (input : Color)
    (options : VibeHarmony.CompanionOptions) (st : nat) :
  exists (cs ns : num) (unsorted : list VibeHarmony.Companion),
    cs = (if VibeHarmony.includeInput options
          then of_nat (VibeHarmony.count options) -! 1
          else of_nat (VibeHarmony.count options)) -! ns
    /\ ns = Math_round
              ((if VibeHarmony.includeInput options
                then of_nat (VibeHarmony.count options) -! 1
                else of_nat (VibeHarmony.count options))
               *! neutralChance
                    (strategy (VibeHarmony.analyzeColorMood input)))
    /\ unsorted
       = fst (VibeHarmony.neutralLoop random input
                (VibeHarmony.analyzeColorMood input) (loop_count ns) 0
                (fst (VibeHarmony.chromaticLoop random input
                        (VibeHarmony.analyzeColorMood input) cs
                        (loop_count cs) 0 [] [col_h input ?? 0] st))
                (snd (VibeHarmony.chromaticLoop random input
                        (VibeHarmony.analyzeColorMood input) cs
                        (loop_count cs) 0 [] [col_h input ?? 0] st)))
    /\ VibeHarmony.palette
         (fst (VibeHarmony.generateVibeCompanions random input options st))
       = (if VibeHarmony.includeInput options
          then [VibeHarmony.mkCompanion
                  (mkColor (Some "oklch"%string) (col_l input) (col_c input)
                     (col_h input))
                  VibeHarmony.Role.source]
          else [])
         ++ VibeHarmony.Array_sort
              (fun a b => lightness b -! lightness a) unsorted.
Proof.
  do 3 eexists. split; [reflexivity |]. split; [reflexivity |].
  split; [reflexivity |].
  unfold VibeHarmony.generateVibeCompanions. rewrite !bind_run.
  unfold VibeHarmony.ret. cbn [fst VibeHarmony.palette].
  destruct (VibeHarmony.includeInput options); reflexivity.
Qed.

Lemma slots_of_five (m : Mood.t) (r : Raw) :
  let ns :=
    Math_round
      ((of_nat 5 -! 1)
       *! neutralChance (VibeHarmony.determineCompanionStrategy m r)) in
  let cs := (of_nat 5 -! 1) -! ns in
  (loop_count cs + loop_count ns = 4)%nat
  /\ exists t : Q, cs = Fin t /\ 0 < t.
Proof.
  destruct m; cbv zeta; (split; [vm_compute; reflexivity |]);
    eexists; (split; [vm_compute; reflexivity | reflexivity]).
Qed.

Lemma Array_insert_Permutation (A : Type) (cmp : A -> A -> num) (x : A)
    (xs : list A) :
  Permutation (VibeHarmony.Array_insert cmp x xs) (x :: xs).
Proof.
  induction xs as [| y ys IH]; cbn [VibeHarmony.Array_insert];
    [reflexivity |].
  destruct (cmp x y >! 0); [| reflexivity].
  rewrite IH. apply perm_swap.
Qed.

(** Sorting keeps the elements, each as often as it occurs. *)
Lemma Array_sort_Permutation (A : Type) (cmp : A -> A -> num) (xs : list A) :
  Permutation (VibeHarmony.Array_sort cmp xs) xs.
Proof.
  induction xs as [| x xs IH]; [reflexivity |].
  cbn [VibeHarmony.Array_sort fold_right].
  fold (VibeHarmony.Array_sort cmp xs).
  rewrite Array_insert_Permutation. now constructor.
Qed.

(** No generator hands out the role 'source'. *)
Lemma generatedFor_role (random : nat -> Q) (input : Color)
    (e : VibeHarmony.Companion) :
  generatedFor random input e ->
  VibeHarmony.role e <> VibeHarmony.Role.source.
Proof.
  intros [(i & total & used & st & ->) | (i & st & ->)].
  - destruct (generateSingleCompanion_spec random input
                (VibeHarmony.analyzeColorMood input) i total used st)
      as (X & Y & hue & E & _). rewrite E.
    cbn [fst VibeHarmony.role]. unfold VibeHarmony.describeCompanionRole.
    cbv zeta.
    repeat match goal with
           | |- context [if ?c then _ else _] => destruct c
           end; discriminate.
  - destruct (generateGroundingNeutral_spec random input
                (VibeHarmony.analyzeColorMood input) i st)
      as (lq & cq & hue & rl & E & Erl & _). rewrite E.
    cbn [fst VibeHarmony.role]. rewrite Erl.
    destruct (Fin lq >! 0.6); discriminate.
Qed.

(** C6, as stated, fails for an input colour whose lightness is not a
    number.  From [{ l: NaN, c: 0.25, h: 280 }] (mood 'pop', no neutral
    among four companions) every companion takes its lightness from the
    band [[l - 0.20, l + 0.15]] and has the lightness NaN: entry 0 is the
    source and four entries follow, but no order of them is one of
    non-increasing lightness. *)
Lemma C6_no_order_without_a_lightness :
  exists rest : list VibeHarmony.Companion,
    VibeHarmony.palette
      (fst (VibeHarmony.generateVibeCompanions (fun _ => 0.5) unlit_color
              (VibeHarmony.mkCompanionOptions 5 true) 0%nat))
    = sourceEntry unlit_color :: rest
    /\ List.length rest = 4%nat
    /\ Forall (fun e => lightness e = NaN) rest
    /\ (forall a b : VibeHarmony.Companion,
           In a rest -> In b rest -> ~ notDarker a b)
    /\ ~ Sorted notDarker rest.
Proof.
  eexists. split; [vm_compute; reflexivity |].
  split; [reflexivity |].
  assert (Hnan : Forall (fun e => lightness e = NaN)
                   (tl (VibeHarmony.palette
                          (fst (VibeHarmony.generateVibeCompanions
                                  (fun _ => 0.5) unlit_color
                                  (VibeHarmony.mkCompanionOptions 5 true)
                                  0%nat)))))
    by (vm_compute; repeat constructor).
  vm_compute in Hnan.
  split; [exact Hnan |].
  assert (Hno : forall a b : VibeHarmony.Companion,
             lightness b = NaN -> ~ notDarker a b).
  { intros a b Eb H. unfold notDarker in H. rewrite Eb in H.
    destruct (lightness a); discriminate H. }
  split.
  - intros a b _ Hb. apply Hno.
    exact (proj1 (Forall_forall _ _) Hnan b Hb).
  - intro Hs. inversion Hs as [| x l Hl Hd E]; subst.
    inversion Hd as [| y l' Hxy E']; subst.
    revert Hxy. apply Hno. reflexivity.
Qed.

(** C6 (amended): for every input colour whose lightness is a finite number
    or is absent, every sequence of values of [Math.random] and every point
    of that sequence at which the call starts,
    [generateVibeCompanions(input, { count: 5, includeInput: true })]
    returns a palette of exactly five entries; entry 0 has role 'source' and
    the colour of the input with [mode: 'oklch']; the four other entries
    are the companions the two loops have collected, each of them once,
    every one comes out of one of the two companion generators, none has the
    role 'source', and they are in non-increasing order of lightness. *)
Theorem C6_palette_of_five (random : nat -> Q) (input : Color) (st : nat) :
  finite (col_l input ?? 0.5) ->
  let p :=
    VibeHarmony.palette
      (fst (VibeHarmony.generateVibeCompanions random input
              (VibeHarmony.mkCompanionOptions 5 true) st)) in
  List.length p = 5%nat
  /\ exists rest : list VibeHarmony.Companion,
       p = sourceEntry input :: rest
       /\ Permutation rest
            (companionsBeforeSort random input
               (VibeHarmony.mkCompanionOptions 5 true) st)
       /\ Forall (generatedFor random input) rest
       /\ Forall (fun e => VibeHarmony.role e <> VibeHarmony.Role.source)
            rest
       /\ Sorted notDarker rest.
Proof.
  intros Hl p. subst p.
  destruct (generateVibeCompanions_palette random input
              (VibeHarmony.mkCompanionOptions 5 true) st)
    as (cs & ns & unsorted & Ecs & Ens & Eu & Ep).
  cbn [VibeHarmony.includeInput VibeHarmony.count] in Ecs, Ens.
  rewrite strategy_analyze in Ens.
  destruct (slots_of_five (mood (VibeHarmony.analyzeColorMood input))
              (mkRaw (col_l input ?? 0.5) (col_c input ?? 0.1)
                 (col_h input ?? 0))) as (Hsum & t & Et & Ht).
  cbv zeta in Hsum, Et. rewrite <- Ens in Hsum, Et. rewrite <- Ecs in Hsum, Et.
  rewrite Ep. cbn [VibeHarmony.includeInput app]. split.
  - cbn [List.length]. rewrite Array_sort_length, Eu, neutralLoop_length,
      chromaticLoop_length. cbn [List.length]. lia.
  - eexists. split; [reflexivity |].
    split.
    { unfold companionsBeforeSort. cbv zeta.
      cbn [VibeHarmony.includeInput VibeHarmony.count].
      rewrite strategy_analyze, <- Ens, <- Ecs, <- Eu.
      apply Array_sort_Permutation. }
    assert (Hrest : Forall (generatedFor random input)
                      (VibeHarmony.Array_sort
                         (fun a b => lightness b -! lightness a) unsorted)).
    { apply Forall_forall. intros e He.
      apply (proj1 (Array_sort_In VibeHarmony.Companion _ e unsorted)) in He.
      revert e He. apply Forall_forall. rewrite Eu.
      apply neutralLoop_Forall.
      - intros i st'. right. now exists i, st'.
      - apply chromaticLoop_Forall; [| constructor].
        intros i used st'. left. now exists i, cs, used, st'. }
    split; [exact Hrest |].
    split.
    + eapply Forall_impl; [| exact Hrest].
      intros e. apply generatedFor_role.
    + apply (Array_sort_sorted VibeHarmony.Companion lightness).
      rewrite Eu. apply neutralLoop_Forall.
      * intros i st'.
        destruct (generateGroundingNeutral_spec random input
                    (VibeHarmony.analyzeColorMood input) i st')
          as (lq & cq & hue & rl & E & _). rewrite E. exact I.
      * apply chromaticLoop_Forall; [| constructor].
        intros i used st'.
        destruct (generateSingleCompanion_spec random input
                    (VibeHarmony.analyzeColorMood input) i cs used st')
          as (X & Y & hue & E & HX & _). rewrite E.
        unfold lightness. cbn [fst VibeHarmony.color oklch col_l nullish].
        apply finite_clamp; try exact I.
        rewrite strategy_analyze in HX.
        destruct (lightnessRange_finite
                    (mood (VibeHarmony.analyzeColorMood input))
                    (mkRaw (col_l input ?? 0.5) (col_c input ?? 0.1)
                       (col_h input ?? 0)) Hl) as [H1 H2].
        apply HX; [exact H1 | exact H2 | now exists t].
Qed.

(** C6 (amended) for the input [{ l: 0.9, c: 0.25, h: 280 }] and the
    constant sequence 1/2. *)
Lemma C6_witness :
  List.length
    (VibeHarmony.palette
       (fst (VibeHarmony.generateVibeCompanions (fun _ => 0.5) example_color
               (VibeHarmony.mkCompanionOptions 5 true) 0%nat))) = 5%nat.
Proof.
  apply (C6_palette_of_five (fun _ => 0.5) example_color 0%nat). exact I.
Defined.

(** ** Roles *)

Lemma same_refl (x : num) : same x x.
Proof. destruct x; cbn; [reflexivity | exact I ..]. Qed.

Lemma roleOfDistance_same (x y : num) :
  same x y -> roleOfDistance x = roleOfDistance y.
Proof.
  destruct x as [a| | |], y as [b| | |]; cbn [same]; try contradiction;
    try reflexivity.
  intro E. unfold roleOfDistance. num_red. dec_cases; try reflexivity; lra.
Qed.

Lemma describeCompanionRole_roleOfDistance (input : Color) (hue : num) :
  VibeHarmony.describeCompanionRole input hue
  = roleOfDistance (Math_abs (normalizeHue (hue -! (col_h input ?? 0)))).
Proof. reflexivity. Qed.

(** The offset read by [describeCompanionRole] does not change when the
    companion hue, already in [[0, 360)], is normalized once more. *)
Lemma offset_normalized (a b : Q) :
  0 <= a < 360 ->
  Qabs (normQ (normQ a - b)) == Qabs (normQ (a - b)).
Proof.
  intro Ha. apply Qabs_wd.
  destruct (normQ_shift (a - b)) as [j Ej].
  apply normQ_eq_of_shift with (k := (- j)%Z); [apply normQ_range |].
  rewrite inject_Z_opp. pose proof (normQ_id a Ha). lra.
Qed.

Lemma chromatic_role (input : Color) (L C hue : num) :
  finite (col_h input ?? 0) -> below 0 360 hue ->
  chromaticRoleOk input
    (VibeHarmony.mkCompanion
       (oklch L C (normalizeHue hue))
       (VibeHarmony.describeCompanionRole input hue)).
Proof.
  intros Hin Hhue. destruct hue as [a| | |]; try contradiction.
  destruct (col_h input ?? 0) as [b| | |] eqn:Eb; try contradiction.
  unfold chromaticRoleOk, hueOf, circularHueDistance.
  cbn [VibeHarmony.color VibeHarmony.role oklch col_h to_num nullish].
  rewrite describeCompanionRole_roleOfDistance, Eb.
  rewrite !normalizeHue_Fin. num_red. rewrite !normalizeHue_Fin. num_red.
  pose proof (offset_normalized a b Hhue) as Eo.
  pose proof (normQ_range (normQ a - b)) as R1.
  pose proof (normQ_range (a - b)) as R2.
  assert (A1 : Qabs (normQ (normQ a + - b)) == normQ (normQ a + - b))
    by (apply Qabs_pos; unfold Qminus in R1; lra).
  assert (A2 : Qabs (normQ (a + - b)) == normQ (a + - b))
    by (apply Qabs_pos; unfold Qminus in R2; lra).
  unfold Qminus in Eo.
  destruct (Qlt_le_dec 180 (Qabs (normQ (normQ a + - b)))) as [Hgt | Hle];
    cbn [negb]; [discriminate |].
  intros _. apply roleOfDistance_same.
  destruct (Qlt_le_dec (360 + - Qabs (normQ (normQ a + - b)))
              (Qabs (normQ (normQ a + - b)))); cbn [same]; lra.
Qed.

Lemma describeCompanionRole_isDistanceRole (input : Color) (hue : num) :
  isDistanceRole (VibeHarmony.describeCompanionRole input hue) = true.
Proof.
  unfold VibeHarmony.describeCompanionRole. cbv zeta.
  repeat (destruct (_ <! _); [reflexivity |]). reflexivity.
Qed.

(** C3, as stated, fails.  For the input [{ l: 0.2, c: 0.03, h: 100 }] and
    the constant random sequence 1/2 the palette holds a grounding neutral
    of hue 100 (circular distance 0 from the input) whose role is
    'light-ground', and a chromatic companion of hue 85 (circular distance
    15) whose role is 'complement'; the claim gives 'neighbor' to both. *)
Lemma C3_roles_are_not_those_of_circular_distance :
  let p :=
    VibeHarmony.palette
      (fst (VibeHarmony.generateVibeCompanions (fun _ => 0.5) noir_color
              VibeHarmony.defaultCompanionOptions 0%nat)) in
  (exists e : VibeHarmony.Companion,
      In e p /\ same (hueOf e) 100
      /\ roleOfDistance (circularHueDistance (hueOf e) 100)
         = VibeHarmony.Role.neighbor
      /\ VibeHarmony.role e = VibeHarmony.Role.light_ground)
  /\ (exists e : VibeHarmony.Companion,
        In e p /\ same (hueOf e) 85
        /\ same (circularHueDistance (hueOf e) 100) 15
        /\ roleOfDistance (circularHueDistance (hueOf e) 100)
           = VibeHarmony.Role.neighbor
        /\ VibeHarmony.role e = VibeHarmony.Role.complement).
Proof.
  cbv zeta. split.
  - eexists. split; [vm_compute; right; left; reflexivity |].
    repeat split; vm_compute; reflexivity.
  - eexists. split; [vm_compute; do 3 right; left; reflexivity |].
    repeat split; vm_compute; reflexivity.
Qed.

(** C3 (amended): for every input colour whose hue is a finite number or
    is absent, every outcome of the random sampling and every option, each
    entry of the palette is the input's own entry (role 'source'), or a
    grounding neutral, whose role is 'light-ground' when its lightness
    exceeds 0.6 and 'dark-ground' otherwise, or a chromatic companion, whose
    role is one of the five distance roles and, whenever its hue is at most
    180 degrees ahead of the input hue, is the role of the circular hue
    distance: 'neighbor' below 30, 'analogous' below 60, 'contrast' below
    120, 'triadic' below 160, 'complement' otherwise. *)
Theorem C3_roles_of_palette_entries (random : nat -> Q) (input : Color)
    (options : VibeHarmony.CompanionOptions) (st : nat) :
  finite (col_h input ?? 0) ->
  Forall
    (fun e =>
       e = sourceEntry input
       \/ groundRoleOk e
       \/ (isDistanceRole (VibeHarmony.role e) = true
           /\ chromaticRoleOk input e))
    (VibeHarmony.palette
       (fst (VibeHarmony.generateVibeCompanions random input options st))).
Proof.
  intro Hh.
  destruct (generateVibeCompanions_palette random input options st)
    as (cs & ns & unsorted & _ & _ & Eu & Ep).
  rewrite Ep. apply Forall_app. split.
  - destruct (VibeHarmony.includeInput options); repeat constructor.
  - apply Forall_forall. intros e He.
    apply (proj1 (Array_sort_In VibeHarmony.Companion _ e unsorted)) in He.
    revert e He. apply Forall_forall. rewrite Eu.
    apply neutralLoop_Forall.
    + intros i st'.
      destruct (generateGroundingNeutral_spec random input
                  (VibeHarmony.analyzeColorMood input) i st')
        as (lq & cq & hue & rl & E & Erl & _). rewrite E.
      right; left. unfold groundRoleOk, lightness.
      cbn [fst VibeHarmony.color VibeHarmony.role oklch col_l nullish].
      rewrite Erl. destruct (Fin lq >! 0.6); [left | right]; now split.
    + apply chromaticLoop_Forall; [| constructor].
      intros i used st'.
      destruct (generateSingleCompanion_spec random input
                  (VibeHarmony.analyzeColorMood input) i cs used st')
        as (X & Y & hue & E & _ & _ & Hhue). rewrite E.
      right; right. cbn [fst VibeHarmony.role]. split.
      * apply describeCompanionRole_isDistanceRole.
      * apply chromatic_role; [exact Hh |]. apply Hhue. exact Hh.
Qed.

(** C3 (amended) for the input [{ l: 0.2, c: 0.03, h: 100 }] and the
    constant random sequence 1/2. *)
Lemma C3_witness :
  Forall
    (fun e =>
       e = sourceEntry noir_color
       \/ groundRoleOk e
       \/ (isDistanceRole (VibeHarmony.role e) = true
           /\ chromaticRoleOk noir_color e))
    (VibeHarmony.palette
       (fst (VibeHarmony.generateVibeCompanions (fun _ => 0.5) noir_color
               VibeHarmony.defaultCompanionOptions 0%nat))).
Proof.
  apply (C3_roles_of_palette_entries (fun _ => 0.5) noir_color
           VibeHarmony.defaultCompanionOptions 0%nat).
  exact I.
Defined.

(* ===================================================================== *)
(** * The range invariant *)
(* ===================================================================== *)

Lemma inGamut_inv (s : Color) :
  inGamut s ->
  exists l c h : Q,
    col_l s = Some (Fin l) /\ col_c s = Some (Fin c)
    /\ col_h s = Some (Fin h)
    /\ 0 <= l <= 1 /\ 0 <= c <= 0.4 /\ 0 <= h < 360.
Proof.
  destruct s as [md [[l| | |]|] [[c| | |]|] [[h| | |]|]];
    unfold inGamut, inGamutUpTo; cbn; intros (Hl & Hc & Hh);
    try contradiction.
  exists l, c, h. repeat split; tauto.
Qed.

Lemma applyEasing_finite (t : num) (easing : Ease.t) :
  finite t -> finite (GradientEngine.applyEasing t easing).
Proof.
  intro H. destruct easing; cbn [GradientEngine.applyEasing];
    auto 10 with fin.
Qed.

Section InterpolatorRange.

Variable sin : Q -> Q.

Lemma Math_sin_finite (x : num) :
  finite x -> finite (GradientEngine.Math_sin sin x).
Proof. destruct x; try contradiction. intros _. exact I. Qed.

Lemma interpolateOKLCH_step_inGamut (colorA colorB : Color) (steps : nat)
    (options : GradientEngine.InterpolateOptions) (i : nat) :
  inGamut colorA -> inGamut colorB ->
  inGamut
    (GradientEngine.interpolateOKLCH_step sin colorA colorB steps options i).
Proof.
  intros HA HB.
  destruct (inGamut_inv colorA HA) as (la & ca & ha & El & Ec & Eh & _).
  destruct (inGamut_inv colorB HB) as (lb & cb & hb & El' & Ec' & Eh' & _).
  unfold GradientEngine.interpolateOKLCH_step.
  rewrite El, Ec, Eh, El', Ec', Eh'. cbn [nullish].
  assert (Et : of_nat i /! (of_nat steps +! 1)
               = Fin (inject_Z (Z.of_nat i)
                      / (inject_Z (Z.of_nat steps) + 1))).
  { unfold of_nat. num_red. apply div_Fin.
    assert (Hs : inject_Z 0 <= inject_Z (Z.of_nat steps))
      by (rewrite <- Zle_Qle; lia).
    change (inject_Z 0) with 0 in Hs. lra. }
  rewrite Et.
  set (t := inject_Z (Z.of_nat i) / (inject_Z (Z.of_nat steps) + 1)).
  unfold inGamut, inGamutUpTo, oklch. cbn [col_l col_c col_h to_num nullish].
  split; [| split].
  - apply clamp_range; [| discriminate]. unfold lerp.
    pose proof (applyEasing_finite (Fin t)
                  (GradientEngine.lightnessEase options) I).
    auto with fin.
  - apply clamp_range; [| discriminate]. unfold lerp.
    pose proof (Math_sin_finite (Fin t *! Math_PI) I).
    apply finite_if; auto 10 with fin.
  - apply interpolateHue_range.
Qed.

Lemma interpolateOKLCH_inGamut (colorA colorB : Color) (steps : nat)
    (options : GradientEngine.InterpolateOptions) :
  inGamut colorA -> inGamut colorB ->
  Forall inGamut
    (GradientEngine.interpolateOKLCH sin colorA colorB steps options).
Proof.
  intros HA HB. unfold GradientEngine.interpolateOKLCH.
  apply Forall_forall. intros s Hs. apply in_map_iff in Hs.
  destruct Hs as (i & <- & _). now apply interpolateOKLCH_step_inGamut.
Qed.

End InterpolatorRange.

Section CompanionRange.

Variable random : nat -> Q.
Hypothesis random_range : forall n : nat, 0 <= random n < 1.

Lemma companions_inGamut (input : Color)
    (options : VibeHarmony.CompanionOptions) (st : nat) :
  inGamut input ->
  Forall (fun e => inGamut (VibeHarmony.color e))
    (VibeHarmony.palette
       (fst (VibeHarmony.generateVibeCompanions random input options st))).
Proof.
  intro Hin.
  destruct (inGamut_inv input Hin)
    as (l & c & h & El & Ec & Eh & Hl & Hc & Hh).
  destruct (generateVibeCompanions_palette random input options st)
    as (cs & ns & unsorted & _ & _ & Eu & Ep).
  rewrite Ep. apply Forall_app. split.
  - destruct (VibeHarmony.includeInput options); repeat constructor;
      cbn [VibeHarmony.color col_l col_c col_h];
      rewrite ?El, ?Ec, ?Eh; cbn; lra.
  - apply Forall_forall. intros e He.
    apply (proj1 (Array_sort_In VibeHarmony.Companion _ e unsorted)) in He.
    revert e He. apply Forall_forall. rewrite Eu.
    apply neutralLoop_Forall.
    + intros i st'.
      destruct (generateGroundingNeutral_spec random input
                  (VibeHarmony.analyzeColorMood input) i st')
        as (lq & cq & hue & rl & E & _ & Hr & Hhue). rewrite E.
      destruct (Hr random_range) as [Hlq Hcq].
      cbn [fst VibeHarmony.color].
      unfold inGamut, inGamutUpTo, oklch.
      cbn [col_l col_c col_h to_num nullish between].
      repeat split; try lra.
      all: apply normalizeHue_below, Hhue; rewrite raw_analyze;
        cbn [raw_h]; rewrite Eh; exact I.
    + destruct (loop_count cs) as [| n] eqn:En; [constructor |].
      destruct (loop_count_pos cs n En) as (t & Et & Ht).
      apply chromaticLoop_Forall; [| constructor].
      intros i used st'.
      destruct (generateSingleCompanion_spec random input
                  (VibeHarmony.analyzeColorMood input) i cs used st')
        as (X & Y & hue & E & HX & HY & Hhue). rewrite E.
      rewrite strategy_analyze, raw_analyze in *.
      rewrite El, Ec, Eh in HX, HY, Hhue. cbn [nullish raw_h] in *.
      destruct (lightnessRange_finite
                  (mood (VibeHarmony.analyzeColorMood input))
                  (mkRaw (Fin l) (Fin c) (Fin h)) I) as [L1 L2].
      destruct (chromaRange_finite
                  (mood (VibeHarmony.analyzeColorMood input))
                  (mkRaw (Fin l) (Fin c) (Fin h)) I) as [C1 C2].
      cbn [fst VibeHarmony.color].
      unfold inGamut, inGamutUpTo, oklch.
      cbn [col_l col_c col_h to_num nullish].
      split; [| split].
      * apply between_weaken with (lo := 0.08) (hi := 0.95);
          [| discriminate | discriminate].
        apply clamp_range; [| discriminate].
        apply HX; [exact L1 | exact L2 | now exists t].
      * apply between_weaken with (lo := 0.01) (hi := 0.30);
          [| discriminate | discriminate].
        apply clamp_range; [| discriminate]. now apply HY.
      * apply normalizeHue_below. apply (below_finite 0 360). now apply Hhue.
Qed.

End CompanionRange.

(** ** The optimizer *)

Lemma inGamutUpTo_inv (cmax : Q) (s : Color) :
  inGamutUpTo cmax s ->
  exists (md : option string) (l c h : Q),
    s = mkColor md (Some (Fin l)) (Some (Fin c)) (Some (Fin h))
    /\ 0 <= l <= 1 /\ 0 <= c <= cmax /\ 0 <= h < 360.
Proof.
  destruct s as [md [[l| | |]|] [[c| | |]|] [[h| | |]|]];
    unfold inGamutUpTo; cbn; intros (Hl & Hc & Hh); try contradiction.
  exists md, l, c, h. repeat split; tauto.
Qed.

Lemma inGamutUpTo_weaken (cin cout : Q) (s : Color) :
  cin <= cout -> inGamutUpTo cin s -> inGamutUpTo cout s.
Proof.
  intros H (Hl & Hc & Hh). repeat split; try assumption;
    destruct (to_num (col_c s)); cbn in *; try contradiction; lra.
Qed.

Lemma Qhalf (x : Q) : x / 2 == x * 0.5.
Proof. field. Qed.

Lemma last_Forall (A : Type) (P : A -> Prop) (xs : list A) (d : A) :
  Forall P xs -> P d -> P (last xs d).
Proof.
  intros H Hd. induction H as [| x xs Hx Hxs IH]; [exact Hd |].
  destruct xs; [exact Hx | exact IH].
Qed.

Section OptimizerRange.

Variable options : GradientEngine.OptimizeOptions.
Variables cin cout : Q.
Hypothesis cin_nonneg : 0 <= cin.
Hypothesis cin_cout : cin <= cout.
Hypothesis boosted_cout :
  cin * (if GradientEngine.boostChroma options then 1.1 else 1) <= cout.
Hypothesis midpoint_cout :
  GradientEngine.boostChroma options = true -> 0.35 <= cout.

Lemma intermediateStops_gamut (a b : Color) :
  inGamutUpTo cin a -> inGamutUpTo cin b ->
  Forall (inGamutUpTo cout) (GradientEngine.intermediateStops options a b).
Proof.
  intros Ha Hb.
  destruct (inGamutUpTo_inv cin a Ha)
    as (ma & la & ca & ha & -> & Hla & Hca & Hha).
  destruct (inGamutUpTo_inv cin b Hb)
    as (mb & lb & cb & hb & -> & Hlb & Hcb & Hhb).
  unfold GradientEngine.intermediateStops.
  cbn [col_l col_c col_h nullish to_num].
  apply Forall_forall. intros s Hs. apply in_map_iff in Hs.
  destruct Hs as (x & <- & Hx).
  apply (proj1 (Array_sort_In _ _ x _)) in Hx.
  apply in_app_or in Hx. destruct Hx as [Hx | Hx].
  - destruct (GradientEngine.boostChroma options) eqn:Eboost;
      cbn [andb] in Hx; [| contradiction].
    destruct ((Fin ca >! 0.03) && (Fin cb >! 0.03)); [| contradiction].
    destruct Hx as [<- | []].
    cbn [GradientEngine.stop_color]. unfold inGamutUpTo, oklch.
    cbn [col_l col_c col_h to_num nullish]. split; [| split].
    + num_red. rewrite div_Fin_2. cbn [between]. rewrite Qhalf. lra.
    + apply between_weaken with (lo := 0) (hi := 0.35);
        [| lra | now apply midpoint_cout].
      apply clamp_range; [auto with fin | discriminate].
    + apply interpolateHue_range.
  - destruct (_ >! 90); [| contradiction].
    assert (Hq : forall t : Q, 0 <= t <= 1 ->
              inGamutUpTo cout
                (oklch (lerp (Fin la) (Fin lb) (Fin t))
                   (lerp (Fin ca) (Fin cb) (Fin t) *!
                    (if GradientEngine.boostChroma options
                     then Fin 1.1 else Fin 1))
                   (GradientEngine.interpolateHue (Fin ha) (Fin hb) (Fin t)
                      (GradientEngine.opt_huePath options)))).
    { intros t Ht. unfold inGamutUpTo, oklch, lerp.
      cbn [col_l col_c col_h to_num nullish]. split; [| split].
      - num_red. cbn [between]. nra.
      - destruct (GradientEngine.boostChroma options); num_red;
          cbn [between]; nra.
      - apply interpolateHue_range. }
    destruct Hx as [<- | [<- | []]]; cbn [GradientEngine.stop_color];
      apply Hq; lra.
Qed.

Lemma expandPairs_gamut (colors : list Color) :
  Forall (inGamutUpTo cin) colors ->
  Forall (inGamutUpTo cout) (GradientEngine.expandPairs options colors).
Proof.
  induction colors as [| a rest IH]; intro H;
    [constructor |].
  inversion H as [| ? ? Ha Hrest]; subst.
  destruct rest as [| b rest']; cbn [GradientEngine.expandPairs];
    [constructor |].
  constructor; [now apply inGamutUpTo_weaken with (cin := cin) |].
  apply Forall_app. split; [| now apply IH].
  destruct (GradientEngine.insertMidpoints options); [| constructor].
  inversion Hrest; subst. now apply intermediateStops_gamut.
Qed.

Lemma optimizeForGradient_gamut (colors : list Color) :
  Forall (inGamutUpTo cin) colors ->
  Forall (inGamutUpTo cout)
    (GradientEngine.optimizeForGradient colors options).
Proof.
  intro H.
  assert (Hw : Forall (inGamutUpTo cout) colors).
  { revert H. apply Forall_impl. intro s.
    now apply inGamutUpTo_weaken. }
  unfold GradientEngine.optimizeForGradient.
  destruct colors as [| a [| b rest]]; try exact Hw.
  apply Forall_app. split; [now apply expandPairs_gamut |].
  constructor; [| constructor].
  apply last_Forall; [exact Hw | now inversion Hw].
Qed.

End OptimizerRange.

(** ** The key-stop generators *)

Lemma GradientEngine_biasTowardRange_finite (hue lo hi strength : num) :
  finite hue -> finite lo -> finite hi -> finite strength ->
  finite (GradientEngine.biasTowardRange hue (lo, hi) strength).
Proof.
  intros. unfold GradientEngine.biasTowardRange. cbn [fst snd].
  auto 15 with fin.
Qed.

Ltac coordinate_bound :=
  first
    [ apply normalizeHue_below;
      auto 15 using GradientEngine_biasTowardRange_finite with fin
    | repeat (num_red; dec_cases); cbn [between below]; lra ].

Ltac stop_bounds :=
  repeat match goal with
         | |- Forall _ (_ :: _) => constructor
         | |- Forall _ [] => constructor
         end;
  unfold inGamutUpTo, chromaHueInGamut, oklch;
  cbn [col_l col_c col_h col_mode to_num nullish];
  repeat match goal with |- _ /\ _ => split end;
  coordinate_bound.

Section KeyStopRange.

Variable sin : Q -> Q.

Lemma chromaticArc_gamut (l c h : Q) (n : nat) :
  n <> 1%nat ->
  Forall (inGamutUpTo 0.28)
    (map (GradientEngine.chromaticArc_step sin l c h n) (seq 0 n)).
Proof.
  intro Hn. destruct n as [| [| n]]; [constructor | congruence |].
  apply Forall_forall. intros s Hs. apply in_map_iff in Hs.
  destruct Hs as (i & <- & _).
  rewrite chromaticArc_step_Fin by lia.
  unfold inGamutUpTo, oklch. cbn [col_l col_c col_h to_num nullish].
  split; [| split].
  - apply between_weaken with (lo := 0.25) (hi := 0.85);
      [apply clamp_between | |]; discriminate.
  - apply between_weaken with (lo := 0.08) (hi := 0.28);
      [apply clamp_between | |]; discriminate.
  - apply normQ_range.
Qed.

Lemma generateKeyStops_clamped (md : option string) (l c h : Q)
    (style : Style.t) (n : nat) :
  0 <= l <= 1 -> 0 <= c <= 0.4 -> 0 <= h < 360 ->
  clampedStyle style n ->
  Forall (inGamutUpTo (styleChroma style))
    (GradientEngine.generateKeyStops sin
       (mkColor md (Some (Fin l)) (Some (Fin c)) (Some (Fin h))) style n).
Proof.
  intros Hl Hc Hh Hs.
  destruct style; cbn [clampedStyle] in Hs; try contradiction;
    unfold GradientEngine.generateKeyStops;
    cbn [col_l col_c col_h col_mode nullish styleChroma];
    try (now apply chromaticArc_gamut); stop_bounds.
Qed.

Lemma generateKeyStops_chromaHue (md : option string) (l c h : Q)
    (style : Style.t) (n : nat) :
  0 <= l <= 1 -> 0 <= c <= 0.4 -> 0 <= h < 360 ->
  arcDefined style n ->
  Forall chromaHueInGamut
    (GradientEngine.generateKeyStops sin
       (mkColor md (Some (Fin l)) (Some (Fin c)) (Some (Fin h))) style n).
Proof.
  intros Hl Hc Hh Hs.
  assert (Harc : n <> 1%nat ->
            Forall chromaHueInGamut
              (map (GradientEngine.chromaticArc_step sin l c h n) (seq 0 n))).
  { intro Hn. generalize (chromaticArc_gamut l c h n Hn).
    apply Forall_impl. intros s (_ & H1 & H2). split; [| exact H2].
    apply between_weaken with (lo := 0) (hi := 0.28);
      [exact H1 | |]; discriminate. }
  destruct style; cbn [arcDefined] in Hs;
    unfold GradientEngine.generateKeyStops;
    cbn [col_l col_c col_h col_mode nullish];
    try (now apply Harc); stop_bounds.
Qed.

End KeyStopRange.

(** ** The gradient generator *)

Lemma generateVibeGradient_gamut (sin : Q -> Q) (base : Color)
    (options : GradientEngine.GradientOptions) :
  inGamut base ->
  let g := GradientEngine.generateVibeGradient sin base options in
  (arcDefined (style g) (GradientEngine.go_stops options) ->
   Forall chromaHueInGamut (keyStops g))
  /\ (clampedStyle (style g) (GradientEngine.go_stops options) ->
      Forall inGamut (keyStops g) /\ Forall inGamut (stops g)).
Proof.
  intros Hb g.
  destruct (inGamutUpTo_inv 0.4 base Hb)
    as (md & l & c & h & -> & Hl & Hc & Hh).
  set (base := mkColor md (Some (Fin l)) (Some (Fin c)) (Some (Fin h))) in *.
  assert (Ek : keyStops g
               = GradientEngine.generateKeyStops sin base (style g)
                   (GradientEngine.go_stops options)) by reflexivity.
  split; intro Hs.
  - rewrite Ek. now apply generateKeyStops_chromaHue.
  - pose proof (generateKeyStops_clamped sin md l c h (style g)
                  (GradientEngine.go_stops options) Hl Hc Hh Hs) as Hk.
    fold base in Hk. rewrite <- Ek in Hk.
    assert (Hq : 0 <= styleChroma (style g) <= 0.4)
      by (destruct (style g); cbn; lra).
    split.
    + revert Hk. apply Forall_impl. intro s.
      apply inGamutUpTo_weaken. lra.
    + change (stops g)
        with (GradientEngine.optimizeForGradient (keyStops g)
                (GradientEngine.mkOptimizeOptions (huePath g)
                   (negb (GradientEngine.style_eqb (style g) Style.atmospheric)
                    && negb (GradientEngine.style_eqb (style g) Style.noir))
                   true)).
      apply optimizeForGradient_gamut with (cin := styleChroma (style g));
        try lra; try exact Hk.
      cbn [GradientEngine.boostChroma].
      destruct (style g); cbn in Hs |- *; try contradiction; lra.
Qed.

(* ===================================================================== *)
(** * The range invariant of the generation operations *)
(* ===================================================================== *)


Section RangeInvariant.

Variable sin : Q -> Q.
Variable random : nat -> Q.
Hypothesis random_range : forall n : nat, 0 <= random n < 1.


End RangeInvariant.


(* ===================================================================== *)
(** * Further properties of the hue arithmetic *)
(* ===================================================================== *)

Lemma normQ_congr (p q : Q) (k : Z) :
  p == q + 360 * inject_Z k -> normQ p == normQ q.
Proof.
  intro E. destruct (normQ_shift q) as [j Ej].
  apply normQ_eq_of_shift with (k := (k - j)%Z); [apply normQ_range |].
  unfold Z.sub. rewrite inject_Z_plus, inject_Z_opp. lra.
Qed.

Lemma normQ_whole (z : Z) : normQ (inject_Z z) == inject_Z (z mod 360).
Proof.
  apply normQ_eq_of_shift with (k := (z / 360)%Z).
  - pose proof (Z.mod_pos_bound z 360 eq_refl) as H.
    split; [change 0 with (inject_Z 0); rewrite <- Zle_Qle; lia |].
    change 360 with (inject_Z 360). rewrite <- Zlt_Qlt. lia.
  - rewrite (Z.div_mod z 360) at 1 by discriminate.
    rewrite inject_Z_plus, inject_Z_mult. change (inject_Z 360) with 360.
    ring.
Qed.

(** X1: [normalizeHue] sends every finite number into [[0, 360)] and a
    whole number of degrees (of absolute value at most 2^53, so that a
    double holds it exactly) to its residue modulo 360; applied to the
    result for a non-negative hue it changes nothing; on an infinity or NaN
    it returns NaN. *)
Theorem X1_normalizeHue_canonical (q : Q) (z : Z) :
  below 0 360 (normalizeHue (Fin q))
  /\ ((Z.abs z <= 2 ^ 53)%Z ->
      same (normalizeHue (Fin (inject_Z z))) (Fin (inject_Z (z mod 360))))
  /\ (0 <= q ->
      same (normalizeHue (normalizeHue (Fin q))) (normalizeHue (Fin q)))
  /\ normalizeHue PInf = NaN /\ normalizeHue NInf = NaN
  /\ normalizeHue NaN = NaN.
Proof.
  rewrite !normalizeHue_Fin. cbn [below same].
  split; [apply normQ_range |].
  split; [intros _; apply normQ_whole |].
  split; [intros _; apply normQ_id, normQ_range |].
  repeat split; reflexivity.
Qed.

Lemma X1_witness :
  same (normalizeHue (normalizeHue (Fin 725.5))) (normalizeHue (Fin 725.5))
  /\ same (normalizeHue (Fin (inject_Z (-30)))) (Fin (inject_Z 330)).
Proof.
  split.
  - refine (proj1 (proj2 (proj2 (X1_normalizeHue_canonical 725.5 0))) _).
    discriminate.
  - refine (proj1 (proj2 (X1_normalizeHue_canonical 0 (-30))) _).
    vm_compute. discriminate.
Defined.

(** X2: for finite hues, whatever the path, and every factor [t] of
    absolute value at most 10^300 (well outside [[0, 1]], and small enough
    for the product with the delta not to overflow), [interpolateHue]
    returns a hue of [[0, 360)]. *)
Theorem X2_interpolateHue_in_range (h1 h2 t : Q) (path : Path.t) :
  Qabs t <= largestFactor ->
  below 0 360 (GradientEngine.interpolateHue (Fin h1) (Fin h2) (Fin t) path).
Proof. intros _. apply interpolateHue_range. Qed.

Lemma X2_witness :
  below 0 360
    (GradientEngine.interpolateHue (Fin 350) (Fin (-40)) (Fin (-2.5))
       Path.cool).
Proof.
  apply (X2_interpolateHue_in_range 350 (-40) (-2.5) Path.cool).
  vm_compute. discriminate.
Defined.

(** X3: [interpolateHue] does not guard its arguments: as soon as one of
    the two hues or [t] is NaN, the result is NaN, on every path. *)
Theorem X3_interpolateHue_propagates_NaN (h1 h2 t : num) (path : Path.t) :
  h1 = NaN \/ h2 = NaN \/ t = NaN ->
  GradientEngine.interpolateHue h1 h2 t path = NaN.
Proof.
  assert (Hn : forall x : num,
             (exists q : Q, normalizeHue x = Fin q) \/ normalizeHue x = NaN).
  { intros [q| | |]; [left; rewrite normalizeHue_Fin; now eexists | ..];
      right; reflexivity. }
  assert (Hadd : forall x : num, x +! NaN = NaN) by (now intros [q| | |]).
  assert (Hmul : forall x : num, x *! NaN = NaN) by (now intros [q| | |]).
  unfold GradientEngine.interpolateHue.
  change ((h1 %! 360 +! 360) %! 360) with (normalizeHue h1).
  change ((h2 %! 360 +! 360) %! 360) with (normalizeHue h2).
  intros [-> | [-> | ->]].
  - change (normalizeHue NaN) with NaN. destruct path; reflexivity.
  - change (normalizeHue NaN) with NaN.
    destruct (Hn h1) as [[q ->] | ->]; destruct path; reflexivity.
  - rewrite Hmul, Hadd. reflexivity.
Qed.

Lemma X3_witness :
  GradientEngine.interpolateHue (Fin 10) NaN (Fin 0.5) Path.warm = NaN.
Proof.
  apply (X3_interpolateHue_propagates_NaN (Fin 10) NaN (Fin 0.5) Path.warm).
  right; left; reflexivity.
Defined.

(** Two hues are equal up to whole turns exactly when their distance on the
    wheel is 0. *)
Lemma hueArc_zero (h1 h2 : Q) : hueArc h1 h2 0 <-> normQ h1 == normQ h2.
Proof.
  split.
  - intros (_ & k & E).
    destruct (Qabs_cases (h1 - h2 + 360 * inject_Z k)) as [A | A];
      rewrite A in E;
      apply normQ_congr with (k := (- k)%Z); rewrite inject_Z_opp; lra.
  - intro E. destruct (normQ_shift h1) as [j1 E1].
    destruct (normQ_shift h2) as [j2 E2].
    split; [lra |]. exists (j1 - j2)%Z.
    assert (Z0 : h1 - h2 + 360 * inject_Z (j1 - j2) == 0)
      by (push_inject; lra).
    rewrite Z0. reflexivity.
Qed.

(** The delta of the long path in exact arithmetic. *)
Lemma long_delta (h1 h2 : Q) :
  exists d : Q,
    GradientEngine.resolveDelta (normalizeHue (Fin h1)) (normalizeHue (Fin h2))
      Path.long = Fin d
    /\ (d == 0 \/ 180 <= d < 360 \/ -360 < d <= -180)
    /\ (d == 0 <-> normQ h1 == normQ h2).
Proof.
  rewrite !normalizeHue_Fin.
  pose proof (normQ_range h1) as R1. pose proof (normQ_range h2) as R2.
  unfold GradientEngine.resolveDelta, GradientEngine.longWay.
  num_red. dec_cases; num_red; dec_cases; num_red; dec_cases;
    eexists; (split; [reflexivity |]); split; try lra; split; intro; lra.
Qed.

(** X4: on the 'long' path the signed delta between two finite hues is 0
    or at least 180 and at most 360 in absolute value: the long arc is never
    shorter than half a turn.  Between a hue and itself the delta is 0, and
    between two hues given in whole degrees it is 0 exactly when the hues
    are equal up to whole turns: equal hues are not moved around the
    wheel. *)
Theorem X4_long_delta_at_least_half_turn (h1 h2 : Q) :
  exists d : Q,
    GradientEngine.resolveDelta (normalizeHue (Fin h1)) (normalizeHue (Fin h2))
      Path.long = Fin d
    /\ (d == 0 \/ 180 <= d <= 360 \/ -360 <= d <= -180)
    /\ (exists d0 : Q,
           GradientEngine.resolveDelta (normalizeHue (Fin h1))
             (normalizeHue (Fin h1)) Path.long = Fin d0
           /\ d0 == 0)
    /\ (wholeDegrees h1 -> wholeDegrees h2 ->
        (d == 0 <-> hueArc h1 h2 0)).
Proof.
  destruct (long_delta h1 h2) as (d & E & Hd & Hz).
  exists d. split; [exact E |]. split; [lra |]. split.
  - rewrite normalizeHue_Fin.
    unfold GradientEngine.resolveDelta, GradientEngine.longWay.
    num_red. dec_cases; num_red; dec_cases; num_red; dec_cases;
      try (exfalso; lra); eexists; (split; [reflexivity | lra]).
  - intros _ _. rewrite hueArc_zero. exact Hz.
Qed.

Lemma X4_witness :
  exists d : Q,
    GradientEngine.resolveDelta (normalizeHue (Fin 10)) (normalizeHue (Fin 730))
      Path.long = Fin d
    /\ d == 0.
Proof.
  destruct (X4_long_delta_at_least_half_turn 10 730)
    as (d & E & _ & _ & H).
  exists d. split; [exact E |].
  apply H;
    [exists 10%Z | exists 730%Z |];
    try (split; [vm_compute; discriminate | reflexivity]).
  split; [split; discriminate |]. exists 2%Z. reflexivity.
Defined.

(** Swapping the two hues negates the delta, on every path: the warm and
    cool tests look at the midpoint of the short arc, which is the same
    point whichever end the arc is walked from. *)
Lemma resolveDelta_reverse (a b : Q) (path : Path.t) :
  0 <= a < 360 -> 0 <= b < 360 ->
  exists d d' : Q,
    GradientEngine.resolveDelta (Fin a) (Fin b) path = Fin d
    /\ GradientEngine.resolveDelta (Fin b) (Fin a) path = Fin d'
    /\ d' == - d.
Proof.
  intros Ha Hb.
  unfold GradientEngine.resolveDelta, GradientEngine.longWay,
    GradientEngine.shortDiff.
  destruct path; num_red.
  - dec_cases; num_red; dec_cases; do 2 eexists;
      (split; [reflexivity |]); (split; [reflexivity |]); lra.
  - dec_cases; num_red; dec_cases; num_red; dec_cases; do 2 eexists;
      (split; [reflexivity |]); (split; [reflexivity |]); lra.
  - dec_cases; num_red; rewrite ?div_Fin_2; num_red;
      rewrite ?normalizeHue_Fin; try (exfalso; lra);
      match goal with
      | |- context [normQ ?p] =>
          match goal with
          | |- context [normQ ?q] =>
              lazymatch q with
              | p => fail
              | _ =>
                  assert (normQ p == normQ q)
                    by first
                         [ apply normQ_congr with (k := 0%Z);
                           unfold inject_Z; field
                         | apply normQ_congr with (k := 1%Z);
                           unfold inject_Z; field
                         | apply normQ_congr with (k := (-1)%Z);
                           unfold inject_Z; field ]
              end
          end
      end;
      num_red; dec_cases; num_red; dec_cases; num_red; dec_cases;
      try (exfalso; lra);
      do 2 eexists; (split; [reflexivity |]); (split; [reflexivity |]); lra.
  - dec_cases; num_red; rewrite ?div_Fin_2; num_red;
      rewrite ?normalizeHue_Fin; try (exfalso; lra);
      match goal with
      | |- context [normQ ?p] =>
          match goal with
          | |- context [normQ ?q] =>
              lazymatch q with
              | p => fail
              | _ =>
                  assert (normQ p == normQ q)
                    by first
                         [ apply normQ_congr with (k := 0%Z);
                           unfold inject_Z; field
                         | apply normQ_congr with (k := 1%Z);
                           unfold inject_Z; field
                         | apply normQ_congr with (k := (-1)%Z);
                           unfold inject_Z; field ]
              end
          end
      end;
      num_red; dec_cases; num_red; dec_cases; num_red; dec_cases;
      try (exfalso; lra);
      do 2 eexists; (split; [reflexivity |]); (split; [reflexivity |]); lra.
Qed.

(** X5: walking a hue path backwards gives the same hues.  Between two
    hues given in whole degrees and at the quarter positions [t] = 0, 1/4,
    1/2, 3/4, 1 (those the optimizer asks for), on every path,
    [interpolateHue(h2, h1, 1 - t, path)] is
    [interpolateHue(h1, h2, t, path)]; a separation of exactly 180 degrees
    makes no exception. *)
Theorem X5_interpolateHue_reversal (h1 h2 t : Q) (path : Path.t) :
  wholeDegrees h1 -> wholeDegrees h2 ->
  (exists m : Z, (0 <= m <= 4)%Z /\ t == inject_Z m * (1 # 4)) ->
  same (GradientEngine.interpolateHue (Fin h2) (Fin h1) (Fin (1 - t)) path)
       (GradientEngine.interpolateHue (Fin h1) (Fin h2) (Fin t) path).
Proof.
  intros _ _ _.
  pose proof (normQ_range h1) as R1. pose proof (normQ_range h2) as R2.
  destruct (resolveDelta_reverse (normQ h1) (normQ h2) path R1 R2)
    as (d & d' & E & E' & Hd').
  destruct (resolveDelta_shift (normQ h1) (normQ h2) path)
    as (d0 & k & E0 & Hd0).
  rewrite E in E0. injection E0 as <-.
  unfold GradientEngine.interpolateHue.
  change ((Fin h1 %! 360 +! 360) %! 360) with (normalizeHue h1).
  change ((Fin h2 %! 360 +! 360) %! 360) with (normalizeHue h2).
  rewrite !normalizeHue_Fin, E, E'. num_red. rewrite !normalizeHue_Fin.
  cbn [same]. apply normQ_congr with (k := (- k)%Z).
  rewrite inject_Z_opp. rewrite Hd'. lra.
Qed.

Lemma X5_witness :
  same (GradientEngine.interpolateHue (Fin 200) (Fin 20) (Fin (1 - 0.25))
          Path.warm)
       (GradientEngine.interpolateHue (Fin 20) (Fin 200) (Fin 0.25)
          Path.warm).
Proof.
  apply (X5_interpolateHue_reversal 20 200 0.25 Path.warm).
  - exists 20%Z. split; [vm_compute; discriminate | reflexivity].
  - exists 200%Z. split; [vm_compute; discriminate | reflexivity].
  - exists 1%Z. split; [lia | reflexivity].
Defined.



(** X6: for finite hues [getHueDistance] is symmetric in its two hues; on
    the short, warm and cool paths it is the short distance, a number of
    [[0, 180]], and on the long path it is 360 minus that number.  The short
    distance is the distance of the two hues on the wheel: to the margin of
    10^-9 for any two hues, and exactly for hues given in whole degrees. *)
Theorem X6_getHueDistance_range_and_symmetry (h1 h2 : Q) (path : Path.t) :
  exists short : Q,
    0 <= short <= 180
    /\ GradientEngine.getHueDistance (Fin h1) (Fin h2) Path.short = Fin short
    /\ GradientEngine.getHueDistance (Fin h1) (Fin h2) path
       = Fin (match path with Path.long => 360 + - short | _ => short end)
    /\ GradientEngine.getHueDistance (Fin h2) (Fin h1) path
       = GradientEngine.getHueDistance (Fin h1) (Fin h2) path
    /\ (forall d : Q,
           hueArc h1 h2 d ->
           Qabs (short - d) <= hueTolerance
           /\ (wholeDegrees h1 -> wholeDegrees h2 -> short == d)).
Proof.
  destruct (getHueDistance_Fin h1 h2 Path.short)
    as (s0 & Hs0 & Hle0 & Hgt0 & E0).
  assert (Es : GradientEngine.getHueDistance (Fin h1) (Fin h2) path
               = match path with
                 | Path.long =>
                     360 -! GradientEngine.getHueDistance (Fin h1) (Fin h2)
                              Path.short
                 | _ => GradientEngine.getHueDistance (Fin h1) (Fin h2)
                          Path.short
                 end) by (destruct path; reflexivity).
  exists s0. split; [exact Hs0 |]. split; [exact E0 |].
  split; [rewrite Es, E0; destruct path; reflexivity |].
  split.
  - unfold GradientEngine.getHueDistance. rewrite !normalizeHue_Fin. num_red.
    assert (Ea : Qabs (normQ h1 + - normQ h2) = Qabs (normQ h2 + - normQ h1))
      by exact (Qabs_Qminus (normQ h1) (normQ h2)).
    rewrite Ea. reflexivity.
  - intros d Harc.
    destruct (getHueDistance_arc h1 h2 d Path.short Harc) as (s & Es' & E').
    rewrite E0 in E'. injection E' as <-.
    split; [| intros _ _; exact Es'].
    assert (Z0 : s0 - d == 0) by lra. rewrite Z0. discriminate.
Qed.

Lemma X6_witness :
  exists short : Q,
    GradientEngine.getHueDistance (Fin 350) (Fin 20) Path.short = Fin short
    /\ short == 30.
Proof.
  destruct (X6_getHueDistance_range_and_symmetry 350 20 Path.short)
    as (s & _ & E & _ & _ & H).
  exists s. split; [exact E |].
  apply (H 30);
    [| exists 350%Z; split; [vm_compute; discriminate | reflexivity]
     | exists 20%Z; split; [vm_compute; discriminate | reflexivity]].
  split; [split; discriminate |]. exists (-1)%Z. reflexivity.
Defined.

(** X7: the optimizer's hue distance and the resolver's delta are computed
    apart.  On the short path they agree: the distance is the absolute
    value of the delta.  On the long path they agree unless the two
    normalized hues coincide, where the delta is 0 and the distance 360. *)
Theorem X7_hue_distance_against_delta (h1 h2 : Q) :
  (exists d dist : Q,
      GradientEngine.resolveDelta (normalizeHue (Fin h1))
        (normalizeHue (Fin h2)) Path.short = Fin d
      /\ GradientEngine.getHueDistance (Fin h1) (Fin h2) Path.short = Fin dist
      /\ dist == Qabs d)
  /\ (exists d dist : Q,
        GradientEngine.resolveDelta (normalizeHue (Fin h1))
          (normalizeHue (Fin h2)) Path.long = Fin d
        /\ GradientEngine.getHueDistance (Fin h1) (Fin h2) Path.long
           = Fin dist
        /\ ((normQ h1 == normQ h2 /\ d == 0 /\ dist == 360)
            \/ (~ normQ h1 == normQ h2 /\ dist == Qabs d))).
Proof.
  pose proof (normQ_range h1) as R1. pose proof (normQ_range h2) as R2.
  rewrite !normalizeHue_Fin.
  assert (Hcase : forall x : Q,
             (0 <= x /\ Qabs x == x) \/ (x < 0 /\ Qabs x == - x)).
  { intro x. destruct (Qlt_le_dec x 0) as [H | H];
      [right; split; [exact H | apply Qabs_neg; lra]
      | left; split; [exact H | now apply Qabs_pos]]. }
  split.
  - destruct (getHueDistance_Fin h1 h2 Path.short) as (s & Hs & Hle & Hgt & E).
    unfold GradientEngine.resolveDelta. num_red.
    destruct (Hcase (normQ h2 - normQ h1)) as [[H0 Ea] | [H0 Ea]];
      unfold Qminus in *;
      dec_cases; num_red; dec_cases; do 2 eexists;
      (split; [reflexivity |]); (split; [exact E |]);
      match goal with
      | |- _ == Qabs ?d =>
          destruct (Hcase d) as [[Hd Ed] | [Hd Ed]]; rewrite Ed
      end;
      (destruct (Qlt_le_dec 180 (Qabs (normQ h2 + - normQ h1))) as [G | G];
       [pose proof (Hgt G) | pose proof (Hle G)]; lra).
  - destruct (getHueDistance_Fin h1 h2 Path.long) as (s & Hs & Hle & Hgt & E).
    unfold GradientEngine.resolveDelta, GradientEngine.longWay. num_red.
    destruct (Hcase (normQ h2 - normQ h1)) as [[H0 Ea] | [H0 Ea]];
      unfold Qminus in *;
      dec_cases; num_red; dec_cases; num_red; dec_cases; do 2 eexists;
      (split; [reflexivity |]); (split; [exact E |]);
      match goal with
      | |- _ \/ (_ /\ _ == Qabs ?d) =>
          destruct (Hcase d) as [[Hd Ed] | [Hd Ed]];
            (destruct (Qeq_dec (normQ h1) (normQ h2)) as [Heq | Hne];
             [ left | right; split; [exact Hne | rewrite Ed] ])
      end;
      (destruct (Qlt_le_dec 180 (Qabs (normQ h2 + - normQ h1))) as [G | G];
       [pose proof (Hgt G) | pose proof (Hle G)];
       first [ lra | split; [lra | split; lra] | exfalso; apply Hne; lra ]).
Qed.

(* ===================================================================== *)
(** * Further properties of the optimizer and of the interpolator *)
(* ===================================================================== *)

Lemma intermediateStops_length (options : GradientEngine.OptimizeOptions)
    (a b : Color) :
  (List.length (GradientEngine.intermediateStops options a b) <= 3)%nat.
Proof.
  unfold GradientEngine.intermediateStops. cbv zeta.
  rewrite length_map, Array_sort_length, length_app.
  destruct (_ && _), (_ >! 90); cbn [List.length]; lia.
Qed.

Lemma last_app_nonempty (A : Type) (xs ys : list A) (d : A) :
  ys <> [] -> last (xs ++ ys) d = last ys d.
Proof.
  intro Hy. induction xs as [| x xs IH]; [reflexivity |].
  cbn [app]. destruct (xs ++ ys) as [| z zs] eqn:E.
  - apply app_eq_nil in E. destruct E. congruence.
  - exact IH.
Qed.

Lemma last_default (A : Type) (xs : list A) (d d' : A) :
  xs <> [] -> last xs d = last xs d'.
Proof.
  intro H. induction xs as [| x xs IH]; [congruence |].
  destruct xs as [| y ys]; [reflexivity |]. apply IH. discriminate.
Qed.

Lemma expandPairs_shape (options : GradientEngine.OptimizeOptions)
    (colors : list Color) (d : Color) :
  colors <> [] ->
  let out := GradientEngine.expandPairs options colors ++ [last colors d] in
  (List.length colors <= List.length out <= 4 * List.length colors - 3)%nat
  /\ hd_error out = hd_error colors
  /\ last out d = last colors d
  /\ incl colors out
  /\ (GradientEngine.insertMidpoints options = false -> out = colors).
Proof.
  induction colors as [| a rest IH]; [congruence |]. intros _ out. subst out.
  destruct rest as [| b rest'].
  - cbn. repeat split; try lia; try reflexivity. apply incl_refl.
  - assert (Hne : b :: rest' <> []) by discriminate.
    specialize (IH Hne). cbv zeta in IH.
    destruct IH as (Hlen & Hhd & Hlast & Hincl & Hid).
    change (last (a :: b :: rest') d) with (last (b :: rest') d).
    set (mid := if GradientEngine.insertMidpoints options
                then GradientEngine.intermediateStops options a b else []).
    assert (Eexp : GradientEngine.expandPairs options (a :: b :: rest')
                   = a :: mid ++ GradientEngine.expandPairs options
                                   (b :: rest')) by reflexivity.
    rewrite Eexp. clear Eexp.
    assert (Hmid : (List.length mid <= 3)%nat)
      by (unfold mid; destruct (GradientEngine.insertMidpoints options);
          [apply intermediateStops_length | cbn; lia]).
    set (tl := GradientEngine.expandPairs options (b :: rest')
               ++ [last (b :: rest') d]) in *.
    replace ((a :: mid ++ GradientEngine.expandPairs options (b :: rest'))
             ++ [last (b :: rest') d]) with (a :: mid ++ tl)
      by (unfold tl; cbn [app]; now rewrite app_assoc).
    repeat split.
    + cbn [List.length] in *. rewrite length_app. lia.
    + cbn [List.length] in *. rewrite length_app. lia.
    + assert (Ht : mid ++ tl <> [])
        by (intro H; apply app_eq_nil in H; destruct H as [_ H];
            unfold tl in H; apply app_eq_nil in H; destruct H; discriminate).
      destruct (mid ++ tl) as [| x xs] eqn:Ex; [congruence |].
      change (last (a :: x :: xs) d) with (last (x :: xs) d).
      rewrite <- Ex, last_app_nonempty; [exact Hlast |].
      unfold tl. intro H. apply app_eq_nil in H. destruct H; discriminate.
    + intros x [<- | Hx]; [now left |]. right. apply in_or_app. right.
      now apply Hincl.
    + intro Hoff. unfold mid. rewrite Hoff. cbn [app]. f_equal.
      now apply Hid.
Qed.

(** X8: with [insertMidpoints] off, [optimizeForGradient] returns the list
    of colours it was given, whatever the colours (also malformed ones) and
    the other options. *)
Theorem X8_optimize_without_midpoints_is_identity
    (colors : list Color) (options : GradientEngine.OptimizeOptions) :
  GradientEngine.insertMidpoints options = false ->
  GradientEngine.optimizeForGradient colors options = colors.
Proof.
  intro Hoff. unfold GradientEngine.optimizeForGradient.
  destruct colors as [| a [| b rest]]; try reflexivity.
  apply (expandPairs_shape options (a :: b :: rest) a); [discriminate | exact Hoff].
Qed.

Lemma X8_witness :
  GradientEngine.optimizeForGradient
    [oklch 0.5 0.2 0; oklch 0.5 0.2 200; oklch NaN 0.2 20]
    (GradientEngine.mkOptimizeOptions Path.warm true false)
  = [oklch 0.5 0.2 0; oklch 0.5 0.2 200; oklch NaN 0.2 20].
Proof.
  apply (X8_optimize_without_midpoints_is_identity
           [oklch 0.5 0.2 0; oklch 0.5 0.2 200; oklch NaN 0.2 20]
           (GradientEngine.mkOptimizeOptions Path.warm true false)).
  reflexivity.
Defined.

Lemma optimizeForGradient_shape
    (colors : list Color) (options : GradientEngine.OptimizeOptions)
    (d : Color) :
  let out := GradientEngine.optimizeForGradient colors options in
  (List.length colors <= List.length out <= 4 * List.length colors - 3)%nat
  /\ hd_error out = hd_error colors
  /\ last out d = last colors d
  /\ incl colors out.
Proof.
  intro out. subst out. unfold GradientEngine.optimizeForGradient.
  destruct colors as [| a [| b rest]].
  - cbn. repeat split; try lia. apply incl_refl.
  - cbn. repeat split; try lia. apply incl_refl.
  - assert (Hne : a :: b :: rest <> []) by discriminate.
    destruct (expandPairs_shape options (a :: b :: rest) a Hne)
      as (Hlen & Hhd & Hlast & Hincl & _).
    repeat split; try tauto.
    set (out := GradientEngine.expandPairs options (a :: b :: rest)
                ++ [last (a :: b :: rest) a]) in *.
    assert (Hout : out <> [])
      by (unfold out; intro H; apply app_eq_nil in H; destruct H;
          discriminate).
    rewrite (last_default Color out d a Hout), Hlast.
    now apply last_default.
Qed.

(** X9: [optimizeForGradient] only adds stops, at most three per adjacent
    pair: from [n] colours it returns between [n] and [4n - 3] stops (none
    from none); the first and the last stop are the first and the last
    input colour, and every input colour is among the stops. *)
Theorem X9_optimize_only_inserts
    (colors : list Color) (options : GradientEngine.OptimizeOptions)
    (d : Color) :
  let out := GradientEngine.optimizeForGradient colors options in
  (List.length colors <= List.length out <= 4 * List.length colors - 3)%nat
  /\ hd_error out = hd_error colors
  /\ last out d = last colors d
  /\ incl colors out.
Proof. apply optimizeForGradient_shape. Qed.


(** X10: only the chromatic arc honours the requested number of stops: the
    seven other generators return three key stops whatever [stops] is, the
    chromatic arc (also the fallback for a style name that is no key of
    the generator table and no inherited member) returns exactly [stops] of
    them.  The expanded stops are never fewer than the
    key stops, at most [4n - 3] for [n] key stops, and begin and end with
    the first and the last key stop. *)
Theorem X10_gradient_stop_counts (sin : Q -> Q) (base : Color)
    (options : GradientEngine.GradientOptions) (d : Color) :
  let g := GradientEngine.generateVibeGradient sin base options in
  List.length (keyStops g)
  = match style g with
    | Style.chromatic_arc | Style.other _ _ => GradientEngine.go_stops options
    | _ => 3%nat
    end
  /\ (List.length (keyStops g) <= List.length (stops g)
      <= 4 * List.length (keyStops g) - 3)%nat
  /\ hd_error (stops g) = hd_error (keyStops g)
  /\ last (stops g) d = last (keyStops g) d.
Proof.
  intro g. split.
  - change (keyStops g)
      with (GradientEngine.generateKeyStops sin base (style g)
              (GradientEngine.go_stops options)).
    destruct (style g); cbn [GradientEngine.generateKeyStops];
      try reflexivity; now rewrite length_map, length_seq.
  - change (stops g)
      with (GradientEngine.optimizeForGradient (keyStops g)
              (GradientEngine.mkOptimizeOptions (huePath g)
                 (negb (GradientEngine.style_eqb (style g) Style.atmospheric)
                  && negb (GradientEngine.style_eqb (style g) Style.noir))
                 true)).
    pose proof (optimizeForGradient_shape (keyStops g)
                  (GradientEngine.mkOptimizeOptions (huePath g)
                     (negb (GradientEngine.style_eqb (style g)
                              Style.atmospheric)
                      && negb (GradientEngine.style_eqb (style g) Style.noir))
                     true) d) as H.
    cbv zeta in H. tauto.
Qed.

(** X11: with both the style and the hue path left to 'auto', the path is
    read off the mood of the base colour: warm for 'earthy' and
    'botanical', cool for 'dreamy' and 'ethereal', warm or cool for
    'balanced' according to whether the base hue exceeds 180, and short for
    'moody', 'serene', 'jewel', 'pop' and 'noir'.  The long path is never
    chosen, and a 'serene' colour, whose style is 'atmospheric', does not
    get the cool path. *)
Theorem X11_auto_hue_path (sin : Q -> Q) (base : Color) (n : nat) :
  let g :=
    GradientEngine.generateVibeGradient sin base
      (GradientEngine.mkGradientOptions None n None) in
  huePath g
  = match mood (VibeHarmony.analyzeColorMood base) with
    | Mood.earthy | Mood.botanical => Path.warm
    | Mood.dreamy | Mood.ethereal => Path.cool
    | Mood.balanced =>
        if (col_h base ?? 0) >! 180 then Path.warm else Path.cool
    | Mood.moody | Mood.serene | Mood.jewel | Mood.pop | Mood.noir =>
        Path.short
    end
  /\ huePath g <> Path.long.
Proof.
  intro g.
  assert (E : huePath g
              = GradientEngine.determineHuePath base
                  (GradientEngine.mapMoodToGradientStyle
                     (VibeHarmony.analyzeColorMood base))) by reflexivity.
  rewrite E. unfold GradientEngine.mapMoodToGradientStyle.
  destruct (mood (VibeHarmony.analyzeColorMood base));
    cbn [GradientEngine.determineHuePath];
    try (split; [reflexivity | discriminate]);
    destruct (_ >! 180); split; try reflexivity; discriminate.
Qed.

(** X12: each easing curve fixes 0 and 1 and keeps [[0, 1]] inside
    [[0, 1]], so an eased lightness never overshoots its two ends. *)
Theorem X12_applyEasing_unit_interval (t : Q) (easing : Ease.t) :
  0 <= t <= 1 ->
  between 0 1 (GradientEngine.applyEasing (Fin t) easing)
  /\ same (GradientEngine.applyEasing (Fin 0) easing) (Fin 0)
  /\ same (GradientEngine.applyEasing (Fin 1) easing) (Fin 1).
Proof.
  intro Ht. split; [| split; destruct easing; vm_compute; reflexivity].
  destruct easing; cbn [GradientEngine.applyEasing]; num_red.
  - cbn [between]. lra.
  - destruct (Qlt_le_dec t 0.5); num_red; rewrite ?div_Fin_2; num_red;
      cbn [between]; rewrite ?Qhalf; nra.
  - cbn [between]. nra.
  - cbn [between]. nra.
Qed.

Lemma X12_witness :
  between 0 1 (GradientEngine.applyEasing (Fin 0.75) Ease.ease).
Proof.
  apply (X12_applyEasing_unit_interval 0.75 Ease.ease).
  split; discriminate.
Defined.

Lemma same_trans (x y z : num) : same x y -> same y z -> same x z.
Proof.
  destruct x, y, z; cbn [same]; try contradiction; try tauto.
  intros H1 H2. now rewrite H1.
Qed.

Lemma sameCoords_trans (s1 s2 s3 : Color) :
  sameCoords s1 s2 -> sameCoords s2 s3 -> sameCoords s1 s3.
Proof.
  intros (A1 & A2 & A3) (B1 & B2 & B3).
  repeat split; eapply same_trans; eassumption.
Qed.

Section InterpolatorEnds.

Variable sin : Q -> Q.

Lemma interpolateOKLCH_step_end (md md' : option string)
    (la ca ha lb cb hb : Q) (steps : nat)
    (options : GradientEngine.InterpolateOptions) (i : nat) (e : Q) :
  0 <= la <= 1 -> 0 <= ca <= 0.4 -> 0 <= ha < 360 ->
  0 <= lb <= 1 -> 0 <= cb <= 0.4 -> 0 <= hb < 360 ->
  (e == 0 \/ e == 1) ->
  inject_Z (Z.of_nat i) / (inject_Z (Z.of_nat steps) + 1) == e ->
  sameCoords
    (GradientEngine.interpolateOKLCH_step sin
       (mkColor md (Some (Fin la)) (Some (Fin ca)) (Some (Fin ha)))
       (mkColor md' (Some (Fin lb)) (Some (Fin cb)) (Some (Fin hb)))
       steps options i)
    (oklch (Fin (la + (lb - la) * e)) (Fin (ca + (cb - ca) * e))
           (Fin (ha + (hb - ha) * e))).
Proof.
  intros Hla Hca Hha Hlb Hcb Hhb He Et.
  unfold GradientEngine.interpolateOKLCH_step. cbn [col_l col_c col_h nullish].
  assert (Ediv : of_nat i /! (of_nat steps +! 1)
                 = Fin (inject_Z (Z.of_nat i)
                        / (inject_Z (Z.of_nat steps) + 1))).
  { unfold of_nat. num_red. apply div_Fin.
    assert (Hs : inject_Z 0 <= inject_Z (Z.of_nat steps))
      by (rewrite <- Zle_Qle; lia).
    change (inject_Z 0) with 0 in Hs. lra. }
  rewrite Ediv.
  set (t := inject_Z (Z.of_nat i) / (inject_Z (Z.of_nat steps) + 1)) in *.
  clearbody t.
  assert (Hease : exists et : Q,
             GradientEngine.applyEasing (Fin t)
               (GradientEngine.lightnessEase options) = Fin et /\ et == e).
  { destruct (GradientEngine.lightnessEase options);
      cbn [GradientEngine.applyEasing]; num_red.
    - eexists. split; [reflexivity | exact Et].
    - destruct (Qlt_le_dec t 0.5); num_red; rewrite ?div_Fin_2;
        eexists; (split; [reflexivity |]); rewrite ?Qhalf;
        destruct He as [He | He]; rewrite He in Et; rewrite ?Et; lra.
    - eexists. split; [reflexivity |].
      destruct He as [He | He]; rewrite He in Et; rewrite Et; lra.
    - eexists. split; [reflexivity |].
      destruct He as [He | He]; rewrite He in Et; rewrite Et; lra. }
destruct Hease as (et & Eet & Het). rewrite Eet.
  assert (Hc : (GradientEngine.chromaBoost options && (Fin t >! 0.2)
                && (Fin t <! 0.8)) = false).
  { destruct (GradientEngine.chromaBoost options); [| reflexivity].
    cbn [andb]. num_red.
    destruct (Qlt_le_dec 0.2 t), (Qlt_le_dec t 0.8); try reflexivity.
    destruct He as [He | He]; rewrite He in Et; lra. }
rewrite Hc.
  destruct (interpolateHue_Fin ha hb t (GradientEngine.int_huePath options))
    as (d & k & _ & Hd & Eh).
  rewrite Eh. unfold lerp. num_red.
  unfold sameCoords, oklch. cbn [col_l col_c col_h to_num nullish].
  pose proof (normQ_id ha Hha) as Na. pose proof (normQ_id hb Hhb) as Nb.
  assert (Hlq : la + (lb + - la) * et == la + (lb - la) * e)
    by (rewrite Het; ring).
  assert (Hcq : ca + (cb + - ca) * t == ca + (cb - ca) * e)
    by (rewrite Et; ring).
  assert (Hle : 0 <= la + (lb - la) * e <= 1)
    by (destruct He as [He | He]; rewrite He; lra).
  assert (Hce : 0 <= ca + (cb - ca) * e <= 0.4)
    by (destruct He as [He | He]; rewrite He; lra).
split; [| split].
  - destruct (clamp_Fin (la + (lb + - la) * et) 0 1) as (y & Ey & _ & Hy);
      [discriminate |].
    rewrite Ey. cbn [same]. rewrite Hy by lra. exact Hlq.
  - destruct (clamp_Fin (ca + (cb + - ca) * t) 0 0.4) as (y & Ey & _ & Hy);
      [discriminate |].
    rewrite Ey. cbn [same]. rewrite Hy by lra. exact Hcq.
  - cbn [same].
    assert (Hdt : d * t == d * e) by (apply Qmult_comp; [reflexivity | exact Et]).
    destruct He as [He | He].
    + assert (Hde : d * e == 0) by (rewrite He; ring).
      assert (Hhe : (hb - ha) * e == 0) by (rewrite He; ring).
      apply normQ_eq_of_shift with (k := 0%Z); [lra |].
      unfold inject_Z. lra.
    + assert (Hde : d * e == d) by (rewrite He; ring).
      assert (Hhe : (hb - ha) * e == hb - ha) by (rewrite He; ring).
      apply normQ_eq_of_shift with (k := k); [lra |]. lra.
Qed.

(** The two ends of [interpolateOKLCH] in exact arithmetic. *)
Lemma interpolateOKLCH_ends (colorA colorB : Color) (steps : nat)
    (options : GradientEngine.InterpolateOptions) (d : Color) :
  inGamut colorA -> inGamut colorB ->
  let out :=
    GradientEngine.interpolateOKLCH sin colorA colorB steps options in
  List.length out = (steps + 2)%nat
  /\ sameCoords (hd d out) colorA
  /\ sameCoords (last out d) colorB.
Proof.
  intros HA HB out. subst out.
  destruct (inGamutUpTo_inv 0.4 colorA HA)
    as (ma & la & ca & ha & -> & Hla & Hca & Hha).
  destruct (inGamutUpTo_inv 0.4 colorB HB)
    as (mb & lb & cb & hb & -> & Hlb & Hcb & Hhb).
  unfold GradientEngine.interpolateOKLCH.
  split; [now rewrite length_map, length_seq |].
  assert (Hs : inject_Z 0 <= inject_Z (Z.of_nat steps))
    by (rewrite <- Zle_Qle; lia).
  change (inject_Z 0) with 0 in Hs.
  split.
  - replace (steps + 2)%nat with (S (steps + 1)) by lia.
    cbn [seq map hd].
    eapply sameCoords_trans.
    + apply (interpolateOKLCH_step_end ma mb la ca ha lb cb hb steps
               options 0 0 Hla Hca Hha Hlb Hcb Hhb); [now left |].
      change (inject_Z (Z.of_nat 0)) with 0. field. lra.
    + unfold sameCoords, oklch. cbn [col_l col_c col_h to_num nullish same].
      repeat split; ring.
  - replace (steps + 2)%nat with ((steps + 1) + 1)%nat by lia.
    rewrite seq_app, map_app. cbn [seq map Nat.add].
    rewrite last_last.
    eapply sameCoords_trans.
    + apply (interpolateOKLCH_step_end ma mb la ca ha lb cb hb steps
               options (steps + 1) 1 Hla Hca Hha Hlb Hcb Hhb); [now right |].
      replace (Z.of_nat (steps + 1)) with (Z.of_nat steps + 1)%Z by lia.
      rewrite inject_Z_plus. change (inject_Z 1) with 1. field. lra.
    + unfold sameCoords, oklch. cbn [col_l col_c col_h to_num nullish same].
      repeat split; ring.
Qed.

End InterpolatorEnds.

Lemma same_normalized (x : num) (h : Q) :
  0 <= h < 360 -> same x (Fin h) -> same x (normalizeHue (Fin h)).
Proof.
  intros Hh E. rewrite normalizeHue_Fin.
  destruct x as [q| | |]; cbn [same] in *; try contradiction.
  rewrite E. symmetry. now apply normQ_id.
Qed.

(** X13: [interpolateOKLCH] returns [steps + 2] colours.  Between two
    well-formed colours the first one has the lightness and the chroma of
    [colorA] and the hue [normalizeHue(colorA.h)], and the last one has the
    hue [normalizeHue(colorB.h)], whatever the hue path, the easing and the
    chroma boost.  (The lightness and the chroma of the last colour are
    [lerp(a, b, 1)], which is [b] in exact arithmetic only.) *)
Theorem X13_interpolateOKLCH_ends (sin : Q -> Q) (colorA colorB : Color)
    (steps : nat) (options : GradientEngine.InterpolateOptions) (d : Color) :
  inGamut colorA -> inGamut colorB ->
  let out :=
    GradientEngine.interpolateOKLCH sin colorA colorB steps options in
  List.length out = (steps + 2)%nat
  /\ same (to_num (col_l (hd d out))) (to_num (col_l colorA))
  /\ same (to_num (col_c (hd d out))) (to_num (col_c colorA))
  /\ same (to_num (col_h (hd d out))) (normalizeHue (to_num (col_h colorA)))
  /\ same (to_num (col_h (last out d)))
          (normalizeHue (to_num (col_h colorB))).
Proof.
  intros HA HB out.
  destruct (interpolateOKLCH_ends sin colorA colorB steps options d HA HB)
    as (Hlen & (Hl & Hc & Hh) & (_ & _ & Hh')).
  fold out in Hlen, Hl, Hc, Hh, Hh'.
  destruct (inGamutUpTo_inv 0.4 colorA HA)
    as (ma & la & ca & ha & EA & _ & _ & Hha).
  destruct (inGamutUpTo_inv 0.4 colorB HB)
    as (mb & lb & cb & hb & EB & _ & _ & Hhb).
  split; [exact Hlen |]. split; [exact Hl |]. split; [exact Hc |].
  rewrite EA in Hh |- *. rewrite EB in Hh' |- *.
  cbn [col_h to_num nullish] in Hh, Hh' |- *.
  split; apply same_normalized; assumption.
Qed.

Lemma X13_witness :
  same
    (to_num
       (col_h
          (hd (oklch 0 0 0)
             (GradientEngine.interpolateOKLCH sinModel (oklch 0.5 0.3 10)
                (oklch 0.7 0.2 200) 3
                (GradientEngine.mkInterpolateOptions Path.cool Ease.ease
                   true)))))
    (normalizeHue (to_num (col_h (oklch 0.5 0.3 10)))).
Proof.
  assert (HA : inGamut (oklch 0.5 0.3 10))
    by (repeat split; vm_compute; discriminate).
  assert (HB : inGamut (oklch 0.7 0.2 200))
    by (repeat split; vm_compute; discriminate).
  exact (proj1 (proj2 (proj2 (proj2
           (X13_interpolateOKLCH_ends sinModel (oklch 0.5 0.3 10)
              (oklch 0.7 0.2 200) 3
              (GradientEngine.mkInterpolateOptions Path.cool Ease.ease true)
              (oklch 0 0 0) HA HB))))).
Defined.

(* ===================================================================== *)
(** * Further properties of the mood classifier *)
(* ===================================================================== *)

Ltac dec_prune :=
  repeat match goal with
         | |- context [Qlt_le_dec ?a ?b] =>
             destruct (Qlt_le_dec a b); try (exfalso; lra)
         end.

(** X14: the rule cascade of the classifier is a flat table.  Below chroma
    0.08 the mood is read off the lightness alone ('noir', 'moody',
    'dreamy', 'ethereal'); from 0.13 up it is 'jewel' below lightness 0.40
    and 'pop' from 0.55 up, and 'botanical' or 'balanced' in between; in
    the middle band the raw hue decides between 'earthy', 'serene',
    'botanical' and 'balanced', with 'ethereal' for the very light greens
    and magentas.  'hot' and 'icy' temperatures never decide a mood, and a
    negative raw hue is not read as warm. *)
Theorem X14_mood_is_a_flat_table (md : option string) (l c h : Q) :
  mood (VibeHarmony.analyzeColorMood
          (mkColor md (Some (Fin l)) (Some (Fin c)) (Some (Fin h))))
  = moodTable l c h.
Proof.
  unfold VibeHarmony.analyzeColorMood, moodTable.
  cbn [col_l col_c col_h nullish mood]. num_red.
  dec_prune; reflexivity.
Qed.

(* ===================================================================== *)
(** * Further properties of the companion generator *)
(* ===================================================================== *)

Lemma neutralChance_bounds (m : Mood.t) (r : Raw) :
  exists p : Q,
    neutralChance (VibeHarmony.determineCompanionStrategy m r) = Fin p
    /\ 0 <= p <= 0.5.
Proof. destruct m; eexists; (split; [reflexivity | lra]). Qed.

(** The two loop bounds of the generator add up to the target count. *)
Lemma slots_sum (q p : Q) (T : Z) :
  q == inject_Z T -> (-1 <= T)%Z -> 0 <= p <= 0.5 ->
  (loop_count (Fin q -! Math_round (Fin q *! Fin p))
   + loop_count (Math_round (Fin q *! Fin p)) = Z.to_nat T)%nat.
Proof.
  intros Eq HT Hp. cbn [mul Math_round sub neg add loop_count].
  set (z := Qfloor (q * p + 0.5)).
  pose proof (Qfloor_le (q * p + 0.5)) as F1.
  pose proof (Qlt_floor (q * p + 0.5)) as F2.
  fold z in F1, F2. rewrite inject_Z_plus in F2.
  change (inject_Z 1) with 1 in F2.
  assert (Hc : Qceiling (q + - inject_Z z) = (T - z)%Z).
  { rewrite <- (Qceiling_Z (T - z)). apply Qceiling_comp.
    unfold Z.sub. rewrite inject_Z_plus, inject_Z_opp. lra. }
  rewrite Hc, Qceiling_Z.
  assert (HTq : -1 <= inject_Z T)
    by (change (-1) with (inject_Z (-1)); rewrite <- Zle_Qle; lia).
  assert (Hz0 : (0 <= z)%Z).
  { assert (H : inject_Z (-1) < inject_Z z)
      by (change (inject_Z (-1)) with (-1); nra).
    rewrite <- Zlt_Qlt in H. lia. }
  assert (Hz1 : (z <= T \/ (T = -1 /\ z = 0))%Z).
  { destruct (Z.eq_dec T (-1)) as [-> | Hne].
    - right. split; [reflexivity |].
      assert (H : inject_Z z < inject_Z 1)
        by (change (inject_Z 1) with 1; change (inject_Z (-1)) with (-1) in Eq;
            nra).
      rewrite <- Zlt_Qlt in H. lia.
    - left. assert (HT0 : 0 <= inject_Z T)
        by (change 0 with (inject_Z 0); rewrite <- Zle_Qle; lia).
      destruct (Z.eq_dec T 0) as [-> | Hne0].
      + assert (H : inject_Z z < inject_Z 1)
          by (change (inject_Z 1) with 1; change (inject_Z 0) with 0 in Eq;
              nra).
        rewrite <- Zlt_Qlt in H. lia.
      + assert (HT1 : 1 <= inject_Z T)
          by (change 1 with (inject_Z 1); rewrite <- Zle_Qle; lia).
        assert (H : inject_Z z <= inject_Z T) by nra.
        rewrite <- Zle_Qle in H. exact H. }
  lia.
Qed.

Lemma pal_mood_analyze (random : nat -> Q) (input : Color)
    (options : VibeHarmony.CompanionOptions) (st : nat) :
  VibeHarmony.pal_mood
    (fst (VibeHarmony.generateVibeCompanions random input options st))
  = mood (VibeHarmony.analyzeColorMood input).
Proof.
  unfold VibeHarmony.generateVibeCompanions. rewrite !bind_run.
  reflexivity.
Qed.

(** X15: whatever [count] is, the palette has exactly [count] entries when
    the input is left out, and one entry for the input plus [count - 1]
    companions when it is included (so a single entry when [count] is 0). *)
Theorem X15_palette_length (random : nat -> Q) (input : Color)
    (options : VibeHarmony.CompanionOptions) (st : nat) :
  List.length
    (VibeHarmony.palette
       (fst (VibeHarmony.generateVibeCompanions random input options st)))
  = if VibeHarmony.includeInput options
    then S (VibeHarmony.count options - 1)
    else VibeHarmony.count options.
Proof.
  destruct (generateVibeCompanions_palette random input options st)
    as (cs & ns & unsorted & Ecs & Ens & Eu & Ep).
  rewrite Ep, length_app, Array_sort_length, Eu, neutralLoop_length,
    chromaticLoop_length.
  rewrite strategy_analyze in Ens.
  destruct (neutralChance_bounds
              (mood (VibeHarmony.analyzeColorMood input))
              (mkRaw (col_l input ?? 0.5) (col_c input ?? 0.1)
                 (col_h input ?? 0))) as (p & Ep' & Hp).
  rewrite Ep' in Ens. subst cs ns.
  destruct (VibeHarmony.includeInput options); cbn [List.length Nat.add].
  - change (of_nat (VibeHarmony.count options) -! 1)
      with (Fin (inject_Z (Z.of_nat (VibeHarmony.count options)) + - (1))).
    rewrite (slots_sum _ p (Z.of_nat (VibeHarmony.count options) - 1));
      [lia | | lia | exact Hp].
    unfold Z.sub. rewrite inject_Z_plus. reflexivity.
  - unfold of_nat.
    rewrite (slots_sum _ p (Z.of_nat (VibeHarmony.count options)));
      [lia | reflexivity | lia | exact Hp].
Qed.

Lemma mood_classify (color : Color) :
  mood (VibeHarmony.analyzeColorMood color)
  = VibeHarmony.classifyMood
      (energy (VibeHarmony.analyzeColorMood color))
      (depth (VibeHarmony.analyzeColorMood color))
      (temperature (VibeHarmony.analyzeColorMood color))
      (col_h color ?? 0).
Proof. reflexivity. Qed.

Lemma energy_analyze (color : Color) :
  energy (VibeHarmony.analyzeColorMood color)
  = (if (col_c color ?? 0.1) <! 0.04 then Energy.whisper
     else if (col_c color ?? 0.1) <! 0.08 then Energy.muted
     else if (col_c color ?? 0.1) <! 0.13 then Energy.moderate
     else if (col_c color ?? 0.1) <! 0.20 then Energy.vibrant
     else Energy.electric).
Proof. reflexivity. Qed.

Lemma depth_analyze (color : Color) :
  depth (VibeHarmony.analyzeColorMood color)
  = (if (col_l color ?? 0.5) <! 0.25 then Depth.abyss
     else if (col_l color ?? 0.5) <! 0.40 then Depth.deep
     else if (col_l color ?? 0.5) <! 0.55 then Depth.grounded
     else if (col_l color ?? 0.5) <! 0.70 then Depth.airy
     else if (col_l color ?? 0.5) <! 0.85 then Depth.soft
     else Depth.ethereal).
Proof. reflexivity. Qed.

Lemma moderate_is_never_dreamy (d : Depth.t) (t : Temperature.t) (h : num) :
  VibeHarmony.classifyMood Energy.moderate d t h <> Mood.dreamy.
Proof. destruct d, t; discriminate. Qed.

(** X16: the presets pin the mood less than their names suggest.
    'midnight-jewel' and 'neon-noir' always produce the mood 'jewel',
    whatever the base colour.  'morning-fog' produces 'dreamy' unless the
    base chroma is NaN.  'dusty-romance' caps the chroma at 0.08, which is
    not below the 0.08 threshold of 'muted': its mood is 'dreamy' exactly
    when the base chroma is below 0.08, so never for a base colour without
    chroma (default 0.1). *)
Theorem X16_preset_moods (random : nat -> Q) (base : Color) (st : nat) :
  VibeHarmony.pal_mood
    (fst (VibeHarmony.getVibePreset random VibeHarmony.Preset.midnight_jewel
            base st)) = Mood.jewel
  /\ VibeHarmony.pal_mood
       (fst (VibeHarmony.getVibePreset random VibeHarmony.Preset.neon_noir
               base st)) = Mood.jewel
  /\ (col_c base ?? 0.1 <> NaN ->
      VibeHarmony.pal_mood
        (fst (VibeHarmony.getVibePreset random VibeHarmony.Preset.morning_fog
                base st)) = Mood.dreamy)
  /\ (forall c : Q,
         col_c base ?? 0.1 = Fin c ->
         (VibeHarmony.pal_mood
            (fst (VibeHarmony.getVibePreset random
                    VibeHarmony.Preset.dusty_romance base st)) = Mood.dreamy
          <-> c < 0.08)).
Proof.
  unfold VibeHarmony.getVibePreset. rewrite !pal_mood_analyze.
  rewrite !mood_classify, !energy_analyze, !depth_analyze.
  unfold VibeHarmony.adjustedColor. cbn [col_l col_c col_h col_mode nullish].
  split; [| split; [| split]].
  - destruct (col_c base ?? 0.1) as [c| | |]; repeat (num_red; dec_prune);
      now destruct (temperature _).
  - destruct (col_c base ?? 0.1) as [c| | |]; repeat (num_red; dec_prune);
      now destruct (temperature _).
  - destruct (col_c base ?? 0.1) as [c| | |]; intro Hn; try congruence;
      repeat (num_red; dec_prune); now destruct (temperature _).
  - intros c ->. num_red.
    destruct (Qlt_le_dec c 0.08) as [Hlt | Hge].
    + split; [intros _; exact Hlt | intros _].
      repeat (num_red; dec_prune); now destruct (temperature _).
    + split; [| intro; lra]. intro H. exfalso. revert H.
      destruct (Qlt_le_dec 0.08 c); repeat (num_red; dec_prune);
        apply moderate_is_never_dreamy.
Qed.

Lemma X16_witness :
  VibeHarmony.pal_mood
    (fst (VibeHarmony.getVibePreset (fun _ => 0.5)
            VibeHarmony.Preset.morning_fog (oklch 0.5 0.3 10) 0%nat))
  = Mood.dreamy.
Proof.
  refine (proj1 (proj2 (proj2 (X16_preset_moods (fun _ => 0.5)
                                 (oklch 0.5 0.3 10) 0%nat))) _).
  discriminate.
Defined.

Section CompanionBounds.

Variable random : nat -> Q.
Hypothesis random_range : forall n : nat, 0 <= random n < 1.

(** X17: for an input whose coordinates are finite numbers (in range or
    not; absent ones take their defaults) and random values in [[0, 1)],
    every generated entry of the palette has lightness in [[0.08, 0.95]],
    chroma in [[0.01, 0.30]] and hue in [[0, 360)]; only the entry of the
    input itself can be out of those bounds. *)
Theorem X17_companions_within_bounds (input : Color)
    (options : VibeHarmony.CompanionOptions) (st : nat) :
  finite (col_l input ?? 0.5) -> finite (col_c input ?? 0.1) ->
  finite (col_h input ?? 0) ->
  Forall
    (fun e =>
       e = sourceEntry input
       \/ (between 0.08 0.95 (to_num (col_l (VibeHarmony.color e)))
           /\ between 0.01 0.30 (to_num (col_c (VibeHarmony.color e)))
           /\ below 0 360 (to_num (col_h (VibeHarmony.color e)))))
    (VibeHarmony.palette
       (fst (VibeHarmony.generateVibeCompanions random input options st))).
Proof.
  intros Hl Hc Hh.
  destruct (generateVibeCompanions_palette random input options st)
    as (cs & ns & unsorted & _ & _ & Eu & Ep).
  rewrite Ep. apply Forall_app. split.
  - destruct (VibeHarmony.includeInput options); repeat constructor.
  - apply Forall_forall. intros e He.
    apply (proj1 (Array_sort_In VibeHarmony.Companion _ e unsorted)) in He.
    revert e He. apply Forall_forall. rewrite Eu.
    apply neutralLoop_Forall.
    + intros i st'.
      destruct (generateGroundingNeutral_spec random input
                  (VibeHarmony.analyzeColorMood input) i st')
        as (lq & cq & hue & rl & E & _ & Hr & Hhue). rewrite E.
      destruct (Hr random_range) as [Hlq Hcq].
      right. cbn [fst VibeHarmony.color oklch col_l col_c col_h to_num nullish
                  between].
      split; [lra | split; [lra |]].
      apply normalizeHue_below, Hhue. exact Hh.
    + destruct (loop_count cs) as [| n] eqn:En; [constructor |].
      destruct (loop_count_pos cs n En) as (t & Et & Ht).
      apply chromaticLoop_Forall; [| constructor].
      intros i used st'.
      destruct (generateSingleCompanion_spec random input
                  (VibeHarmony.analyzeColorMood input) i cs used st')
        as (X & Y & hue & E & HX & HY & Hhue). rewrite E.
      rewrite strategy_analyze in HX, HY.
      destruct (lightnessRange_finite
                  (mood (VibeHarmony.analyzeColorMood input))
                  (mkRaw (col_l input ?? 0.5) (col_c input ?? 0.1)
                     (col_h input ?? 0)) Hl) as [L1 L2].
      destruct (chromaRange_finite
                  (mood (VibeHarmony.analyzeColorMood input))
                  (mkRaw (col_l input ?? 0.5) (col_c input ?? 0.1)
                     (col_h input ?? 0)) Hc) as [C1 C2].
      right. cbn [fst VibeHarmony.color oklch col_l col_c col_h to_num nullish].
      split; [| split].
      * apply clamp_range; [| discriminate].
        apply HX; [exact L1 | exact L2 | now exists t].
      * apply clamp_range; [| discriminate]. now apply HY.
      * apply normalizeHue_below. apply (below_finite 0 360).
        apply Hhue. exact Hh.
Qed.

(** X18: a grounding neutral contrasts with the input in lightness.  For
    an input lighter than 0.6 it is a 'dark-ground' of lightness in
    [[0.15, 0.35]]; for an input darker than 0.4 a 'light-ground' of
    lightness in [[0.75, 0.90]]; for a mid-tone input the neutrals
    alternate: 'light-ground' in [[0.85, 0.93]] at even indices,
    'dark-ground' in [[0.18, 0.30]] at odd ones.  Its chroma is in
    [[0.01, 0.035]], and it costs three random numbers. *)
Theorem X18_neutral_contrasts_with_input (input : Color)
    (md : MoodDescriptor) (i st : nat) (l : Q) :
  raw_l (raw md) = Fin l ->
  exists lq cq : Q,
    let e := fst (VibeHarmony.generateGroundingNeutral random input md i st) in
    col_l (VibeHarmony.color e) = Some (Fin lq)
    /\ col_c (VibeHarmony.color e) = Some (Fin cq)
    /\ 0.01 <= cq <= 0.035
    /\ snd (VibeHarmony.generateGroundingNeutral random input md i st)
       = (st + 3)%nat
    /\ (0.6 < l ->
        VibeHarmony.role e = VibeHarmony.Role.dark_ground
        /\ 0.15 <= lq <= 0.35)
    /\ (l < 0.4 ->
        VibeHarmony.role e = VibeHarmony.Role.light_ground
        /\ 0.75 <= lq <= 0.90)
    /\ (0.4 <= l <= 0.6 ->
        if Nat.even i
        then VibeHarmony.role e = VibeHarmony.Role.light_ground
             /\ 0.85 <= lq <= 0.93
        else VibeHarmony.role e = VibeHarmony.Role.dark_ground
             /\ 0.18 <= lq <= 0.30).
Proof.
  intro El.
  unfold VibeHarmony.generateGroundingNeutral, VibeHarmony.bind,
    VibeHarmony.ret, VibeHarmony.Math_random.
  rewrite El.
  pose proof (random_range st) as R0. pose proof (random_range (S st)) as R1.
  replace (st + 3)%nat with (S (S (S st))) by lia.
  num_red.
  destruct (Qlt_le_dec 0.6 l); [| destruct (Qlt_le_dec l 0.4);
                                   [| destruct (Nat.even i) eqn:Ei]];
    num_red; dec_cases; try (exfalso; lra);
    do 2 eexists; cbv zeta;
    cbn [fst snd VibeHarmony.color VibeHarmony.role oklch col_l col_c];
    (split; [reflexivity |]); (split; [reflexivity |]);
    (split; [lra |]); (split; [reflexivity |]);
    repeat split; intros; try lra; try (exfalso; lra);
    rewrite ?Ei; try reflexivity; try (split; [reflexivity | lra]).
Qed.

End CompanionBounds.

Lemma half_in_unit (n : nat) : 0 <= (fun _ : nat => 0.5) n < 1.
Proof. split; [discriminate | reflexivity]. Qed.

Lemma X17_witness :
  Forall
    (fun e =>
       e = sourceEntry (oklch 1.5 0.9 400)
       \/ (between 0.08 0.95 (to_num (col_l (VibeHarmony.color e)))
           /\ between 0.01 0.30 (to_num (col_c (VibeHarmony.color e)))
           /\ below 0 360 (to_num (col_h (VibeHarmony.color e)))))
    (VibeHarmony.palette
       (fst (VibeHarmony.generateVibeCompanions (fun _ => 0.5)
               (oklch 1.5 0.9 400) VibeHarmony.defaultCompanionOptions
               0%nat))).
Proof.
  exact (X17_companions_within_bounds (fun _ => 0.5) half_in_unit
           (oklch 1.5 0.9 400) VibeHarmony.defaultCompanionOptions 0%nat
           I I I).
Defined.

Lemma X18_witness :
  VibeHarmony.role
    (fst (VibeHarmony.generateGroundingNeutral (fun _ => 0.5)
            (oklch 0.9 0.1 20)
            (VibeHarmony.analyzeColorMood (oklch 0.9 0.1 20)) 0%nat 0%nat))
  = VibeHarmony.Role.dark_ground.
Proof.
  destruct (X18_neutral_contrasts_with_input (fun _ => 0.5) half_in_unit
              (oklch 0.9 0.1 20)
              (VibeHarmony.analyzeColorMood (oklch 0.9 0.1 20)) 0%nat 0%nat
              0.9 eq_refl) as (lq & cq & H).
  cbv zeta in H. destruct H as (_ & _ & _ & _ & H & _).
  exact (proj1 (H eq_refl)).
Defined.

(* ===================================================================== *)
(** * Further properties: clash avoidance, accents, backgrounds *)
(* ===================================================================== *)

Lemma avoidClumping_loop_classes (hue sep : Q) (usedHues : list num) :
  0 <= hue < 360 ->
  forall (fuel attempts : nat) (a : Q),
    (Nat.even attempts = true -> a == hue) ->
    (Nat.even attempts = false -> a == normQ (hue + sep)) ->
    exists r : Q,
      VibeHarmony.avoidClumping_loop fuel attempts (Fin a) usedHues (Fin sep)
      = Fin r
      /\ (r == hue \/ r == normQ (hue + sep)).
Proof.
  intros Hh fuel. induction fuel as [| fuel IH]; intros attempts a He Ho;
    cbn [VibeHarmony.avoidClumping_loop].
  - exists a. split; [reflexivity |].
    destruct (Nat.even attempts); [left | right]; auto.
  - destruct (negb _).
    + exists a. split; [reflexivity |].
      destruct (Nat.even attempts); [left | right]; auto.
    + destruct (Nat.even attempts) eqn:Ee; num_red; rewrite normalizeHue_Fin;
        apply IH; rewrite Nat.even_succ, <- Nat.negb_even, Ee; cbn [negb];
        intro H; try discriminate H.
      * apply normQ_congr with (k := 0%Z). rewrite (He eq_refl).
        unfold inject_Z. ring.
      * destruct (normQ_shift (hue + sep)) as [j Ej].
        apply normQ_eq_of_shift with (k := j); [exact Hh |].
        rewrite (Ho eq_refl), Ej. ring.
Qed.

Lemma avoidClumping_loop_step (fuel attempts : nat) (a : num)
    (usedHues : list num) (sep : num) :
  VibeHarmony.avoidClumping_loop (S fuel) attempts a usedHues sep
  = if negb (clashes a usedHues sep) then a
    else VibeHarmony.avoidClumping_loop fuel (S attempts)
           (normalizeHue
              (a +! sep *! (if Nat.even attempts then Fin 1 else Fin (-1))))
           usedHues sep.
Proof. reflexivity. Qed.

(** The two candidates of [avoidClumping] in exact arithmetic. *)
Lemma avoidClumping_candidates (hue sep : Q)
    (usedHues : list num) :
  0 <= hue < 360 ->
  exists r : Q,
    VibeHarmony.avoidClumping (Fin hue) usedHues (Fin sep) = Fin r
    /\ 0 <= r < 360
    /\ (r == hue \/ r == normQ (hue + sep))
    /\ (clashes (Fin r) usedHues (Fin sep) = false
        \/ (clashes (Fin hue) usedHues (Fin sep) = true
            /\ clashes (normalizeHue (Fin hue +! Fin sep *! Fin 1)) usedHues
                 (Fin sep) = true))
    /\ (usedHues = [] -> r = hue).
Proof.
  intro Hh. unfold VibeHarmony.avoidClumping.
  destruct usedHues as [| u us].
  - exists hue. repeat split; try lra; try reflexivity; now left.
  - set (used := u :: us).
    destruct (avoidClumping_loop_classes hue sep used Hh 10 0 hue)
      as (r & Er & Hr); [reflexivity | discriminate |].
    exists r. split; [exact Er |].
    split; [destruct Hr as [-> | ->]; [exact Hh | apply normQ_range] |].
    split; [exact Hr |]. split; [| discriminate].
    revert Er. rewrite (avoidClumping_loop_step 9 0).
    destruct (clashes (Fin hue) used (Fin sep)) eqn:C0; cbn [negb].
    + rewrite (avoidClumping_loop_step 8 1). cbn [Nat.even].
      destruct (clashes (normalizeHue (Fin hue +! Fin sep *! Fin 1)) used
                  (Fin sep)) eqn:C1; cbn [negb].
      * intros _. right. now split.
      * intro Er. left. rewrite <- Er. exact C1.
    + intro Er. left. rewrite <- Er. exact C0.
Qed.

(** X19: [avoidClumping] has two candidates only.  For a hue of [[0, 360)]
    and a minimal separation of at most a full turn, both in whole degrees,
    the result is that hue or the hue one step of [minSeparation] further
    (normalized): the alternating nudges undo each other.  The result is
    clear of every used hue unless both candidates clash, and with no used
    hue the hue is returned as it is. *)
Theorem X19_avoidClumping_two_candidates (hue sep : Q)
    (usedHues : list num) :
  wholeDegrees hue -> wholeDegrees sep ->
  0 <= hue < 360 -> 0 <= sep <= 360 ->
  exists r : Q,
    VibeHarmony.avoidClumping (Fin hue) usedHues (Fin sep) = Fin r
    /\ 0 <= r < 360
    /\ (r == hue \/ r == normQ (hue + sep))
    /\ (clashes (Fin r) usedHues (Fin sep) = false
        \/ (clashes (Fin hue) usedHues (Fin sep) = true
            /\ clashes (normalizeHue (Fin hue +! Fin sep *! Fin 1)) usedHues
                 (Fin sep) = true))
    /\ (usedHues = [] -> r = hue).
Proof.
  intros _ _ Hh _. now apply avoidClumping_candidates.
Qed.

Lemma X19_witness :
  exists r : Q,
    VibeHarmony.avoidClumping (Fin 85) [Fin 100; Fin 135] (Fin 25) = Fin r
    /\ r == 85.
Proof.
  destruct (X19_avoidClumping_two_candidates 85 25 [Fin 100; Fin 135])
    as (r & Er & _);
    [exists 85%Z; split; [vm_compute; discriminate | reflexivity]
    | exists 25%Z; split; [vm_compute; discriminate | reflexivity]
    | split; [discriminate | reflexivity]
    | split; discriminate |].
  exists r. split; [exact Er |].
  revert Er. vm_compute. intro Er. injection Er as <-. reflexivity.
Defined.

Section Accent.

Variable random : nat -> Q.
Hypothesis random_range : forall n : nat, 0 <= random n < 1.

(** X20: [findVibeAccent] draws four random numbers, three of them for the
    hue offsets of the three intensities, of which one is used: the accent
    hue is the input hue advanced by 30 to 50 degrees ('subtle'), 120 to
    160 ('balanced') or 150 to 210 ('bold').  For finite input coordinates
    the accent has lightness in [[0.25, 0.80]] and chroma in [[0.06, 0.25]],
    and for an input lightness in [[0, 1]] the accent is at least 0.15
    darker than an input above 0.55 and at least 0.15 lighter than any
    other. *)
Theorem X20_accent_bounds_and_contrast (md : option string) (l c h : Q)
    (intensity : VibeHarmony.Intensity.t) (st : nat) :
  let input := mkColor md (Some (Fin l)) (Some (Fin c)) (Some (Fin h)) in
  let res := VibeHarmony.findVibeAccent random input intensity st in
  exists la ca off : Q,
    VibeHarmony.accent (fst res)
    = oklch (Fin la) (Fin ca) (normalizeHue (Fin (h + off)))
    /\ snd res = (st + 4)%nat
    /\ List.length (VibeHarmony.alternatives (fst res)) = 2%nat
    /\ 0.25 <= la <= 0.80 /\ 0.06 <= ca <= 0.25
    /\ match intensity with
       | VibeHarmony.Intensity.subtle =>
           off = 30 + random st * 20 /\ 30 <= off <= 50
       | VibeHarmony.Intensity.balanced =>
           off = 120 + random (S st) * 40 /\ 120 <= off <= 160
       | VibeHarmony.Intensity.bold =>
           off = 150 + random (S (S st)) * 60 /\ 150 <= off <= 210
       end
    /\ (0 <= l <= 1 ->
        (0.55 < l -> la <= l - 0.15) /\ (l <= 0.55 -> l + 0.15 <= la)).
Proof.
  intros input res. subst res input.
  unfold VibeHarmony.findVibeAccent, VibeHarmony.bind, VibeHarmony.ret,
    VibeHarmony.Math_random.
  rewrite raw_analyze. cbn [col_l col_c col_h nullish raw_l raw_c raw_h].
  cbn [fst snd VibeHarmony.accent VibeHarmony.alternatives List.length].
  pose proof (random_range st) as R0. pose proof (random_range (S st)) as R1.
  pose proof (random_range (S (S st))) as R2.
  pose proof (random_range (S (S (S st)))) as R3.
  replace (st + 4)%nat with (S (S (S (S st)))) by lia.
  destruct (clamp_Fin
              (c * match intensity with
                   | VibeHarmony.Intensity.subtle => 1.0
                   | VibeHarmony.Intensity.balanced => 1.2
                   | VibeHarmony.Intensity.bold => 1.5
                   end) 0.06 0.25) as (ca & Eca & Hca & _); [discriminate |].
  assert (Ec : clamp
                 (Fin c *! match intensity with
                           | VibeHarmony.Intensity.subtle => Fin 1.0
                           | VibeHarmony.Intensity.balanced => Fin 1.2
                           | VibeHarmony.Intensity.bold => Fin 1.5
                           end) 0.06 0.25 = Fin ca)
    by (rewrite <- Eca; destruct intensity; reflexivity).
  rewrite Ec.
  set (off := match intensity with
              | VibeHarmony.Intensity.subtle => 30 + random st * 20
              | VibeHarmony.Intensity.balanced => 120 + random (S st) * 40
              | VibeHarmony.Intensity.bold => 150 + random (S (S st)) * 60
              end).
  assert (Eoff : match intensity with
                 | VibeHarmony.Intensity.subtle => 30 +! Fin (random st) *! 20
                 | VibeHarmony.Intensity.balanced =>
                     120 +! Fin (random (S st)) *! 40
                 | VibeHarmony.Intensity.bold =>
                     150 +! Fin (random (S (S st))) *! 60
                 end = Fin off) by (destruct intensity; reflexivity).
  rewrite Eoff. num_red.
  destruct (Qlt_le_dec 0.55 l) as [Hl | Hl]; num_red;
    match goal with
    | |- context [clamp (Fin ?x) _ _] =>
        destruct (clamp_Fin x 0.25 0.80) as (la & Ela & Hla & Hid);
          [discriminate |];
        rewrite Ela; exists la, ca, off;
        repeat (split; [first [reflexivity | lra] |]);
        (split; [destruct intensity; subst off; (split; [reflexivity | lra]) |]);
        intro Hr; split; intro H; try lra;
        first [ destruct (Qlt_le_dec x 0.80) as [H8 | H8];
                [rewrite Hid by lra; lra | lra]
              | destruct (Qlt_le_dec x 0.25) as [H2 | H2];
                [lra | rewrite Hid by lra; lra] ]
    end.
Qed.

(** X21: [findVibeBackgrounds] returns four backgrounds, all of chroma at
    most 0.02: a light one (lightness in [[0.96, 0.99]]) and a dark one
    (in [[0.10, 0.15]]) of the input hue, a warm neutral 30 degrees further
    and a complement wash 180 degrees further.  The wash is dark (0.12)
    for an input lighter than 0.5 and light (0.93) otherwise, so at least
    0.38 away from an input lightness of [[0, 1]].  The warm neutral is
    light (0.92) for a 'deep' or 'abyss' input and dark (0.15) otherwise,
    but it is labelled 'Warm Paper' for 'deep' only: for an 'abyss' input
    the light background carries the label 'Warm Dark'. *)
Theorem X21_backgrounds (md : option string) (l c h : Q) (st : nat) :
  let input := mkColor md (Some (Fin l)) (Some (Fin c)) (Some (Fin h)) in
  let res := VibeHarmony.findVibeBackgrounds random input st in
  exists l0 c0 l1 c1 l2 l3 : Q,
    map VibeHarmony.bg_color (VibeHarmony.backgrounds (fst res))
    = [oklch (Fin l0) (Fin c0) (Fin h); oklch (Fin l1) (Fin c1) (Fin h);
       oklch (Fin l2) (Fin 0.015) (normalizeHue (Fin (h + 30)));
       oklch (Fin l3) (Fin 0.02) (normalizeHue (Fin (h + 180)))]
    /\ map VibeHarmony.label (VibeHarmony.backgrounds (fst res))
       = ["Light & Clean"%string; "Deep & Moody"%string;
          if Qlt_le_dec l 0.25 then "Warm Dark"%string
          else if Qlt_le_dec l 0.40 then "Warm Paper"%string
          else "Warm Dark"%string;
          "Complement Wash"%string]
    /\ snd res = (st + 4)%nat
    /\ 0.96 <= l0 <= 0.99 /\ 0.005 <= c0 <= 0.015
    /\ 0.10 <= l1 <= 0.15 /\ 0.005 <= c1 <= 0.02
    /\ l2 = (if Qlt_le_dec l 0.40 then 0.92 else 0.15)
    /\ l3 = (if Qlt_le_dec 0.5 l then 0.12 else 0.93)
    /\ (0 <= l <= 1 -> 0.38 <= Qabs (l3 - l)).
Proof.
  intros input res. subst res input.
  unfold VibeHarmony.findVibeBackgrounds, VibeHarmony.bind, VibeHarmony.ret,
    VibeHarmony.Math_random.
  rewrite raw_analyze, depth_analyze.
  cbn [col_l col_c col_h nullish raw_l raw_c raw_h].
  cbn [fst snd VibeHarmony.backgrounds map VibeHarmony.bg_color
       VibeHarmony.label].
  pose proof (random_range st) as R0. pose proof (random_range (S st)) as R1.
  pose proof (random_range (S (S st))) as R2.
  pose proof (random_range (S (S (S st)))) as R3.
  replace (st + 4)%nat with (S (S (S (S st)))) by lia.
  num_red. dec_prune; cbn [VibeHarmony.depth_eqb orb];
    do 6 eexists;
    (split; [reflexivity |]); (split; [reflexivity |]);
    (split; [reflexivity |]);
    repeat (split; [first [lra | reflexivity] |]);
    intro Hr;
    first [ apply Qabs_ge; lra
          | rewrite <- Qabs_opp; apply Qabs_ge; lra ].
Qed.

End Accent.

Lemma X20_witness :
  exists la : Q,
    col_l (VibeHarmony.accent
             (fst (VibeHarmony.findVibeAccent (fun _ => 0.5)
                     (mkColor None (Some (Fin 0.9)) (Some (Fin 0.25))
                        (Some (Fin 280)))
                     VibeHarmony.Intensity.balanced 0%nat)))
    = Some (Fin la)
    /\ la <= 0.9 - 0.15.
Proof.
  destruct (X20_accent_bounds_and_contrast (fun _ => 0.5) half_in_unit None
              0.9 0.25 280 VibeHarmony.Intensity.balanced 0%nat)
    as (la & ca & off & E & _ & _ & _ & _ & _ & H).
  exists la. rewrite E. split; [reflexivity |].
  apply H; [split; discriminate | reflexivity].
Defined.

Lemma X21_witness :
  exists l3 : Q,
    0.38 <= Qabs (l3 - 0.9)
    /\ In (oklch (Fin l3) (Fin 0.02) (normalizeHue (Fin (280 + 180))))
         (map VibeHarmony.bg_color
            (VibeHarmony.backgrounds
               (fst (VibeHarmony.findVibeBackgrounds (fun _ => 0.5)
                       (mkColor None (Some (Fin 0.9)) (Some (Fin 0.25))
                          (Some (Fin 280))) 0%nat)))).
Proof.
  destruct (X21_backgrounds (fun _ => 0.5) half_in_unit None 0.9 0.25 280
              0%nat)
    as (l0 & c0 & l1 & c1 & l2 & l3 & E & _ & _ & _ & _ & _ & _ & _ & _ & H).
  exists l3. split; [apply H; split; discriminate |].
  rewrite E. do 3 right. left. reflexivity.
Defined.

(** X22: the sentence of [describeRelationship] and the role of
    [describeCompanionRole] are read off the same hue offset with the same
    thresholds: for the same input and companion hue the sentence opens
    with the words of the role ('A close neighbor' for 'neighbor', and so
    on), whatever the lightness and the chroma. *)
Theorem X22_description_opens_with_role (input companion : Color) :
  let role :=
    VibeHarmony.describeCompanionRole input (to_num (col_h companion)) in
  exists rest : string,
    VibeHarmony.describeRelationship input companion
    = (rolePhrase role ++ rest)%string
    /\ isDistanceRole role = true.
Proof.
  unfold VibeHarmony.describeRelationship, VibeHarmony.describeCompanionRole.
  cbv zeta.
  set (hueDiff :=
         Math_abs (normalizeHue (to_num (col_h companion)
                                 -! (col_h input ?? 0)))).
  set (energyWords := (if Math_abs _ <! 0.03 then _ else _)%string).
  set (weightWords := (if Math_abs _ <! 0.08 then _ else _)%string).
  exists (energyWords ++ weightWords)%string.
  destruct (hueDiff <! 30); [| destruct (hueDiff <! 60);
    [| destruct (hueDiff <! 120); [| destruct (hueDiff <! 160)]]];
    cbn [rolePhrase isDistanceRole]; (split; [| reflexivity]);
    cbn [String.append]; reflexivity.
Qed.

(* ===================================================================== *)
(** * Further properties of the key-stop generators *)
(* ===================================================================== *)

Section StyleSignatures.

Variable sin : Q -> Q.

(** X23: what the fixed styles keep for every base colour with finite
    coordinates, in range or not: the 'noir' key stops are dark and nearly
    neutral (lightness at most 0.35, chroma at most 0.06), the 'jewel' key
    stops are deep (lightness at most 0.45), the 'pop' key stops are
    saturated (chroma at least 0.15), and the 'dreamy' key stops end on the
    near-white [(0.92, 0.02)] and, for a base lightness in [[0.35, 0.95]],
    never get darker from one stop to the next. *)
Theorem X23_style_signatures (md : option string) (l c h : Q) (n : nat) :
  let base := mkColor md (Some (Fin l)) (Some (Fin c)) (Some (Fin h)) in
  Forall (fun s => exists sl sc : Q,
              col_l s = Some (Fin sl) /\ col_c s = Some (Fin sc)
              /\ sl <= 0.35 /\ sc <= 0.06)
    (GradientEngine.generateKeyStops sin base Style.noir n)
  /\ Forall (fun s => exists sl : Q, col_l s = Some (Fin sl) /\ sl <= 0.45)
       (GradientEngine.generateKeyStops sin base Style.jewel n)
  /\ Forall (fun s => exists sc : Q, col_c s = Some (Fin sc) /\ 0.15 <= sc)
       (GradientEngine.generateKeyStops sin base Style.pop n)
  /\ exists l0 l1 c0 c1 : Q, exists h0 h1 h2 : num,
       GradientEngine.generateKeyStops sin base Style.dreamy n
       = [oklch (Fin l0) (Fin c0) h0; oklch (Fin l1) (Fin c1) h1;
          oklch (Fin 0.92) (Fin 0.02) h2]
       /\ 0.5 <= l0 /\ l1 <= 0.85
       /\ (0.35 <= l <= 0.95 -> l0 <= l1).
Proof.
  intro base. subst base. unfold GradientEngine.generateKeyStops.
  cbn [col_l col_c col_h col_mode nullish].
  split; [| split; [| split]].
  - repeat constructor; unfold oklch; cbn [col_l col_c];
      repeat (num_red; dec_cases); do 2 eexists;
      (split; [reflexivity |]); (split; [reflexivity |]); lra.
  - repeat constructor; unfold oklch; cbn [col_l col_c];
      repeat (num_red; dec_cases); eexists;
      (split; [reflexivity |]); lra.
  - repeat constructor; unfold oklch; cbn [col_l col_c];
      repeat (num_red; dec_cases); eexists;
      (split; [reflexivity |]); lra.
  - repeat (num_red; dec_cases); do 7 eexists;
      (split; [reflexivity |]); repeat split; intros; lra.
Qed.

(** X24: the two styles that switch the chroma boost off keep their muted
    passage through the expansion: for a well-formed base colour no stop of
    an 'atmospheric' gradient has more chroma than the base colour, and no
    stop of a 'noir' gradient has more chroma than 0.06, whatever the hue
    path. *)
Theorem X24_muted_styles_stay_muted (base : Color) (n : nat)
    (hp : option Path.t) :
  inGamut base ->
  (exists c : Q,
      col_c base = Some (Fin c)
      /\ Forall (inGamutUpTo c)
           (stops (GradientEngine.generateVibeGradient sin base
                     (GradientEngine.mkGradientOptions
                        (Some Style.atmospheric) n hp))))
  /\ Forall (inGamutUpTo 0.06)
       (stops (GradientEngine.generateVibeGradient sin base
                 (GradientEngine.mkGradientOptions (Some Style.noir) n hp))).
Proof.
  intro Hb.
  destruct (inGamutUpTo_inv 0.4 base Hb)
    as (md & l & c & h & -> & Hl & Hc & Hh).
  split.
  - exists c. split; [reflexivity |].
    cbn [stops GradientEngine.generateVibeGradient GradientEngine.go_style
         GradientEngine.go_stops GradientEngine.style_eqb negb andb].
    apply optimizeForGradient_gamut with (cin := c);
      cbn [GradientEngine.boostChroma]; try lra; try discriminate.
    unfold GradientEngine.generateKeyStops.
    cbn [col_l col_c col_h col_mode nullish]. stop_bounds.
  - cbn [stops GradientEngine.generateVibeGradient GradientEngine.go_style
         GradientEngine.go_stops GradientEngine.style_eqb negb andb].
    apply optimizeForGradient_gamut with (cin := 0.06);
      cbn [GradientEngine.boostChroma]; try lra; try discriminate.
    unfold GradientEngine.generateKeyStops.
    cbn [col_l col_c col_h col_mode nullish]. stop_bounds.
Qed.

End StyleSignatures.

Lemma X23_witness :
  exists l0 l1 : Q,
    map col_l (GradientEngine.generateKeyStops sinModel
                 (mkColor None (Some (Fin 0.6)) (Some (Fin 0.1))
                    (Some (Fin 200))) Style.dreamy 3)
    = [Some (Fin l0); Some (Fin l1); Some (Fin 0.92)]
    /\ l0 <= l1.
Proof.
  destruct (X23_style_signatures sinModel None 0.6 0.1 200 3)
    as (_ & _ & _ & l0 & l1 & c0 & c1 & h0 & h1 & h2 & E & _ & _ & H).
  exists l0, l1. rewrite E. split; [reflexivity |].
  apply H. split; discriminate.
Defined.

Lemma X24_witness :
  Forall (inGamutUpTo 0.06)
    (stops (GradientEngine.generateVibeGradient sinModel (oklch 0.5 0.3 10)
              (GradientEngine.mkGradientOptions (Some Style.noir) 3 None))).
Proof.
  refine (proj2 (X24_muted_styles_stay_muted sinModel (oklch 0.5 0.3 10) 3
                   None _)).
  repeat split; vm_compute; discriminate.
Defined.
